(** * minishell: the process-orchestration core of [minishell.c]

    A shallow embedding of the shell's job registry, pipeline executor,
    redirection applier and interrupt-handler switching, together with the
    part of the operating system these functions talk to: the descriptor
    table of a process, the table of its children, the disposition of
    SIGINT and the text written by [printf]/[fprintf].

    C [int]s are integers of [Z].  Counters that index the fixed arrays of
    the program ([jobs->size], [command], [index], ...) stay far inside the
    32-bit range and are written with plain [Z] arithmetic; C's [%] is
    [Z.rem] (truncation towards zero).  The one value read from the user,
    [atoi(job)], is wrapped to 32 bits explicitly. *)

From stdpp Require Import base list strings pretty.
From Stdlib Require Import ZArith Lia Ascii.

Local Open Scope Z_scope.

(** ** Constants of the source *)

Definition MAXIMUM_PID_LIST_SIZE : Z := 25.
Definition MAXIMUM_JOB_LIST_SIZE : Z := 50.
Definition FORK_CHILD : Z := 0.
Definition EXIT_FAILURE : Z := 1.
Definition STDIN_FILENO : Z := 0.
Definition STDOUT_FILENO : Z := 1.
Definition STDERR_FILENO : Z := 2.
Definition WAIT : Z := 0.
Definition WNOHANG : Z := 1.

(** [fopen] modes: the macros [FILE_READ] ("r") and [FILE_WRITE] ("w"). *)
Inductive fmode := FILE_READ | FILE_WRITE.

(** ** C arrays

    A C array is a list of its cells, indexed by an [int].  An access
    outside the array is undefined in C and reaches the memory next to the
    array.  [aget] reads a given default there.  [aset] is the array after
    the assignment: a write outside leaves the array itself as it is, and
    what it hits instead is for the function that writes to say.  The one
    write of the program that is not kept inside its array by the counter
    of the registry is [currentJob->pids[command] = pid], for which
    [record_pid] says where it lands. *)

Definition aget {A} (d : A) (l : list A) (i : Z) : A :=
  if decide (0 <= i) then default d (l !! Z.to_nat i) else d.

Definition aset {A} (l : list A) (i : Z) (x : A) : list A :=
  if decide (0 <= i) then <[Z.to_nat i := x]> l else l.

(** ** The data model: [tjob] and [tjobs] *)

Record tjob := {
  job_instruction : string;   (* char instruction[MAXIMUM_LINE_LENGTH] *)
  job_size : Z;               (* int size *)
  job_pids : list Z;          (* pid_t pids[MAXIMUM_PID_LIST_SIZE] *)
  job_finished : Z            (* int finished *)
}.

Record tjobs := {
  jobs_list : list tjob;      (* tjob *list, MAXIMUM_JOB_LIST_SIZE cells *)
  jobs_size : Z;              (* int size *)
  (* No member of the struct: the writes [list[cell].pids[index] = value]
     that left the array [pids], oldest first.  Index 25 is the field
     [finished] of the cell; the larger ones are the cells that follow or,
     behind the last cell, memory outside the block.  Once this list is
     not empty the behaviour of the program is undefined. *)
  jobs_overrun : list (Z * Z * Z)
}.

(** The content of a cell that was never written. *)
Definition blank_job : tjob :=
  {| job_instruction := EmptyString; job_size := 0;
     job_pids := replicate (Z.to_nat MAXIMUM_PID_LIST_SIZE) 0;
     job_finished := 0 |}.

(** [jobs.list = malloc(...); jobs.size = 0] of [main]. *)
Definition empty_jobs : tjobs :=
  {| jobs_list := replicate (Z.to_nat MAXIMUM_JOB_LIST_SIZE) blank_job;
     jobs_size := 0; jobs_overrun := [] |}.

(** Modelled from the spec: the [tline] of parser.h, which is not part of
    the sources: an ordered list of commands, each an argument vector,
    three optional redirection file names and the background flag. *)
Record tline := {
  ncommands : Z;
  commands : list (list string);
  redirect_input : option string;
  redirect_output : option string;
  redirect_error : option string;
  background : Z
}.

(** ** The operating system as the shell sees it *)

(** What a descriptor is bound to. *)
Inductive file :=
| Inherited (name : string)            (* a stream the shell was started with *)
| Opened (name : string) (m : fmode)   (* a file opened by [fopen] *)
| PipeRead (id : nat)
| PipeWrite (id : nat).

(** A child that has not been reaped is running or has exited. *)
Inductive pstatus := Running | Exited.

(** Disposition of SIGINT: the two handlers of the source and the two
    standard ones. *)
Inductive handler := SIG_DFL | SIG_IGN | ctrlc | ctrlc2.

(** What can end a blocking wait when no awaited child has exited yet. *)
Inductive wait_event :=
| ChildExits (pid : Z)
| Interrupted.

(** System calls with a visible result, and the lines the shell prints. *)
Inductive event :=
| EPipe (made : option (Z * Z))           (* pipe(): the two new descriptors *)
| EFork (ret : Z)                         (* fork() in the parent *)
| EWait (ret : Z)                         (* wait(NULL) *)
| EWaitpid (pid options ret : Z)          (* waitpid(pid, NULL, options) *)
| OutJob (slot pid : Z)                   (* "[%i] %i\n" *)
| OutDone (slot : Z) (instr : string)     (* "[%i] Done\t%s" *)
| OutRunning (slot : Z) (instr : string)  (* "[%i] Running\t%s" *)
| OutNoJobs                               (* "fg: There are no jobs available\n" *)
| ErrNoSuchJob                            (* stderr: "fg: Error. No such job\n" *)
| OutTerminated                           (* "fg: job has terminated\n" *)
| OutFgDone (job instr : string)          (* "[%s] Done\t%s" *)
| OutInstruction (instr : string)         (* "%s" *)
| ErrOpen (filename : string) (errno : Z) (* stderr: "%s: Error. %s\n" *)
| ErrNotFound (command : string).         (* stderr: "%s: Command not found\n" *)

Record world := {
  fds : list (option file);         (* descriptor table, one cell per number *)
  pipes : nat;                      (* pipes created so far *)
  procs : list (Z * pstatus);       (* children not yet reaped *)
  pgrp : Z;                         (* process group of the shell *)
  sigint : handler;
  trace : list event;               (* oldest first *)
  (* the environment *)
  fs : string -> fmode -> option Z; (* errno when the file cannot be opened *)
  path : string -> bool;            (* programs execvp can start *)
  pipe_ok : list bool;              (* outcome of the coming pipe() calls *)
  fork_ret : list Z;                (* result of the coming fork() calls *)
  wait_ev : list wait_event         (* what ends the coming blocking waits *)
}.

Definition set_fds (f : list (option file)) (w : world) : world :=
  {| fds := f; pipes := pipes w; procs := procs w; pgrp := pgrp w;
     sigint := sigint w; trace := trace w; fs := fs w; path := path w;
     pipe_ok := pipe_ok w; fork_ret := fork_ret w; wait_ev := wait_ev w |}.

Definition set_pipes (n : nat) (w : world) : world :=
  {| fds := fds w; pipes := n; procs := procs w; pgrp := pgrp w;
     sigint := sigint w; trace := trace w; fs := fs w; path := path w;
     pipe_ok := pipe_ok w; fork_ret := fork_ret w; wait_ev := wait_ev w |}.

Definition set_procs (ps : list (Z * pstatus)) (w : world) : world :=
  {| fds := fds w; pipes := pipes w; procs := ps; pgrp := pgrp w;
     sigint := sigint w; trace := trace w; fs := fs w; path := path w;
     pipe_ok := pipe_ok w; fork_ret := fork_ret w; wait_ev := wait_ev w |}.

Definition set_sigint (h : handler) (w : world) : world :=
  {| fds := fds w; pipes := pipes w; procs := procs w; pgrp := pgrp w;
     sigint := h; trace := trace w; fs := fs w; path := path w;
     pipe_ok := pipe_ok w; fork_ret := fork_ret w; wait_ev := wait_ev w |}.

Definition emit (e : event) (w : world) : world :=
  {| fds := fds w; pipes := pipes w; procs := procs w; pgrp := pgrp w;
     sigint := sigint w; trace := trace w ++ [e]; fs := fs w; path := path w;
     pipe_ok := pipe_ok w; fork_ret := fork_ret w; wait_ev := wait_ev w |}.

Definition set_pipe_ok (l : list bool) (w : world) : world :=
  {| fds := fds w; pipes := pipes w; procs := procs w; pgrp := pgrp w;
     sigint := sigint w; trace := trace w; fs := fs w; path := path w;
     pipe_ok := l; fork_ret := fork_ret w; wait_ev := wait_ev w |}.

Definition set_fork_ret (l : list Z) (w : world) : world :=
  {| fds := fds w; pipes := pipes w; procs := procs w; pgrp := pgrp w;
     sigint := sigint w; trace := trace w; fs := fs w; path := path w;
     pipe_ok := pipe_ok w; fork_ret := l; wait_ev := wait_ev w |}.

Definition set_wait_ev (l : list wait_event) (w : world) : world :=
  {| fds := fds w; pipes := pipes w; procs := procs w; pgrp := pgrp w;
     sigint := sigint w; trace := trace w; fs := fs w; path := path w;
     pipe_ok := pipe_ok w; fork_ret := fork_ret w; wait_ev := l |}.

(** *** Descriptors *)

(** The file a descriptor number is bound to, if it is open. *)
Definition fd_lookup (w : world) (fd : Z) : option file :=
  if decide (0 <= fd) then mjoin (fds w !! Z.to_nat fd) else None.

Definition fd_valid (w : world) (fd : Z) : bool :=
  bool_decide (0 <= fd < Z.of_nat (length (fds w))).

(** [dup2(oldfd, newfd)]: fails (EBADF) and changes nothing when [oldfd] is
    not open or [newfd] is no descriptor number; does nothing when both are
    the same; otherwise rebinds [newfd], silently closing what it was. *)
Definition dup2 (oldfd newfd : Z) (w : world) : world :=
  match fd_lookup w oldfd with
  | None => w
  | Some f =>
      if fd_valid w newfd
      then set_fds (<[Z.to_nat newfd := Some f]> (fds w)) w
      else w
  end.

(** [close(fd)]: fails (EBADF) when [fd] is not open. *)
Definition close (fd : Z) (w : world) : world :=
  if fd_valid w fd then set_fds (<[Z.to_nat fd := None]> (fds w)) w else w.

(** The lowest descriptor number that is not open. *)
Definition lowest_free (t : list (option file)) : option nat :=
  fst <$> list_find (λ c, c = None) t.

(** [pipe(p)]: on success the two lowest free descriptors become the read
    and the write end of a new pipe and are stored in [p]; on failure [p]
    keeps its content. *)
Definition pipe (p : Z * Z) (w : world) : (Z * Z) * world :=
  let ok := default true (head (pipe_ok w)) in
  let w := set_pipe_ok (tail (pipe_ok w)) w in
  match lowest_free (fds w) with
  | Some r =>
      let t := <[r := Some (PipeRead (pipes w))]> (fds w) in
      match lowest_free t with
      | Some wr =>
          if ok
          then let t := <[wr := Some (PipeWrite (pipes w))]> t in
               let p := (Z.of_nat r, Z.of_nat wr) in
               (p, emit (EPipe (Some p)) (set_pipes (S (pipes w)) (set_fds t w)))
          else (p, emit (EPipe None) w)
      | None => (p, emit (EPipe None) w)
      end
  | None => (p, emit (EPipe None) w)
  end.

(** *** Children *)

(** [fork()], seen from the parent: the environment hands out the process
    id of the new child; without one, or with one that is not positive, the
    call fails and returns -1. *)
Definition fork (w : world) : Z * world :=
  let r := default (-1) (head (fork_ret w)) in
  let w := set_fork_ret (tail (fork_ret w)) w in
  if decide (0 < r)
  then (r, emit (EFork r) (set_procs (procs w ++ [(r, Running)]) w))
  else (-1, emit (EFork (-1)) w).

(** The children a [waitpid(pid, ...)] waits for: child [pid] when it is
    positive, any child for -1, and by process group otherwise; the
    children of the shell never leave its group. *)
Definition awaited (w : world) (pid : Z) (c : Z * pstatus) : bool :=
  if decide (0 < pid) then bool_decide (c.1 = pid)
  else if decide (pid = -1 ∨ pid = 0) then true
  else bool_decide (- pid = pgrp w).

Definition has_exited (c : Z * pstatus) : bool :=
  match c.2 with Exited => true | Running => false end.

(** Remove the first entry of child [pid] from the table. *)
Fixpoint reap (pid : Z) (ps : list (Z * pstatus)) : list (Z * pstatus) :=
  match ps with
  | [] => []
  | c :: r => if decide (c.1 = pid) then r else c :: reap pid r
  end.

(** The environment lets a running child exit. *)
Definition child_exits (pid : Z) (w : world) : world :=
  set_procs
    ((λ c : Z * pstatus, if decide (c.1 = pid) then (c.1, Exited) else c)
       <$> procs w) w.

(** Result of [waitpid(pid, NULL, WNOHANG)]: -1 (ECHILD) without an awaited
    child, the id of an awaited child that has exited, which is reaped, and
    0 when all of them still run. *)
Definition waitpid_nohang (pid : Z) (w : world) : Z * world :=
  let cs := filter (λ c, awaited w pid c = true) (procs w) in
  match cs with
  | [] => (-1, w)
  | _ =>
      match filter (λ c, has_exited c = true) cs with
      | c :: _ => (c.1, set_procs (reap c.1 (procs w)) w)
      | [] => (0, w)
      end
  end.

(** Result of a blocking [waitpid(pid, NULL, 0)]: as above when an awaited
    child has exited already; otherwise the call sleeps until the
    environment lets an awaited child exit, which is then reaped, or
    interrupts the call, which then returns -1 (EINTR). *)
Definition waitpid_block (pid : Z) (w : world) : Z * world :=
  let cs := filter (λ c, awaited w pid c = true) (procs w) in
  match cs with
  | [] => (-1, w)
  | first :: _ =>
      match filter (λ c, has_exited c = true) cs with
      | c :: _ => (c.1, set_procs (reap c.1 (procs w)) w)
      | [] =>
          let ev := head (wait_ev w) in
          let w := set_wait_ev (tail (wait_ev w)) w in
          match ev with
          | Some Interrupted => (-1, w)
          | Some (ChildExits e) =>
              if bool_decide (e ∈ cs.*1)
              then (e, set_procs (reap e (procs w)) w)
              else (first.1, set_procs (reap first.1 (procs w)) w)
          | None => (first.1, set_procs (reap first.1 (procs w)) w)
          end
      end
  end.

(** [waitpid(pid, NULL, options)] with its entry in the trace. *)
Definition waitpid (pid options : Z) (w : world) : Z * world :=
  let (r, w) := if decide (options = WNOHANG) then waitpid_nohang pid w
                else waitpid_block pid w in
  (r, emit (EWaitpid pid options r) w).

(** [wait(NULL)]: blocks for any child. *)
Definition wait (w : world) : Z * world :=
  let (r, w) := waitpid_block (-1) w in
  (r, emit (EWait r) w).

(** [signal(SIGINT, h)]. *)
Definition signal (h : handler) (w : world) : world := set_sigint h w.

(** *** Files *)

Definition EMFILE : Z := 24.

(** [fopen(filename, MODE)]: the errno of the failure, or the descriptor of
    the new stream, which is the lowest free one. *)
Definition fopen (filename : string) (m : fmode) (w : world) : (Z + Z) * world :=
  match fs w filename m with
  | Some errno => (inr errno, w)
  | None =>
      match lowest_free (fds w) with
      | Some n => (inl (Z.of_nat n),
                   set_fds (<[n := Some (Opened filename m)]> (fds w)) w)
      | None => (inr EMFILE, w)
      end
  end.

(** How a piece of code that may misuse a NULL pointer ends. *)
Inductive outcome :=
| Normal (w : world)
| Undefined (w : world).   (* a NULL stream was handed to the C library *)

(** How a forked child ends its part of the shell's code. *)
Inductive ending :=
| Executes (argv : list string) (w : world)   (* execvp replaced the image *)
| Terminates (status : Z) (w : world)         (* exit(status) *)
| Crashes (w : world).                        (* undefined behaviour *)

(** The world of a child right after [fork]: a copy of the descriptor
    table, no children and nothing printed yet. *)
Definition forked (w : world) : world :=
  {| fds := fds w; pipes := pipes w; procs := []; pgrp := pgrp w;
     sigint := sigint w; trace := []; fs := fs w; path := path w;
     pipe_ok := pipe_ok w; fork_ret := fork_ret w; wait_ev := wait_ev w |}.

(** ** The functions of minishell.c *)

(** [store]: the three arguments are the values found in the caller's
    variables, which the function reads and never writes. *)
Definition store (stdinfd stdoutfd stderrfd : Z) (w : world) : world :=
  let w := dup2 STDERR_FILENO stderrfd w in
  let w := dup2 STDIN_FILENO stdinfd w in
  dup2 STDOUT_FILENO stdoutfd w.

Definition restore (stdinfd stdoutfd stderrfd : Z) (w : world) : world :=
  let w := dup2 stderrfd STDERR_FILENO w in
  let w := dup2 stdinfd STDIN_FILENO w in
  dup2 stdoutfd STDOUT_FILENO w.

(** [auxiliarRedirect]: after the diagnostic of a failed [fopen] the
    function goes on to [fileno(file)] with [file == NULL]. *)
Definition auxiliarRedirect (filename : string) (MODE : fmode)
    (STD_FILENO : Z) (w : world) : outcome :=
  match fopen filename MODE w with
  | (inr errno, w) =>
      let w := emit (ErrOpen filename errno) w in
      Undefined w                      (* fd = fileno(NULL) *)
  | (inl fd, w) =>
      let w := dup2 fd STD_FILENO w in
      let w := close fd w in           (* fclose(file) *)
      Normal (close fd w)              (* close(fd) *)
  end.

Definition redirect (line : tline) (w : world) : outcome :=
  let o :=
    match redirect_error line with
    | Some f => auxiliarRedirect f FILE_WRITE STDERR_FILENO w
    | None => Normal w
    end in
  let o :=
    match o with
    | Undefined w => Undefined w
    | Normal w =>
        match redirect_input line with
        | Some f => auxiliarRedirect f FILE_READ STDIN_FILENO w
        | None => Normal w
        end
    end in
  match o with
  | Undefined w => Undefined w
  | Normal w =>
      match redirect_output line with
      | Some f => auxiliarRedirect f FILE_WRITE STDOUT_FILENO w
      | None => Normal w
      end
  end.

Definition run (line : tline) (number : Z) (w : world) : ending :=
  let arguments := aget [] (commands line) number in
  let command := aget EmptyString arguments 0 in
  if path w command
  then Executes arguments w
  else Terminates EXIT_FAILURE (emit (ErrNotFound command) w).

(** The variables of [executeExternalCommands] that are read before the
    function assigns them: their content at entry is whatever the stack
    holds.  [currentJob] is the index of the cell the pointer refers to. *)
Record frame := {
  stdinfd : Z;
  stdoutfd : Z;
  stderrfd : Z;
  p : Z * Z;
  p2 : Z * Z;
  currentJob : Z
}.

(** The branch [pid == FORK_CHILD] of the first fork, on the child's copy
    of the world. *)
Definition first_child (line : tline) (p : Z * Z) (w : world) : ending :=
  let next := bool_decide (ncommands line > 1) in
  match redirect line w with
  | Undefined w => Crashes w
  | Normal w =>
      let w :=
        if next
        then let w := close (fst p) w in
             let w := dup2 (snd p) STDOUT_FILENO w in
             close (snd p) w
        else w in
      run line 0 w
  end.

(** The branch [pid == FORK_CHILD] inside the loop. *)
Definition later_child (line : tline) (command : Z) (p p2 : Z * Z)
    (w : world) : ending :=
  let even := bool_decide (Z.rem command 2 = 0) in
  let last := bool_decide (command = ncommands line - 1) in
  match redirect line w with
  | Undefined w => Crashes w
  | Normal w =>
      let w :=
        if even
        then let w := dup2 (fst p2) STDIN_FILENO w in
             if last then w else dup2 (snd p) STDOUT_FILENO w
        else let w := dup2 (fst p) STDIN_FILENO w in
             if last then w else dup2 (snd p2) STDOUT_FILENO w in
      let w := close (fst p) w in
      let w := close (snd p) w in
      let w := close (fst p2) w in
      let w := close (snd p2) w in
      run line command w
  end.

(** Lines 420-427: the new job goes into cell [jobs->size] and the counter
    advances modulo the capacity. *)
Definition register_job (buffer : string) (commands pid : Z)
    (jobs : tjobs) : tjobs :=
  let currentJob := jobs_size jobs in
  let old := aget blank_job (jobs_list jobs) currentJob in
  let job := {| job_instruction := buffer; job_size := commands;
                job_pids := aset (job_pids old) 0 pid; job_finished := 0 |} in
  {| jobs_list := aset (jobs_list jobs) currentJob job;
     jobs_size := Z.rem (jobs_size jobs + 1) MAXIMUM_JOB_LIST_SIZE;
     jobs_overrun := jobs_overrun jobs |}.

(** [currentJob->pids[command] = pid].  Nothing keeps [command] below
    MAXIMUM_PID_LIST_SIZE.  Inside the array the cell of the process id is
    written.  Outside, the write goes to what follows [pids] in memory:
    for index 25 that is the field [finished] of the same cell ([pids] and
    [finished] are neighbours of the same size), which takes the process
    id; for a larger index it is the following cell or memory behind the
    block, which the model does not hold.  Every write outside the array
    is kept in [jobs_overrun]. *)
Definition record_pid (currentJob command pid : Z) (jobs : tjobs) : tjobs :=
  let old := aget blank_job (jobs_list jobs) currentJob in
  if decide (0 <= command < MAXIMUM_PID_LIST_SIZE)
  then
    let job := {| job_instruction := job_instruction old;
                  job_size := job_size old;
                  job_pids := aset (job_pids old) command pid;
                  job_finished := job_finished old |} in
    {| jobs_list := aset (jobs_list jobs) currentJob job;
       jobs_size := jobs_size jobs;
       jobs_overrun := jobs_overrun jobs |}
  else
    let job := {| job_instruction := job_instruction old;
                  job_size := job_size old;
                  job_pids := job_pids old;
                  job_finished :=
                    if decide (command = MAXIMUM_PID_LIST_SIZE) then pid
                    else job_finished old |} in
    {| jobs_list := aset (jobs_list jobs) currentJob job;
       jobs_size := jobs_size jobs;
       jobs_overrun := jobs_overrun jobs ++ [(currentJob, command, pid)] |}.

(** The state the loop of [executeExternalCommands] carries. *)
Record loop_state := {
  ls_p : Z * Z;
  ls_p2 : Z * Z;
  ls_jobs : tjobs;
  ls_world : world
}.

(** One turn of the loop in the parent, for command number [command]. *)
Definition loop_body (commands : Z) (background : bool) (currentJob : Z)
    (command : Z) (st : loop_state) : loop_state :=
  let even := bool_decide (Z.rem command 2 = 0) in
  let last := bool_decide (command = commands - 1) in
  let p := ls_p st in
  let p2 := ls_p2 st in
  let w := ls_world st in
  let '(p, p2, w) :=
    if even
    then let (p, w) := pipe p w in (p, p2, w)
    else let (p2, w) := pipe p2 w in (p, p2, w) in
  let (pid, w) := fork w in
  let w :=
    if even
    then let w := dup2 STDIN_FILENO (snd p) w in
         let w := close (snd p) w in
         let w := close (fst p2) w in
         if last then close (snd p2) (close (fst p) w) else w
    else let w := dup2 STDIN_FILENO (snd p2) w in
         let w := close (snd p2) w in
         let w := close (fst p) w in
         if last then close (snd p) (close (fst p2) w) else w in
  if background
  then
    let jobs := record_pid currentJob command pid (ls_jobs st) in
    let w := if last then emit (OutJob (jobs_size jobs) pid) w else w in
    {| ls_p := p; ls_p2 := p2; ls_jobs := jobs; ls_world := w |}
  else
    let (_, w) := wait w in
    {| ls_p := p; ls_p2 := p2; ls_jobs := ls_jobs st; ls_world := w |}.

(** [for (command = 1; next && command < commands; command++)], with the
    number of turns left as the structural argument. *)
Fixpoint loop (turns : nat) (commands : Z) (background : bool)
    (currentJob : Z) (command : Z) (st : loop_state) : loop_state :=
  match turns with
  | O => st
  | S turns' =>
      loop turns' commands background currentJob (command + 1)
        (loop_body commands background currentJob command st)
  end.

(** [executeExternalCommands], as the parent runs it; [u] is the content
    of the unassigned variables at entry. *)
Definition executeExternalCommands (line : tline) (jobs : tjobs)
    (buffer : string) (u : frame) (w : world) : tjobs * world :=
  let w := signal ctrlc2 w in
  let w := store (stdinfd u) (stdoutfd u) (stderrfd u) w in
  let commands := ncommands line in
  let next := bool_decide (commands > 1) in
  let background := bool_decide (background line = 1) in
  let (p, w) := if next then pipe (p u) w else (p u, w) in
  let (pid, w) := fork w in
  let w := close (snd p) w in
  let w := restore (stdinfd u) (stdoutfd u) (stderrfd u) w in
  let '(currentJob, jobs, w) :=
    if background
    then
      let currentJob := jobs_size jobs in
      let jobs := register_job buffer commands pid jobs in
      let w := if next then w else emit (OutJob (jobs_size jobs) pid) w in
      (currentJob, jobs, w)
    else
      let (_, w) := wait w in
      (currentJob u, jobs, w) in
  let st :=
    loop (if next then Z.to_nat (commands - 1) else O) commands background
      currentJob 1
      {| ls_p := p; ls_p2 := p2 u; ls_jobs := jobs; ls_world := w |} in
  let w := restore (stdinfd u) (stdoutfd u) (stderrfd u) (ls_world st) in
  (ls_jobs st, signal ctrlc w).

(** [finished]: the loop over [job->pids]; [true] when it ran to its end. *)
Fixpoint finished_loop (turns : nat) (index : Z) (pids : list Z)
    (w : world) : bool * world :=
  match turns with
  | O => (true, w)
  | S turns' =>
      let pid := aget 0 pids index in
      let (r, w) := waitpid pid WNOHANG w in
      if bool_decide (r = pid)
      then finished_loop turns' (index + 1) pids w
      else (false, w)
  end.

Definition latch (job : tjob) : tjob :=
  {| job_instruction := job_instruction job; job_size := job_size job;
     job_pids := job_pids job; job_finished := 1 |}.

Definition finished (job : tjob) (w : world) : Z * tjob * world :=
  if decide (job_finished job = 1)
  then (1, job, w)
  else
    let (all, w) := finished_loop (Z.to_nat (job_size job)) 0 (job_pids job) w in
    if all then (1, latch job, w) else (0, job, w).

(** [delete]: the cells from [job] on take the content of their right
    neighbour, and the counter goes down modulo the capacity. *)
Fixpoint delete_loop (turns : nat) (index : Z) (l : list tjob) : list tjob :=
  match turns with
  | O => l
  | S turns' =>
      delete_loop turns' (index + 1)
        (aset l index (aget blank_job l (index + 1)))
  end.

Definition delete (job : Z) (jobs : tjobs) : tjobs :=
  let jobsSize := jobs_size jobs in
  {| jobs_list := delete_loop (Z.to_nat (jobsSize - job)) job (jobs_list jobs);
     jobs_size := Z.rem (jobs_size jobs - 1) MAXIMUM_JOB_LIST_SIZE;
     jobs_overrun := jobs_overrun jobs |}.

(** [jobs->list[j] = job]: what a write through [&jobs->list[j]] does. *)
Definition set_job (j : Z) (job : tjob) (jobs : tjobs) : tjobs :=
  {| jobs_list := aset (jobs_list jobs) j job; jobs_size := jobs_size jobs;
     jobs_overrun := jobs_overrun jobs |}.

(** The state of the first loop of [mshjobs]. *)
Record jobs_state := {
  js_jobs : tjobs;
  js_finishedJobs : list Z;      (* int finishedJobs[MAXIMUM_JOB_LIST_SIZE] *)
  js_finishedJobsSize : Z;
  js_world : world
}.

Definition mshjobs_body (j : Z) (st : jobs_state) : jobs_state :=
  let job := aget blank_job (jobs_list (js_jobs st)) j in
  let formattedJ := j + 1 in
  let '(r, job, w) := finished job (js_world st) in
  let jobs := set_job j job (js_jobs st) in
  if decide (r = 0)
  then
    {| js_jobs := jobs; js_finishedJobs := js_finishedJobs st;
       js_finishedJobsSize := js_finishedJobsSize st;
       js_world := emit (OutRunning formattedJ (job_instruction job)) w |}
  else
    {| js_jobs := jobs;
       js_finishedJobs := aset (js_finishedJobs st) (js_finishedJobsSize st) j;
       js_finishedJobsSize :=
         Z.rem (js_finishedJobsSize st + 1) MAXIMUM_JOB_LIST_SIZE;
       js_world := emit (OutDone formattedJ (job_instruction job)) w |}.

Fixpoint mshjobs_loop (turns : nat) (j : Z) (st : jobs_state) : jobs_state :=
  match turns with
  | O => st
  | S turns' => mshjobs_loop turns' (j + 1) (mshjobs_body j st)
  end.

(** The second loop of [mshjobs]: [delete(finishedJobs[j], jobs)]. *)
Fixpoint mshjobs_delete (turns : nat) (j : Z) (finishedJobs : list Z)
    (jobs : tjobs) : tjobs :=
  match turns with
  | O => jobs
  | S turns' =>
      mshjobs_delete turns' (j + 1) finishedJobs
        (delete (aget 0 finishedJobs j) jobs)
  end.

(** [mshjobs]; the cells of [finishedJobs] are read only after they were
    written, so their content at entry does not matter. *)
Definition mshjobs (jobs : tjobs) (w : world) : tjobs * world :=
  let jobsSize := jobs_size jobs in
  let st :=
    mshjobs_loop (Z.to_nat jobsSize) 0
      {| js_jobs := jobs;
         js_finishedJobs := replicate (Z.to_nat MAXIMUM_JOB_LIST_SIZE) 0;
         js_finishedJobsSize := 0;
         js_world := w |} in
  (mshjobs_delete (Z.to_nat (js_finishedJobsSize st)) 0 (js_finishedJobs st)
     (js_jobs st),
   js_world st).

(** *** [atoi]

    [atoi(s)] is [(int) strtol(s, NULL, 10)]: white space is skipped, a
    sign is read, then the decimal digits; the value saturates at the
    bounds of [long] and is cut to the 32 bits of an [int]. *)

Definition isspace (c : Ascii.ascii) : bool :=
  let n := Z.of_nat (Ascii.nat_of_ascii c) in
  bool_decide (n = 32 ∨ 9 <= n <= 13).

Definition digit_of (c : Ascii.ascii) : option Z :=
  let n := Z.of_nat (Ascii.nat_of_ascii c) in
  if decide (48 <= n <= 57) then Some (n - 48) else None.

Fixpoint skip_spaces (s : string) : string :=
  match s with
  | String c r => if isspace c then skip_spaces r else s
  | EmptyString => s
  end.

Fixpoint digits (s : string) (acc : Z) : Z :=
  match s with
  | String c r =>
      match digit_of c with
      | Some d => digits r (acc * 10 + d)
      | None => acc
      end
  | EmptyString => acc
  end.

Definition LONG_MAX : Z := 2 ^ 63 - 1.
Definition LONG_MIN : Z := - 2 ^ 63.
Definition INT_MAX : Z := 2 ^ 31 - 1.
Definition INT_MIN : Z := - 2 ^ 31.

Definition strtol (s : string) : Z :=
  let v :=
    match skip_spaces s with
    | String c r =>
        if decide (c = "-"%char) then - digits r 0
        else if decide (c = "+"%char) then digits r 0
        else digits (String c r) 0
    | EmptyString => 0
    end in
  Z.max LONG_MIN (Z.min LONG_MAX v).

(** The value of an integer expression stored in an [int]. *)
Definition wrap32 (z : Z) : Z := (z + 2 ^ 31) mod 2 ^ 32 - 2 ^ 31.

Definition atoi (s : string) : Z := wrap32 (strtol s).

(** The loop of [mshfg]: [waitpid(ranJob->pids[index], NULL, WAIT)]. *)
Fixpoint mshfg_wait (turns : nat) (index : Z) (pids : list Z)
    (w : world) : world :=
  match turns with
  | O => w
  | S turns' =>
      let (_, w) := waitpid (aget 0 pids index) WAIT w in
      mshfg_wait turns' (index + 1) pids w
  end.

(** [mshfg]; [None] is the NULL argument, for which the function calls
    itself with "1". *)
Definition mshfg (job : option string) (jobs : tjobs) (w : world)
    : tjobs * world :=
  let job := default "1"%string job in
  if decide (jobs_size jobs = 0)
  then (jobs, emit OutNoJobs w)
  else
    let mappedJob := wrap32 (atoi job - 1) in
    if decide (mappedJob < 0 ∨ mappedJob > jobs_size jobs - 1)
    then (jobs, emit ErrNoSuchJob w)
    else
      let w := signal SIG_IGN w in
      let ranJob := aget blank_job (jobs_list jobs) mappedJob in
      let '(r, ranJob, w) := finished ranJob w in
      let jobs := set_job mappedJob ranJob jobs in
      let w :=
        if decide (r = 0)
        then
          let w := emit (OutInstruction (job_instruction ranJob)) w in
          mshfg_wait (Z.to_nat (job_size ranJob)) 0 (job_pids ranJob) w
        else
          let w := emit OutTerminated w in
          emit (OutFgDone job (job_instruction ranJob)) w in
      let jobs := delete mappedJob jobs in
      (jobs, signal ctrlc w).

(** ** Notions the statements use *)

(** The jobs the shell shows: the first [jobs->size] cells. *)
Definition visible (jobs : tjobs) : list tjob :=
  take (Z.to_nat (jobs_size jobs)) (jobs_list jobs).

(** The bindings of the three standard streams. *)
Definition std_streams (w : world) : list (option file) :=
  [fd_lookup w STDIN_FILENO; fd_lookup w STDOUT_FILENO; fd_lookup w STDERR_FILENO].

Definition is_pipe_call (e : event) : bool :=
  match e with EPipe _ => true | _ => false end.

Definition is_pipe_made (e : event) : bool :=
  match e with EPipe (Some _) => true | _ => false end.

(** The [pipe()] calls of a trace, and those that made a pipe. *)
Definition pipe_calls (t : list event) : nat :=
  length (filter (λ e, is_pipe_call e = true) t).

Definition pipes_made (t : list event) : nat :=
  length (filter (λ e, is_pipe_made e = true) t).

Definition pipes_failed (t : list event) : nat :=
  length (filter (λ e, is_pipe_call e = true ∧ is_pipe_made e = false) t).

(** The slot an argument of [fg] names, counted from 0: [mappedJob]. *)
Definition mapped (job : option string) : Z :=
  wrap32 (atoi (default "1"%string job) - 1).

(** The events that report a system call. *)
Definition is_syscall (e : event) : bool :=
  match e with
  | EPipe _ | EFork _ | EWait _ | EWaitpid _ _ _ => true
  | _ => false
  end.

(** [w'] is a later state of [w]: its trace continues the one of [w], by
    events that all satisfy [P]. *)
Definition grows (P : event → Prop) (w w' : world) : Prop :=
  ∃ t, trace w' = trace w ++ t ∧ Forall P t.

Definition extends (w w' : world) : Prop := grows (λ _, True) w w'.

(** The slot of a job announcement is [s]. *)
Definition announces (s : Z) (e : event) : Prop :=
  match e with OutJob s' _ => s' = s | _ => True end.

(** Cell [i] of the registry holds an unfinished job with the given text
    and number of commands. *)
Definition stored (jobs : tjobs) (i : Z) (instr : string) (n : Z) : Prop :=
  0 <= i ∧
  ∃ j, jobs_list jobs !! Z.to_nat i = Some j ∧ job_instruction j = instr ∧
       job_size j = n ∧ job_finished j = 0.

(** Two registries have the same cells, but for cell [i]. *)
Definition same_elsewhere (i : Z) (jobs jobs' : tjobs) : Prop :=
  length (jobs_list jobs') = length (jobs_list jobs) ∧
  ∀ k : nat, Z.of_nat k ≠ i → jobs_list jobs' !! k = jobs_list jobs !! k.

(** Between [w] and [w'] the shell has announced a job in slot [s]. *)
Definition announced (s : Z) (w w' : world) : Prop :=
  ∃ t pid, trace w' = trace w ++ t ∧ OutJob s pid ∈ t.

(** The registry as [main] allocates it, with a counter inside the array. *)
Definition registry_ok (jobs : tjobs) : Prop :=
  length (jobs_list jobs) = Z.to_nat MAXIMUM_JOB_LIST_SIZE ∧
  0 <= jobs_size jobs < MAXIMUM_JOB_LIST_SIZE.

(** [n] calls of [finished] in a row on the same job: their results. *)
Fixpoint polls (n : nat) (job : tjob) (w : world) : list Z * tjob * world :=
  match n with
  | O => ([], job, w)
  | S n' =>
      let '(r, job, w) := finished job w in
      let '(rs, job, w) := polls n' job w in
      (r :: rs, job, w)
  end.

(** The lines of a trace, without the system calls. *)
Definition printed (t : list event) : list event :=
  filter (λ e, is_syscall e = false) t.


(** ** The [umask] built-in *)

Definition DEFAULT_UNIX_MASK : Z := 18.
Definition DEFAULT_UNIX_FORMATTED_MASK : Z := 22.

(** The value of a [char] of the command line, as a signed byte. *)
Definition char_value (c : Ascii.ascii) : Z :=
  let n := Z.of_nat (Ascii.nat_of_ascii c) in
  if decide (n < 128) then n else n - 256.

(** The loop of [octal] over the characters of [number]. *)
Fixpoint octal_loop (number : string) : Z :=
  match number with
  | EmptyString => 1
  | String c r =>
      let mappedDigit := char_value c - 48 in
      if decide (mappedDigit < 0 ∨ mappedDigit > 7) then 0 else octal_loop r
  end.

(** [octal]; [None] is the NULL pointer. *)
Definition octal (number : option string) : Z :=
  match number with
  | None => 0
  | Some s =>
      let length := Z.of_nat (String.length s) in
      if decide (length > 4) then 0 else octal_loop s
  end.

(** The first loop of [printMask], [while (auxiliarMask > 0)]: the value of
    [zeros] when the loop ends, if it ends within the given number of
    turns. *)
Fixpoint printMask_zeros (turns : nat) (auxiliarMask zeros : Z) : option Z :=
  if decide (auxiliarMask > 0)
  then match turns with
       | O => None
       | S turns' => printMask_zeros turns' (Z.quot auxiliarMask 10) (zeros - 1)
       end
  else Some zeros.

(** The line feed. *)
Definition newline : string := String "010"%char EmptyString.

(** The second loop of [printMask]: [zeros] times the character 0, none
    when [zeros] is not positive. *)
Fixpoint zeros_text (turns : nat) : string :=
  match turns with
  | O => EmptyString
  | S turns' => String "0"%char (zeros_text turns')
  end.

Definition leading_zeros (zeros : Z) : string := zeros_text (Z.to_nat zeros).

(** [printMask]: the text written to the standard output; [pretty] is the
    decimal notation [printf] gives for [%i].  A turn of the first loop
    takes at least one bit off [auxiliarMask]. *)
Definition printMask (mask : Z) : option string :=
  match printMask_zeros (S (Z.to_nat (Z.log2 mask))) mask 4 with
  | None => None
  | Some zeros => Some (leading_zeros zeros +:+ pretty mask +:+ newline)
  end.

(** [sscanf(mask, "%o", &mappedMask)] on a string of octal digits, the only
    strings [mshumask] hands to it: the value of the digits, and no
    conversion, which leaves [mappedMask] as it is, for the empty string. *)
Fixpoint octal_digits (s : string) (acc : Z) : Z :=
  match s with
  | String c r =>
      let d := char_value c - 48 in
      if decide (0 <= d <= 7) then octal_digits r (acc * 8 + d) else acc
  | EmptyString => acc
  end.

Definition sscanf_o (s : string) (mappedMask : Z) : Z :=
  match s with
  | String c r =>
      if decide (0 <= char_value c - 48 <= 7) then octal_digits s 0 else mappedMask
  | EmptyString => mappedMask
  end.

(** What the built-in works on: the file mode creation mask of the process
    and the variable [formattedMask] of [main]. *)
Record masks := {
  process_umask : Z;
  formattedMask : Z
}.

(** [umask(mask)]: only the permission bits of the argument are used. *)
Definition umask (mask : Z) (m : masks) : masks :=
  {| process_umask := Z.land mask 511; formattedMask := formattedMask m |}.

(** The lines of the built-in. *)
Inductive mask_line :=
| MaskOut (text : string)          (* standard output *)
| ErrInvalidArgument (mask : string). (* stderr: "%s: Error. Invalid argument\n" *)

#[global] Instance masks_eq_dec : EqDecision masks.
Proof. solve_decision. Defined.

#[global] Instance mask_line_eq_dec : EqDecision mask_line.
Proof. solve_decision. Defined.

(** The state [main] starts with. *)
Definition initial_masks : masks :=
  {| process_umask := Z.land DEFAULT_UNIX_MASK 511;
     formattedMask := DEFAULT_UNIX_FORMATTED_MASK |}.

(** [mshumask]; [mappedMask] is the content of the unassigned variable of
    that name at entry.  [None] as result: [printMask] did not end. *)
Definition mshumask (mask : option string) (mappedMask : Z) (m : masks)
    : option (masks * list mask_line) :=
  match mask with
  | None =>
      text ← printMask (formattedMask m);
      Some (m, [MaskOut text])
  | Some s =>
      if decide (octal mask = 0)
      then Some (m, [ErrInvalidArgument s])
      else
        let mappedMask := sscanf_o s mappedMask in
        let m := umask mappedMask m in
        let m := {| process_umask := process_umask m; formattedMask := atoi s |} in
        text ← printMask (formattedMask m);
        Some (m, [MaskOut text])
  end.

(** The characters 0 to 7. *)
Definition octal_char (c : Ascii.ascii) : Prop :=
  48 <= Z.of_nat (Ascii.nat_of_ascii c) <= 55.

Definition octal_chars : list Ascii.ascii :=
  ["0"; "1"; "2"; "3"; "4"; "5"; "6"; "7"]%char.

(** The strings of [n] octal digits. *)
Fixpoint octal_strings (n : nat) : list string :=
  match n with
  | O => [EmptyString]
  | S n' => c ← octal_chars; r ← octal_strings n'; [String c r]
  end.

(** The text [printMask] writes before the line feed for a mask that is
    not zero: the decimal notation, filled up with zeros to four places. *)
Definition padded (mask : Z) : string :=
  leading_zeros (4 - Z.of_nat (String.length (pretty mask))) +:+ pretty mask.

(** What is to be checked of [printMask] for one mask between 1 and 9999:
    the line is the padded notation, which has four characters and reads
    back as the mask. *)
Definition printMask_check (mask : Z) : bool :=
  bool_decide (printMask mask = Some (padded mask +:+ newline) ∧
               String.length (padded mask) = 4%nat ∧
               digits (padded mask) 0 = mask).

(** The text the built-in shows for a mask: five zeros for the mask 0. *)
Definition shown (mask : Z) : string :=
  if decide (mask = 0) then "00000"%string else padded mask.

(** What is to be checked of [mshumask] for one accepted argument. *)
Definition mshumask_check (s : string) : bool :=
  match mshumask (Some s) 0 initial_masks with
  | Some (m, [MaskOut out]) =>
      bool_decide
        (process_umask m = Z.land (octal_digits s 0) 511 ∧
         formattedMask m = atoi s ∧
         0 <= atoi s <= 7777 ∧
         out = shown (atoi s) +:+ newline ∧
         octal_digits (shown (atoi s)) 0 = octal_digits s 0 ∧
         mshumask None 0 m = Some (m, [MaskOut out]))
  | _ => false
  end.

(** The arguments [octal] accepts, but for the empty one. *)
Definition octal_arguments : list string :=
  octal_strings 1 ++ octal_strings 2 ++ octal_strings 3 ++ octal_strings 4.


(** ** The [exit] built-in *)

Definition KILL : Z := 9.
Definition EXIT_SUCCESS : Z := 0.

(** The inner loop of [mshexit]: the calls [kill(job->pids[pid], KILL)],
    as pairs of process id and signal. *)
Fixpoint mshexit_kills (turns : nat) (pid : Z) (pids : list Z)
    : list (Z * Z) :=
  match turns with
  | O => []
  | S turns' => (aget 0 pids pid, KILL) :: mshexit_kills turns' (pid + 1) pids
  end.

(** The outer loop of [mshexit], over the cells of the registry. *)
Fixpoint mshexit_loop (turns : nat) (j : Z) (l : list tjob) : list (Z * Z) :=
  match turns with
  | O => []
  | S turns' =>
      let job := aget blank_job l j in
      let jobSize := job_size job in
      mshexit_kills (Z.to_nat jobSize) 0 (job_pids job)
        ++ mshexit_loop turns' (j + 1) l
  end.

(** [mshexit]: the [kill] calls in their order and the exit status of the
    shell. *)
Definition mshexit (jobs : tjobs) : list (Z * Z) * Z :=
  let jobsSize := jobs_size jobs in
  (mshexit_loop (Z.to_nat jobsSize) 0 (jobs_list jobs), EXIT_SUCCESS).

(** Whom a call [kill(pid, sig)] signals, by the sign of [pid]. *)
Inductive target :=
| Process (pid : Z)    (* pid > 0: the process with that id *)
| OwnGroup             (* pid = 0: the process group of the caller *)
| Everyone             (* pid = -1: every process the caller may signal *)
| Group (pgid : Z).    (* pid < -1: the process group -pid *)

Definition kill_target (pid : Z) : target :=
  if decide (0 < pid) then Process pid
  else if decide (pid = 0) then OwnGroup
  else if decide (pid = -1) then Everyone
  else Group (- pid).

(** The processes a job has recorded: the first [size] cells of [pids]. *)
Definition recorded (job : tjob) : list Z :=
  take (Z.to_nat (job_size job)) (job_pids job).

(** A job whose [size] does not exceed its array of process ids. *)
Definition job_ok (job : tjob) : Prop :=
  0 <= job_size job <= Z.of_nat (length (job_pids job)).


(** A poll: [waitpid] with WNOHANG. *)
Definition is_poll (e : event) : Prop :=
  ∃ pid r, e = EWaitpid pid WNOHANG r.

(** An event that cannot make the shell sleep: a line, or a poll. *)
Definition nonblocking (e : event) : Prop :=
  is_syscall e = false ∨ is_poll e.

(** What a call leaves of the world apart from the children and the
    trace: descriptors, handler and environment. *)
Definition same_surroundings (w w' : world) : Prop :=
  fds w' = fds w ∧ pipes w' = pipes w ∧ pgrp w' = pgrp w ∧
  sigint w' = sigint w ∧ pipe_ok w' = pipe_ok w ∧
  fork_ret w' = fork_ret w ∧ wait_ev w' = wait_ev w.

(** The status line of the job in cell [i]. *)
Definition status_line (i : nat) (job : tjob) (e : event) : Prop :=
  e = OutDone (Z.of_nat i + 1) (job_instruction job) ∨
  e = OutRunning (Z.of_nat i + 1) (job_instruction job).

Definition is_done (e : event) : bool :=
  match e with OutDone _ _ => true | _ => false end.

(** The number of "Done" lines of a trace. *)
Definition done_lines (t : list event) : nat :=
  length (filter (λ e, is_done e = true) t).

(** A process that has not exited: it runs, or it is no child (any more). *)
Definition not_exited (w : world) (pid : Z) : Prop :=
  ∀ st, (pid, st) ∈ procs w → st = Running.


#[global] Instance pstatus_eq_dec : EqDecision pstatus.
Proof. solve_decision. Defined.

(** Decide a closed statement by evaluation. *)
Ltac evaluate :=
  match goal with
  | |- ?P => apply (bool_decide_unpack P); vm_compute; exact I
  end.


(** ** The argument of [fg] as a text

    The number a text denotes, as the claim on [fg] speaks of numbers:
    the decimal numeral at the start of the text, after white space and
    with an optional sign, as the integer it stands for and not cut to any
    machine size; a text that does not start with a numeral denotes no
    number. *)
Definition starts_with_digit (s : string) : bool :=
  match s with
  | String c _ => bool_decide (is_Some (digit_of c))
  | EmptyString => false
  end.

Definition denotes (s : string) : option Z :=
  match skip_spaces s with
  | String c r =>
      if decide (c = "-"%char)
      then if starts_with_digit r then Some (- digits r 0) else None
      else if decide (c = "+"%char)
      then if starts_with_digit r then Some (digits r 0) else None
      else if starts_with_digit (String c r)
      then Some (digits (String c r) 0) else None
  | EmptyString => None
  end.

(** No blocking wait of the future is interrupted. *)
Definition uninterrupted (w : world) : Prop := Interrupted ∉ wait_ev w.


(** The results of the [fork] calls of a trace, in their order. *)
Definition forks (t : list event) : list Z :=
  omap (λ e, match e with EFork r => Some r | _ => None end) t.

(** The children that forks with the given results have made. *)
Definition children (rs : list Z) : list (Z * pstatus) :=
  (λ r, (r, Running)) <$> filter (λ r, 0 < r) rs.

Definition is_fork_or_wait (e : event) : bool :=
  match e with EFork _ | EWait _ => true | _ => false end.

(** The [fork] and [wait] calls of a trace. *)
Definition fork_waits (t : list event) : list event :=
  filter (λ e, is_fork_or_wait e = true) t.

(** An event that is no wait of any kind. *)
Definition no_wait (e : event) : Prop :=
  match e with EWait _ | EWaitpid _ _ _ => False | _ => True end.

(** The arrays of process ids of the registry have their
    MAXIMUM_PID_LIST_SIZE cells. *)
Definition pids_ok (jobs : tjobs) : Prop :=
  Forall (λ job, length (job_pids job) = Z.to_nat MAXIMUM_PID_LIST_SIZE)
    (jobs_list jobs).


(** A registry as the shell keeps it: the counter inside the array of
    MAXIMUM_JOB_LIST_SIZE cells, every cell with its array of
    MAXIMUM_PID_LIST_SIZE process ids, and no write so far that left an
    array of process ids. *)
Definition well_formed (jobs : tjobs) : Prop :=
  registry_ok jobs ∧ pids_ok jobs ∧ jobs_overrun jobs = [].



(** One redirection of the command line on a descriptor table: the stream
    [fd] bound to the file, when a file is named. *)
Definition rebound (fd : nat) (filename : option string) (m : fmode)
    (t : list (option file)) : list (option file) :=
  match filename with
  | Some f => <[fd := Some (Opened f m)]> t
  | None => t
  end.

(** The files the command line names can be opened. *)
Definition openable (w : world) (filename : option string) (m : fmode) : Prop :=
  match filename with
  | Some f => fs w f m = None
  | None => True
  end.

(** What a stream is bound to after the redirections of the command
    line: the named file, or what it was bound to. *)
Definition redirected (filename : option string) (m : fmode) (old : file) : file :=
  match filename with
  | Some f => Opened f m
  | None => old
  end.

(** A descriptor table with the three standard streams open, whatever the
    three descriptors after them hold, and any further descriptors. *)
Definition table (a b c : file) (x y z : option file)
    (rest : list (option file)) : list (option file) :=
  Some a :: Some b :: Some c :: x :: y :: z :: rest.

(** The number is no descriptor of the process. *)
Definition junk (w : world) (fd : Z) : Prop :=
  ¬ (0 <= fd < Z.of_nat (length (fds w))).

(** The variables [executeExternalCommands] reads before it assigns them
    hold numbers that are no descriptors. *)
Definition harmless (u : frame) (w : world) : Prop :=
  junk w (stdinfd u) ∧ junk w (stdoutfd u) ∧ junk w (stderrfd u)
  ∧ junk w (snd (p u)).

(** No call of [pipe] fails. *)
Definition pipes_succeed (w : world) : Prop :=
  Forall (λ ok, ok = true) (pipe_ok w).

(** What the descriptor handling of a pipeline depends on besides the
    descriptor table. *)
Definition env (w : world) :=
  (pipes w, pipe_ok w, fork_ret w, fs w, path w).

(** The child forked in one turn of the loop, when the fork succeeds: it
    runs the branch [pid == FORK_CHILD] on its copy of the process as it is
    at the call of [fork]. *)
Definition turn_child (line : tline) (command : Z) (st : loop_state)
    : list ending :=
  let even := bool_decide (Z.rem command 2 = 0) in
  let '(p, p2, w) :=
    if even
    then let (p, w) := pipe (ls_p st) (ls_world st) in (p, ls_p2 st, w)
    else let (p2, w) := pipe (ls_p2 st) (ls_world st) in (ls_p st, p2, w) in
  if decide (0 < fst (fork w))
  then [later_child line command p p2 (forked w)]
  else [].

Fixpoint loop_children (turns : nat) (line : tline) (background : bool)
    (currentJob : Z) (command : Z) (st : loop_state) : list ending :=
  match turns with
  | O => []
  | S turns' =>
      turn_child line command st
        ++ loop_children turns' line background currentJob (command + 1)
             (loop_body (ncommands line) background currentJob command st)
  end.

(** How the children of one call of [executeExternalCommands] end, in the
    order of the forks. *)
Definition child_endings (line : tline) (jobs : tjobs) (buffer : string)
    (u : frame) (w : world) : list ending :=
  let w := signal ctrlc2 w in
  let w := store (stdinfd u) (stdoutfd u) (stderrfd u) w in
  let commands := ncommands line in
  let next := bool_decide (commands > 1) in
  let background := bool_decide (background line = 1) in
  let (p, w) := if next then pipe (p u) w else (p u, w) in
  let first :=
    if decide (0 < fst (fork w)) then [first_child line p (forked w)] else [] in
  let (pid, w) := fork w in
  let w := close (snd p) w in
  let w := restore (stdinfd u) (stdoutfd u) (stderrfd u) w in
  let '(currentJob, jobs, w) :=
    if background
    then
      let currentJob := jobs_size jobs in
      let jobs := register_job buffer commands pid jobs in
      let w := if next then w else emit (OutJob (jobs_size jobs) pid) w in
      (currentJob, jobs, w)
    else
      let (_, w) := wait w in
      (currentJob u, jobs, w) in
  first
    ++ loop_children (if next then Z.to_nat (commands - 1) else O) line
         background currentJob 1
         {| ls_p := p; ls_p2 := p2 u; ls_jobs := jobs; ls_world := w |}.

(** The world in which a child ends. *)
Definition ending_world (e : ending) : world :=
  match e with
  | Executes _ w => w
  | Terminates _ w => w
  | Crashes w => w
  end.

(** The descriptor table command number [i] of a pipeline should run
    with, the pipes of the pipeline being numbered from [base]: its input
    is the pipe before it, its output the pipe after it, and the ends of
    the pipeline and the error stream are where the command line puts
    them. *)
Definition wired (line : tline) (base : nat) (a b c : file)
    (rest : list (option file)) (i : nat) : list (option file) :=
  table
    (if decide (i = O) then redirected (redirect_input line) FILE_READ a
     else PipeRead (base + i - 1))
    (if decide (Z.of_nat i = ncommands line - 1)
     then redirected (redirect_output line) FILE_WRITE b
     else PipeWrite (base + i))
    (redirected (redirect_error line) FILE_WRITE c)
    None None None rest.

(** The first [n] calls of [fork] succeed. *)
Definition forks_succeed (n : nat) (w : world) : Prop :=
  ∀ i, (i < n)%nat → ∃ r, fork_ret w !! i = Some r ∧ 0 < r.

(** Child number [i] of a pipeline goes on to its program with the
    descriptor table it should have, and has printed nothing. *)
Definition runs_wired (line : tline) (base : nat) (a b c : file)
    (rest : list (option file)) (programs : string → bool)
    (i : nat) (e : ending) : Prop :=
  ∃ w, e = run line (Z.of_nat i) w
       ∧ fds w = wired line base a b c rest i
       ∧ path w = programs ∧ trace w = [].

(** The state of the parent at the top of the loop, before command number
    [command] of a pipeline whose pipes are numbered from [base]: the read
    end of the previous pipe is the only descriptor left open, on 3 before
    an odd command and on 4 before an even one. *)
Definition turn_state (a b c : file) (rest : list (option file))
    (base : nat) (command : Z) (st : loop_state) : Prop :=
  pipes (ls_world st) = (base + Z.to_nat command)%nat
  ∧ let r := PipeRead (base + Z.to_nat command - 1) in
    if bool_decide (Z.rem command 2 = 0)
    then ls_p2 st = (4, 5)
         ∧ fds (ls_world st) = table a b c None (Some r) None rest
    else (∃ pw, ls_p st = (3, pw) ∧ (pw = 4 ∨ pw = 5))
         ∧ fds (ls_world st) = table a b c (Some r) None None rest.

(** ** Sample inputs *)

(** A table of sixteen descriptors with the three standard streams bound
    to the given files. *)
Definition std_table (i o e : string) : list (option file) :=
  [Some (Inherited i); Some (Inherited o); Some (Inherited e)]
    ++ replicate 13 None.

(** A shell at its prompt, started with three different streams, with the
    given children; every file can be opened and every program started. *)
Definition sample_world (children : list (Z * pstatus)) (forks : list Z)
    (waits : list wait_event) : world :=
  {| fds := std_table "in" "out" "err"; pipes := 0; procs := children;
     pgrp := 100; sigint := ctrlc; trace := [];
     fs := λ _ _, None; path := λ _, true;
     pipe_ok := []; fork_ret := forks; wait_ev := waits |}.

(** The same shell where no file can be opened (EACCES). *)
Definition EACCES : Z := 13.

Definition locked_world : world :=
  {| fds := std_table "in" "out" "err"; pipes := 0; procs := [];
     pgrp := 100; sigint := ctrlc; trace := [];
     fs := λ _ _, Some EACCES; path := λ _, true;
     pipe_ok := []; fork_ret := []; wait_ev := [] |}.

(** A pipeline of [n] commands without redirections. *)
Definition sample_line (n : Z) (bg : Z) : tline :=
  {| ncommands := n; commands := replicate (Z.to_nat n) ["cmd"%string];
     redirect_input := None; redirect_output := None;
     redirect_error := None; background := bg |}.

(** A job with the given processes, and a registry holding the given
    jobs. *)
Definition sample_job (instr : string) (ps : list Z) : tjob :=
  {| job_instruction := instr; job_size := Z.of_nat (length ps);
     job_pids := ps ++ replicate (Z.to_nat MAXIMUM_PID_LIST_SIZE - length ps)%nat 0;
     job_finished := 0 |}.

Definition sample_jobs (l : list tjob) : tjobs :=
  {| jobs_list :=
       l ++ replicate (Z.to_nat MAXIMUM_JOB_LIST_SIZE - length l)%nat blank_job;
     jobs_size := Z.of_nat (length l); jobs_overrun := [] |}.

(** A stack frame filled with zeros, and one whose content is no
    descriptor number at all. *)
Definition zero_frame : frame :=
  {| stdinfd := 0; stdoutfd := 0; stderrfd := 0;
     p := (0, 0); p2 := (0, 0); currentJob := 0 |}.

Definition junk_frame : frame :=
  {| stdinfd := -1; stdoutfd := -1; stderrfd := -1;
     p := (-1, -1); p2 := (-1, -1); currentJob := 0 |}.

(** A registry with 49 jobs of one process each. *)
Definition crowded_jobs : tjobs :=
  sample_jobs
    ((λ i : nat, sample_job "sleep 100 &" [100 + Z.of_nat i]) <$> seq 0 49).

(** A stack frame whose three descriptor variables hold the same number. *)
Definition shared_frame : frame :=
  {| stdinfd := 7; stdoutfd := 7; stderrfd := 7;
     p := (-1, -1); p2 := (-1, -1); currentJob := 0 |}.

(** A command with its input and its output redirected. *)
Definition redirected_line : tline :=
  {| ncommands := 1; commands := [["sort"%string]];
     redirect_input := Some "names.txt"%string;
     redirect_output := Some "sorted.txt"%string;
     redirect_error := None; background := 0 |}.

(** A pipeline of three commands whose ends are redirected. *)
Definition redirected_pipeline : tline :=
  {| ncommands := 3;
     commands := [["cat"%string]; ["sort"%string]; ["uniq"%string]];
     redirect_input := Some "names.txt"%string;
     redirect_output := Some "sorted.txt"%string;
     redirect_error := None; background := 0 |}.

(** * Properties *)

(** ** What the system calls leave alone *)

Section Frames.
Implicit Types (w : world) (e : event).

Lemma trace_dup2 a b w : trace (dup2 a b w) = trace w.
Proof. unfold dup2. repeat case_match; reflexivity. Qed.

Lemma trace_close fd w : trace (close fd w) = trace w.
Proof. unfold close. case_match; reflexivity. Qed.

Lemma trace_store a b c w : trace (store a b c w) = trace w.
Proof. unfold store. by rewrite !trace_dup2. Qed.

Lemma trace_restore a b c w : trace (restore a b c w) = trace w.
Proof. unfold restore. by rewrite !trace_dup2. Qed.

Lemma trace_signal h w : trace (signal h w) = trace w.
Proof. reflexivity. Qed.

Lemma trace_pipe q w :
  ∃ made, trace (pipe q w).2 = trace w ++ [EPipe made].
Proof. unfold pipe. repeat case_match; simpl; eauto. Qed.

Lemma trace_fork w : trace (fork w).2 = trace w ++ [EFork (fork w).1].
Proof. unfold fork. case_match; reflexivity. Qed.

Lemma trace_waitpid_nohang pid w : trace (waitpid_nohang pid w).2 = trace w.
Proof. unfold waitpid_nohang. repeat case_match; reflexivity. Qed.

Lemma trace_waitpid_block pid w : trace (waitpid_block pid w).2 = trace w.
Proof. unfold waitpid_block. repeat case_match; reflexivity. Qed.

Lemma trace_wait w : trace (wait w).2 = trace w ++ [EWait (wait w).1].
Proof.
  unfold wait. pose proof (trace_waitpid_block (-1) w) as H.
  destruct (waitpid_block (-1) w) as [r w']. simpl in *. by rewrite H.
Qed.

Lemma trace_waitpid pid o w :
  trace (waitpid pid o w).2 = trace w ++ [EWaitpid pid o (waitpid pid o w).1].
Proof.
  unfold waitpid. destruct (decide (o = WNOHANG)).
  - pose proof (trace_waitpid_nohang pid w) as H.
    destruct (waitpid_nohang pid w) as [r w']. simpl in *. by rewrite H.
  - pose proof (trace_waitpid_block pid w) as H.
    destruct (waitpid_block pid w) as [r w']. simpl in *. by rewrite H.
Qed.
End Frames.

(** ** Arithmetic of [int] and [atoi] *)


Lemma wrap32_id z : INT_MIN <= z <= INT_MAX → wrap32 z = z.
Proof.
  unfold wrap32, INT_MIN, INT_MAX. intros H.
  rewrite Z.mod_small by lia. lia.
Qed.


Lemma digits_lower s acc : 0 <= acc → acc <= digits s acc.
Proof.
  revert acc. induction s as [|c r IH]; intros acc Hacc; simpl; [lia|].
  unfold digit_of. case_decide; [|lia].
  etrans; [|apply IH]; lia.
Qed.

(** A string that does not start with white space, a sign or a digit has
    the value 0. *)
Lemma atoi_non_numeric c r :
  isspace c = false → c ≠ "-"%char → c ≠ "+"%char → digit_of c = None →
  atoi (String c r) = 0.
Proof.
  intros Hsp Hm Hp Hd. unfold atoi, strtol. cbn [skip_spaces]. rewrite Hsp.
  rewrite !decide_False by done. simpl. by rewrite Hd.
Qed.

(** A minus sign followed by digits of a value an [int] can hold. *)
Lemma atoi_negative r :
  digits r 0 <= 2 ^ 31 → atoi (String "-" r) = - digits r 0.
Proof.
  intros H. pose proof (digits_lower r 0 ltac:(lia)).
  unfold atoi, strtol. simpl.
  unfold LONG_MIN, LONG_MAX. rewrite Z.min_r, Z.max_r by lia.
  apply wrap32_id. unfold INT_MIN, INT_MAX. lia.
Qed.

(** ** The interrupt handler after a blocking wait *)

Lemma sigint_executeExternalCommands line jobs buffer u w :
  sigint (executeExternalCommands line jobs buffer u w).2 = ctrlc.
Proof. unfold executeExternalCommands. repeat case_match; reflexivity. Qed.

Lemma sigint_mshfg_valid job jobs w :
  jobs_size jobs ≠ 0 → 0 <= mapped job <= jobs_size jobs - 1 →
  sigint (mshfg job jobs w).2 = ctrlc.
Proof.
  intros Hs Hm. unfold mapped in Hm. unfold mshfg.
  destruct (decide (jobs_size jobs = 0)); [done|].
  destruct (decide _) as [[?|?]|_]; [lia|lia|].
  repeat case_match; reflexivity.
Qed.

Lemma sigint_mshfg_invalid job jobs w :
  jobs_size jobs = 0 ∨ mapped job < 0 ∨ mapped job > jobs_size jobs - 1 →
  sigint (mshfg job jobs w).2 = sigint w.
Proof.
  intros H. unfold mapped in H. unfold mshfg.
  destruct (decide (jobs_size jobs = 0)); [done|].
  destruct (decide _) as [_|Hn]; [done|]. lia.
Qed.

(** C9: [executeExternalCommands] returns with the idle handler [ctrlc]
    installed for every pipeline, every state of the shell and every
    behaviour of the environment, interrupted waits included; so does every
    [mshfg] call that gets to its wait, that is, whose argument names a job
    of a non-empty registry; the [mshfg] calls that return before leave the
    handler as they found it. *)
Theorem C9_idle_handler_on_return :
  (∀ line jobs buffer u w,
     sigint (executeExternalCommands line jobs buffer u w).2 = ctrlc) ∧
  (∀ job jobs w,
     jobs_size jobs ≠ 0 → 0 <= mapped job <= jobs_size jobs - 1 →
     sigint (mshfg job jobs w).2 = ctrlc) ∧
  (∀ job jobs w,
     jobs_size jobs = 0 ∨ mapped job < 0 ∨ mapped job > jobs_size jobs - 1 →
     sigint (mshfg job jobs w).2 = sigint w).
Proof.
  split; [|split].
  - apply sigint_executeExternalCommands.
  - apply sigint_mshfg_valid.
  - apply sigint_mshfg_invalid.
Qed.

(** A foreground pipeline whose first wait is interrupted, and the
    promotion of the only job of the registry, interrupted as well. *)
Lemma C9_idle_handler_on_return_witness :
  sigint (executeExternalCommands (sample_line 2 0) empty_jobs "cmd | cmd"
            zero_frame (sample_world [] [20; 21] [Interrupted])).2 = ctrlc ∧
  sigint (mshfg (Some "1"%string) (sample_jobs [sample_job "cmd &" [20]])
            (sample_world [(20, Running)] [] [Interrupted])).2 = ctrlc ∧
  sigint (mshfg (Some "7"%string) (sample_jobs [sample_job "cmd &" [20]])
            (sample_world [(20, Running)] [] [])).2 = ctrlc.
Proof.
  destruct C9_idle_handler_on_return as (Hexec & Hfg & Hno).
  split; [apply Hexec|]. split.
  - apply Hfg; [vm_compute; discriminate|].
    vm_compute. split; discriminate.
  - rewrite Hno; [reflexivity|].
    right. right. vm_compute. reflexivity.
Defined.

(** ** [fg] with an argument that names no slot above zero *)



Lemma strtol_denotes s n :
  denotes s = Some n → strtol s = Z.max LONG_MIN (Z.min LONG_MAX n).
Proof.
  unfold denotes, strtol. destruct (skip_spaces s) as [|c r]; [done|].
  repeat case_decide;
    (destruct (starts_with_digit _); [|done]); by intros [= <-].
Qed.

(** A number an [int] holds is the value [atoi] gives its text. *)
Lemma atoi_denotes s n :
  denotes s = Some n → INT_MIN <= n <= INT_MAX → atoi s = n.
Proof.
  intros Hs Hn. unfold atoi. rewrite (strtol_denotes s n Hs).
  unfold INT_MIN, INT_MAX, LONG_MIN, LONG_MAX in *.
  rewrite Z.min_r, Z.max_r by lia. apply wrap32_id.
  unfold INT_MIN, INT_MAX. lia.
Qed.






(** ** A redirection whose file cannot be opened *)

(** C7, as the code has it: when [fopen] fails, [auxiliarRedirect] prints
    the diagnostic with the file name and the error, and then does not
    return: it goes on to [fileno(file)] with the NULL stream.  The
    descriptor table is as before, but the process does not continue. *)
Theorem C7_failed_open_is_not_survived (filename : string) (MODE : fmode)
    (STD_FILENO : Z) (w : world) (errno : Z) :
  fs w filename MODE = Some errno →
  auxiliarRedirect filename MODE STD_FILENO w
  = Undefined (emit (ErrOpen filename errno) w).
Proof. intros H. unfold auxiliarRedirect, fopen. by rewrite H. Qed.

Lemma C7_failed_open_is_not_survived_witness :
  auxiliarRedirect "/root/out" FILE_WRITE STDOUT_FILENO locked_world
  = Undefined (emit (ErrOpen "/root/out" EACCES) locked_world).
Proof. apply C7_failed_open_is_not_survived. reflexivity. Defined.

(** The child of a one-command pipeline with such a redirection never
    gets to [execvp]. *)
Lemma first_child_crashes :
  first_child
    {| ncommands := 1; commands := [["cmd"%string]]; redirect_input := None;
       redirect_output := Some "/root/out"%string; redirect_error := None;
       background := 0 |}
    (-1, -1) (forked locked_world)
  = Crashes (emit (ErrOpen "/root/out" EACCES) (forked locked_world)).
Proof. reflexivity. Qed.

(** ** The trace only grows *)

Section Grows.
Variable P : event → Prop.
Hypothesis P_syscall : ∀ e, is_syscall e = true → P e.
Implicit Types (w x : world).

Lemma grows_refl w : grows P w w.
Proof. exists []. by rewrite app_nil_r. Qed.

Lemma grows_trans w1 w2 w3 : grows P w1 w2 → grows P w2 w3 → grows P w1 w3.
Proof.
  intros (t1 & H1 & F1) (t2 & H2 & F2). exists (t1 ++ t2).
  split; [by rewrite H2, H1, app_assoc | by apply Forall_app].
Qed.

Lemma grows_same w w' : trace w' = trace w → grows P w w'.
Proof. intros H. exists []. by rewrite app_nil_r. Qed.

Lemma grows_one w w' e : trace w' = trace w ++ [e] → P e → grows P w w'.
Proof. intros H He. exists [e]. split; [done|]. by constructor. Qed.

Lemma grows_dup2 w a b x : grows P w x → grows P w (dup2 a b x).
Proof. intros H. eapply grows_trans; [exact H|]. apply grows_same, trace_dup2. Qed.

Lemma grows_close w a x : grows P w x → grows P w (close a x).
Proof. intros H. eapply grows_trans; [exact H|]. apply grows_same, trace_close. Qed.

Lemma grows_store w a b c x : grows P w x → grows P w (store a b c x).
Proof. intros H. eapply grows_trans; [exact H|]. apply grows_same, trace_store. Qed.

Lemma grows_restore w a b c x : grows P w x → grows P w (restore a b c x).
Proof. intros H. eapply grows_trans; [exact H|]. apply grows_same, trace_restore. Qed.

Lemma grows_signal w h x : grows P w x → grows P w (signal h x).
Proof. intros H. eapply grows_trans; [exact H|]. by apply grows_same. Qed.

Lemma grows_emit w e x : P e → grows P w x → grows P w (emit e x).
Proof. intros He H. eapply grows_trans; [exact H|]. by eapply grows_one. Qed.

Lemma grows_pipe w q x q' x' :
  pipe q x = (q', x') → grows P w x → grows P w x'.
Proof.
  intros E H. eapply grows_trans; [exact H|].
  destruct (trace_pipe q x) as [made Hm]. rewrite E in Hm.
  eapply grows_one; [exact Hm|]. by apply P_syscall.
Qed.

Lemma grows_fork w x pid x' : fork x = (pid, x') → grows P w x → grows P w x'.
Proof.
  intros E H. eapply grows_trans; [exact H|].
  pose proof (trace_fork x) as Hm. rewrite E in Hm.
  eapply grows_one; [exact Hm|]. by apply P_syscall.
Qed.

Lemma grows_wait w x r x' : wait x = (r, x') → grows P w x → grows P w x'.
Proof.
  intros E H. eapply grows_trans; [exact H|].
  pose proof (trace_wait x) as Hm. rewrite E in Hm.
  eapply grows_one; [exact Hm|]. by apply P_syscall.
Qed.

Lemma grows_waitpid w pid o x r x' :
  waitpid pid o x = (r, x') → grows P w x → grows P w x'.
Proof.
  intros E H. eapply grows_trans; [exact H|].
  pose proof (trace_waitpid pid o x) as Hm. rewrite E in Hm.
  eapply grows_one; [exact Hm|]. by apply P_syscall.
Qed.
End Grows.

(** One step back along the code: the last call that made the world of
    the goal. *)
Ltac grow_step :=
  match goal with
  | |- grows _ ?w ?w => apply grows_refl
  | |- grows _ _ (dup2 _ _ _) => apply grows_dup2
  | |- grows _ _ (close _ _) => apply grows_close
  | |- grows _ _ (store _ _ _ _) => apply grows_store
  | |- grows _ _ (restore _ _ _ _) => apply grows_restore
  | |- grows _ _ (signal _ _) => apply grows_signal
  | |- grows _ _ (emit _ _) => apply grows_emit; [done|]
  | H : pipe _ _ = (_, ?x) |- grows _ _ ?x =>
      eapply grows_pipe; [done | exact H |]
  | H : fork _ = (_, ?x) |- grows _ _ ?x =>
      eapply grows_fork; [done | exact H |]
  | H : wait _ = (_, ?x) |- grows _ _ ?x =>
      eapply grows_wait; [done | exact H |]
  | H : waitpid _ _ _ = (_, ?x) |- grows _ _ ?x =>
      eapply grows_waitpid; [done | exact H |]
  end.

Ltac grow := unfold extends; repeat grow_step.

Lemma grows_elem P w w' e : grows P w w' → e ∈ trace w → e ∈ trace w'.
Proof. intros (t & -> & _) H. apply elem_of_app. by left. Qed.

(** [record_pid] writes one cell and leaves the counter alone. *)
Lemma jobs_size_record_pid cur command pid jobs :
  jobs_size (record_pid cur command pid jobs) = jobs_size jobs.
Proof. unfold record_pid. by case_decide. Qed.

Lemma jobs_size_loop_body commands bg cur command st :
  jobs_size (ls_jobs (loop_body commands bg cur command st))
  = jobs_size (ls_jobs st).
Proof.
  unfold loop_body.
  repeat case_match; cbn [ls_jobs]; by rewrite ?jobs_size_record_pid.
Qed.

Lemma jobs_size_loop turns commands bg cur command st :
  jobs_size (ls_jobs (loop turns commands bg cur command st))
  = jobs_size (ls_jobs st).
Proof.
  revert command st. induction turns as [|n IH]; intros command st; simpl.
  - reflexivity.
  - by rewrite IH, jobs_size_loop_body.
Qed.

Section GrowsPipeline.
Variable P : event → Prop.
Hypothesis P_syscall : ∀ e, is_syscall e = true → P e.

(** The turns of the loop print announcements of the slot in the counter,
    for a background pipeline, and nothing else. *)
Lemma grows_loop_body commands bg cur command st :
  (bg = true → ∀ pid, P (OutJob (jobs_size (ls_jobs st)) pid)) →
  grows P (ls_world st) (ls_world (loop_body commands bg cur command st)).
Proof.
  intros HP. unfold loop_body.
  destruct bg; [specialize (HP eq_refl)|clear HP];
    repeat case_match; simplify_eq; cbn [ls_world];
    rewrite ?jobs_size_record_pid; grow.
Qed.

Lemma grows_loop turns commands bg cur command st :
  (bg = true → ∀ pid, P (OutJob (jobs_size (ls_jobs st)) pid)) →
  grows P (ls_world st) (ls_world (loop turns commands bg cur command st)).
Proof.
  revert command st. induction turns as [|n IH]; intros command st HP; simpl.
  - apply grows_refl.
  - eapply grows_trans; [by apply grows_loop_body|].
    apply IH. by rewrite jobs_size_loop_body.
Qed.

Lemma grows_executeExternalCommands line jobs buffer u w :
  (background line = 1 →
   ∀ pid, P (OutJob (Z.rem (jobs_size jobs + 1) MAXIMUM_JOB_LIST_SIZE) pid)) →
  grows P w (executeExternalCommands line jobs buffer u w).2.
Proof.
  intros HP. unfold executeExternalCommands.
  destruct (bool_decide (background line = 1)) eqn:Hbg.
  - apply bool_decide_eq_true in Hbg. specialize (HP Hbg).
    repeat case_match; simplify_eq; cbn [snd];
      (eapply grows_signal, grows_restore, grows_trans;
         [|apply grows_loop; intros _ pid; apply HP]);
      cbn [ls_world]; grow.
  - repeat case_match; simplify_eq; cbn [snd];
      (eapply grows_signal, grows_restore, grows_trans;
         [|apply grows_loop; intros [=]]);
      cbn [ls_world]; grow.
Qed.
End GrowsPipeline.

Lemma ext_executeExternalCommands line jobs buffer u w :
  extends w (executeExternalCommands line jobs buffer u w).2.
Proof. by apply grows_executeExternalCommands. Qed.

(** ** The pipes of a pipeline *)

Section Pipes.
Implicit Types (w : world) (t : list event).

Lemma pipe_calls_app t1 t2 :
  pipe_calls (t1 ++ t2) = (pipe_calls t1 + pipe_calls t2)%nat.
Proof. unfold pipe_calls. by rewrite filter_app, length_app. Qed.

Lemma pipe_calls_split t :
  pipe_calls t = (pipes_made t + pipes_failed t)%nat.
Proof.
  unfold pipe_calls, pipes_made, pipes_failed.
  induction t as [|e t IH]; [reflexivity|].
  rewrite !filter_cons.
  destruct e as [[?|]| | | | | | | | | | | | |]; simpl;
    repeat case_decide; simpl; try lia; naive_solver.
Qed.

Lemma pipe_calls_pipe q w :
  pipe_calls (trace (pipe q w).2) = S (pipe_calls (trace w)).
Proof.
  destruct (trace_pipe q w) as [made ->].
  rewrite pipe_calls_app. unfold pipe_calls at 2. simpl. lia.
Qed.

Lemma pipe_calls_fork w :
  pipe_calls (trace (fork w).2) = pipe_calls (trace w).
Proof.
  rewrite trace_fork, pipe_calls_app. unfold pipe_calls at 2. simpl. lia.
Qed.

Lemma pipe_calls_wait w :
  pipe_calls (trace (wait w).2) = pipe_calls (trace w).
Proof.
  rewrite trace_wait, pipe_calls_app. unfold pipe_calls at 2. simpl. lia.
Qed.

Lemma pipe_calls_emit_job slot pid w :
  pipe_calls (trace (emit (OutJob slot pid) w)) = pipe_calls (trace w).
Proof. simpl. rewrite pipe_calls_app. unfold pipe_calls at 2. simpl. lia. Qed.

(** Every turn of the loop asks for one pipe, the last turn included. *)
Lemma pipe_calls_loop_body commands bg cur command st :
  pipe_calls (trace (ls_world (loop_body commands bg cur command st)))
  = S (pipe_calls (trace (ls_world st))).
Proof.
  unfold loop_body.
  destruct (bool_decide (Z.rem command 2 = 0)).
  - pose proof (pipe_calls_pipe (ls_p st) (ls_world st)) as Hp.
    destruct (pipe (ls_p st) (ls_world st)) as [q w1]. simpl in Hp.
    pose proof (pipe_calls_fork w1) as Hf.
    destruct (fork w1) as [pid w2]. simpl in Hf.
    destruct bg.
    + destruct (bool_decide (command = commands - 1)); cbn [ls_world];
        rewrite ?pipe_calls_emit_job, ?trace_close, ?trace_dup2; lia.
    + match goal with |- context [wait ?x] =>
        pose proof (pipe_calls_wait x) as Hw; destruct (wait x) as [r w3] end.
      simpl in *. rewrite Hw.
      destruct (bool_decide (command = commands - 1));
        rewrite ?trace_close, ?trace_dup2; lia.
  - pose proof (pipe_calls_pipe (ls_p2 st) (ls_world st)) as Hp.
    destruct (pipe (ls_p2 st) (ls_world st)) as [q w1]. simpl in Hp.
    pose proof (pipe_calls_fork w1) as Hf.
    destruct (fork w1) as [pid w2]. simpl in Hf.
    destruct bg.
    + destruct (bool_decide (command = commands - 1)); cbn [ls_world];
        rewrite ?pipe_calls_emit_job, ?trace_close, ?trace_dup2; lia.
    + match goal with |- context [wait ?x] =>
        pose proof (pipe_calls_wait x) as Hw; destruct (wait x) as [r w3] end.
      simpl in *. rewrite Hw.
      destruct (bool_decide (command = commands - 1));
        rewrite ?trace_close, ?trace_dup2; lia.
Qed.

Lemma pipe_calls_loop turns commands bg cur command st :
  pipe_calls (trace (ls_world (loop turns commands bg cur command st)))
  = (turns + pipe_calls (trace (ls_world st)))%nat.
Proof.
  revert command st. induction turns as [|n IH]; intros command st; simpl.
  - reflexivity.
  - rewrite IH, pipe_calls_loop_body. lia.
Qed.

(** The calls before the loop: one [pipe] when there is a next command. *)
Lemma pipe_calls_executeExternalCommands line jobs buffer u w :
  pipe_calls (trace (executeExternalCommands line jobs buffer u w).2)
  = ((if bool_decide (ncommands line > 1)%Z
      then Z.to_nat (ncommands line) else O)
     + pipe_calls (trace w))%nat.
Proof.
  unfold executeExternalCommands.
  set (w0 := store _ _ _ (signal ctrlc2 w)).
  assert (pipe_calls (trace w0) = pipe_calls (trace w)) as H0.
  { unfold w0. by rewrite trace_store, trace_signal. }
  destruct (bool_decide (ncommands line > 1)) eqn:Hnext.
  - apply bool_decide_eq_true in Hnext.
    pose proof (pipe_calls_pipe (p u) w0) as Hp.
    destruct (pipe (p u) w0) as [q w1]. simpl in Hp.
    pose proof (pipe_calls_fork w1) as Hf.
    destruct (fork w1) as [pid w2]. simpl in Hf.
    destruct (bool_decide (background line = 1)).
    + cbn [fst snd ls_world loop]. rewrite trace_signal, trace_restore, pipe_calls_loop. cbn [ls_world].
      rewrite trace_restore, trace_close. lia.
    + match goal with |- context [wait ?x] =>
        pose proof (pipe_calls_wait x) as Hw; destruct (wait x) as [r w3] end.
      cbn [fst snd ls_world loop] in *. rewrite trace_signal, trace_restore, pipe_calls_loop. cbn [ls_world].
      rewrite Hw, trace_restore, trace_close. lia.
  - pose proof (pipe_calls_fork w0) as Hf.
    destruct (fork w0) as [pid w2]. simpl in Hf.
    destruct (bool_decide (background line = 1)).
    + cbn [fst snd ls_world loop]. rewrite trace_signal, trace_restore.
      rewrite pipe_calls_emit_job, trace_restore, trace_close. lia.
    + match goal with |- context [wait ?x] =>
        pose proof (pipe_calls_wait x) as Hw; destruct (wait x) as [r w3] end.
      cbn [fst snd ls_world loop] in *. rewrite trace_signal, trace_restore.
      rewrite Hw, trace_restore, trace_close. lia.
Qed.
End Pipes.

(** What a call of [executeExternalCommands] adds to the trace. *)
Lemma pipe_calls_added line jobs buffer u w t :
  trace (executeExternalCommands line jobs buffer u w).2 = trace w ++ t →
  pipe_calls t
  = if bool_decide (ncommands line > 1) then Z.to_nat (ncommands line) else O.
Proof.
  intros H. pose proof (pipe_calls_executeExternalCommands line jobs buffer u w) as Hc.
  rewrite H, pipe_calls_app in Hc. lia.
Qed.

(** The claim as the specification words it fails for two commands: the
    shell makes two pipes, not one. *)
Lemma C2_two_commands_two_pipes :
  let line := sample_line 2 0 in
  let w := sample_world [] [20; 21] [] in
  let w' := (executeExternalCommands line empty_jobs "cmd | cmd" junk_frame w).2 in
  ncommands line > 1 ∧
  trace w' = [EPipe (Some (3, 4)); EFork 20; EWait 20;
              EPipe (Some (4, 5)); EFork 21; EWait 21] ∧
  pipes_made (trace w') ≠ Z.to_nat (ncommands line - 1).
Proof. vm_compute. split; [reflexivity|]. split; [reflexivity|]. discriminate. Qed.

(** C2, amended: a pipeline of N > 1 commands makes [executeExternalCommands]
    call [pipe] exactly N times, once before the first fork and once in
    every turn of the loop, the turn of the last command included, so that N
    pipes are made when no call fails; a pipeline of one command makes it
    call [pipe] not at all. *)
Theorem C2_one_pipe_per_command line jobs buffer u w :
  ∃ t, trace (executeExternalCommands line jobs buffer u w).2 = trace w ++ t ∧
    (ncommands line > 1 →
       pipe_calls t = Z.to_nat (ncommands line) ∧
       (pipes_failed t = O → pipes_made t = Z.to_nat (ncommands line))) ∧
    (ncommands line = 1 → pipe_calls t = O ∧ pipes_made t = O).
Proof.
  destruct (ext_executeExternalCommands line jobs buffer u w) as (t & Ht & _).
  exists t. split; [exact Ht|].
  pose proof (pipe_calls_added _ _ _ _ _ _ Ht) as Hc.
  pose proof (pipe_calls_split t) as Hs.
  split; intros HN.
  - rewrite bool_decide_eq_true_2 in Hc by done. split; [done|]. lia.
  - rewrite bool_decide_eq_false_2 in Hc by lia. lia.
Qed.

Lemma C2_one_pipe_per_command_witness :
  ∃ t, trace (executeExternalCommands (sample_line 3 1) empty_jobs
                "cmd | cmd | cmd &" junk_frame
                (sample_world [] [20; 21; 22] [])).2 = [] ++ t ∧
       pipe_calls t = 3%nat ∧ pipes_made t = 3%nat.
Proof.
  destruct (C2_one_pipe_per_command (sample_line 3 1) empty_jobs
              "cmd | cmd | cmd &" junk_frame (sample_world [] [20; 21; 22] []))
    as (t & Ht & Hmany & _).
  exists t. split; [exact Ht|].
  destruct Hmany as [Hcalls Hmade]; [reflexivity|].
  split; [exact Hcalls|]. apply Hmade.
  vm_compute in Ht. subst t. reflexivity.
Defined.

(** ** The cells of the registry *)

Section Arrays.
Context {A : Type}.
Implicit Types (l : list A) (k : nat).

Lemma aget_nat d l k : aget d l (Z.of_nat k) = default d (l !! k).
Proof. unfold aget. rewrite decide_True by lia. by rewrite Nat2Z.id. Qed.

Lemma aset_nat l k x : aset l (Z.of_nat k) x = <[k := x]> l.
Proof. unfold aset. rewrite decide_True by lia. by rewrite Nat2Z.id. Qed.

Lemma aget_lookup d l i x :
  0 <= i → l !! Z.to_nat i = Some x → aget d l i = x.
Proof. intros Hi H. unfold aget. rewrite decide_True by done. by rewrite H. Qed.

Lemma length_aset l i x : length (aset l i x) = length l.
Proof. unfold aset. case_decide; [apply length_insert | done]. Qed.

Lemma lookup_aset_ne l i x k : Z.of_nat k ≠ i → aset l i x !! k = l !! k.
Proof.
  intros H. unfold aset. case_decide; [|done].
  apply list_lookup_insert_ne. lia.
Qed.

Lemma lookup_aset_eq l i x :
  0 <= i → (Z.to_nat i < length l)%nat → aset l i x !! Z.to_nat i = Some x.
Proof.
  intros Hi H. unfold aset. rewrite decide_True by done.
  by apply list_lookup_insert_eq.
Qed.
End Arrays.

Section Insertion.
Implicit Types (jobs : tjobs).

Lemma same_elsewhere_refl i jobs : same_elsewhere i jobs jobs.
Proof. by split. Qed.

Lemma same_elsewhere_trans i j1 j2 j3 :
  same_elsewhere i j1 j2 → same_elsewhere i j2 j3 → same_elsewhere i j1 j3.
Proof.
  intros [L1 H1] [L2 H2]. split; [congruence|].
  intros k Hk. by rewrite H2, H1.
Qed.

Lemma register_job_stored buffer commands pid jobs :
  0 <= jobs_size jobs → (Z.to_nat (jobs_size jobs) < length (jobs_list jobs))%nat →
  stored (register_job buffer commands pid jobs) (jobs_size jobs) buffer commands.
Proof.
  intros H0 Hlt. split; [done|]. eexists. split.
  - unfold register_job. cbn [jobs_list]. by apply lookup_aset_eq.
  - done.
Qed.

Lemma register_job_elsewhere buffer commands pid jobs :
  same_elsewhere (jobs_size jobs) jobs (register_job buffer commands pid jobs).
Proof.
  split; unfold register_job; cbn [jobs_list].
  - apply length_aset.
  - intros k Hk. by apply lookup_aset_ne.
Qed.

Lemma record_pid_stored cur command pid jobs instr n :
  0 <= command < MAXIMUM_PID_LIST_SIZE →
  stored jobs cur instr n → stored (record_pid cur command pid jobs) cur instr n.
Proof.
  intros Hc (H0 & j & Hj & Hi & Hn & Hf). split; [done|].
  unfold record_pid. rewrite decide_True by done. cbn [jobs_list].
  rewrite (aget_lookup _ _ _ j) by done.
  eexists. split.
  - apply lookup_aset_eq; [done|]. by eapply lookup_lt_Some.
  - done.
Qed.

Lemma record_pid_elsewhere cur command pid jobs :
  same_elsewhere cur jobs (record_pid cur command pid jobs).
Proof.
  split; unfold record_pid; case_decide; cbn [jobs_list].
  - apply length_aset.
  - apply length_aset.
  - intros k Hk. by apply lookup_aset_ne.
  - intros k Hk. by apply lookup_aset_ne.
Qed.

(** A write inside the array of process ids leaves no trace in
    [jobs_overrun]; a write outside is added to it. *)
Lemma jobs_overrun_record_pid cur command pid jobs :
  jobs_overrun (record_pid cur command pid jobs)
  = if decide (0 <= command < MAXIMUM_PID_LIST_SIZE) then jobs_overrun jobs
    else jobs_overrun jobs ++ [(cur, command, pid)].
Proof. unfold record_pid. by case_decide. Qed.

Lemma ls_jobs_loop_body commands bg cur command st :
  ∃ pid, ls_jobs (loop_body commands bg cur command st)
         = if bg then record_pid cur command pid (ls_jobs st) else ls_jobs st.
Proof.
  unfold loop_body. repeat case_match; simplify_eq; cbn [ls_jobs]; eauto.
Qed.

Lemma loop_stored turns commands bg cur command st instr n :
  0 <= command → command + Z.of_nat turns <= MAXIMUM_PID_LIST_SIZE →
  stored (ls_jobs st) cur instr n →
  stored (ls_jobs (loop turns commands bg cur command st)) cur instr n.
Proof.
  revert command st.
  induction turns as [|t IH]; intros command st H0 Hn H; simpl.
  - done.
  - apply IH; [lia | lia |].
    destruct (ls_jobs_loop_body commands bg cur command st) as [pid ->].
    destruct bg; [|done]. apply record_pid_stored; [lia | done].
Qed.

(** As long as the commands of the loop are fewer than the cells of
    [pids], no write leaves the array. *)
Lemma loop_overrun turns commands bg cur command st :
  0 <= command → command + Z.of_nat turns <= MAXIMUM_PID_LIST_SIZE →
  jobs_overrun (ls_jobs (loop turns commands bg cur command st))
  = jobs_overrun (ls_jobs st).
Proof.
  revert command st.
  induction turns as [|t IH]; intros command st H0 Hn; simpl.
  - done.
  - rewrite IH by lia.
    destruct (ls_jobs_loop_body commands bg cur command st) as [pid ->].
    destruct bg; [|done]. rewrite jobs_overrun_record_pid.
    by rewrite decide_True by lia.
Qed.

Lemma loop_elsewhere turns commands bg cur command st :
  same_elsewhere cur (ls_jobs st)
    (ls_jobs (loop turns commands bg cur command st)).
Proof.
  revert command st. induction turns as [|t IH]; intros command st; simpl.
  - apply same_elsewhere_refl.
  - eapply same_elsewhere_trans; [|apply IH].
    destruct (ls_jobs_loop_body commands bg cur command st) as [pid ->].
    destruct bg.
    + apply record_pid_elsewhere.
    + apply same_elsewhere_refl.
Qed.

(** A foreground pipeline leaves the registry alone. *)
Lemma loop_foreground turns commands cur command st :
  ls_jobs (loop turns commands false cur command st) = ls_jobs st.
Proof.
  revert command st. induction turns as [|t IH]; intros command st; simpl.
  - done.
  - rewrite IH.
    by destruct (ls_jobs_loop_body commands false cur command st) as [pid ->].
Qed.

Lemma executeExternalCommands_foreground line jobs buffer u w :
  background line ≠ 1 →
  (executeExternalCommands line jobs buffer u w).1 = jobs.
Proof.
  intros Hbg. unfold executeExternalCommands.
  rewrite (bool_decide_eq_false_2 (background line = 1)) by done.
  repeat case_match; simplify_eq; cbn [fst]; by rewrite loop_foreground.
Qed.

(** A background pipeline writes cell [jobs->size] and advances the
    counter modulo the capacity. *)
Lemma executeExternalCommands_background line jobs buffer u w :
  background line = 1 →
  0 <= jobs_size jobs →
  (Z.to_nat (jobs_size jobs) < length (jobs_list jobs))%nat →
  let jobs' := (executeExternalCommands line jobs buffer u w).1 in
  jobs_size jobs' = Z.rem (jobs_size jobs + 1) MAXIMUM_JOB_LIST_SIZE ∧
  (ncommands line <= MAXIMUM_PID_LIST_SIZE →
   stored jobs' (jobs_size jobs) buffer (ncommands line) ∧
   jobs_overrun jobs' = jobs_overrun jobs) ∧
  same_elsewhere (jobs_size jobs) jobs jobs'.
Proof.
  intros Hbg H0 Hlt. unfold executeExternalCommands.
  rewrite (bool_decide_eq_true_2 (background line = 1)) by done.
  destruct (bool_decide (ncommands line > 1)) eqn:Hnext;
    [apply bool_decide_eq_true_1 in Hnext
    |apply bool_decide_eq_false_1 in Hnext];
    repeat case_match; simplify_eq; cbn [fst];
    (split; [by rewrite jobs_size_loop|]);
    (split;
     [intros Hn; split;
      [apply loop_stored;
       [lia | unfold MAXIMUM_PID_LIST_SIZE in *; simpl; lia
       | by apply register_job_stored]
      |by rewrite loop_overrun
         by (unfold MAXIMUM_PID_LIST_SIZE in *; simpl; lia)]
     |]);
    (eapply same_elsewhere_trans; [|apply loop_elsewhere]);
    cbn [ls_jobs]; apply register_job_elsewhere.
Qed.
End Insertion.

(** ** The announcement of a background job *)

Section Announcement.
Implicit Types (w x : world).

Lemma announced_later s w x x' :
  announced s w x → extends x x' → announced s w x'.
Proof.
  intros (t & pid & Ht & Hin) (t' & Ht' & _). exists (t ++ t'), pid.
  split; [by rewrite Ht', Ht, app_assoc|]. apply elem_of_app. by left.
Qed.

Lemma announced_earlier s w x x' :
  extends w x → announced s x x' → announced s w x'.
Proof.
  intros (t & Ht & _) (t' & pid & Ht' & Hin). exists (t ++ t'), pid.
  split; [by rewrite Ht', Ht, app_assoc|]. apply elem_of_app. by right.
Qed.

Lemma announced_emit s pid w x :
  extends w x → announced s w (emit (OutJob s pid) x).
Proof.
  intros H. eapply announced_earlier; [exact H|].
  exists [OutJob s pid], pid. split; [done|]. apply list_elem_of_singleton. done.
Qed.

(** The turn of the last command announces the job. *)
Lemma loop_body_announces commands cur st :
  announced (jobs_size (ls_jobs st)) (ls_world st)
    (ls_world (loop_body commands true cur (commands - 1) st)).
Proof.
  unfold loop_body. rewrite (bool_decide_eq_true_2 (commands - 1 = commands - 1)) by done.
  repeat case_match; simplify_eq; cbn [ls_world];
    rewrite jobs_size_record_pid; apply announced_emit;
    grow.
Qed.

Lemma loop_announces turns commands cur command st :
  command + Z.of_nat turns = commands - 1 →
  announced (jobs_size (ls_jobs st)) (ls_world st)
    (ls_world (loop (S turns) commands true cur command st)).
Proof.
  revert command st. induction turns as [|n IH]; intros command st H.
  - replace command with (commands - 1) by lia. simpl.
    apply loop_body_announces.
  - change (loop (S (S n)) commands true cur command st)
      with (loop (S n) commands true cur (command + 1)
              (loop_body commands true cur command st)).
    eapply announced_earlier; [apply grows_loop_body; done|].
    rewrite <- (jobs_size_loop_body commands true cur command st).
    apply IH. lia.
Qed.

Lemma announced_close s w a x : announced s w x → announced s w (close a x).
Proof. intros H. eapply announced_later; [exact H|grow]. Qed.

Lemma announced_restore s w a b c x :
  announced s w x → announced s w (restore a b c x).
Proof. intros H. eapply announced_later; [exact H|grow]. Qed.

Lemma announced_signal s w h x : announced s w x → announced s w (signal h x).
Proof. intros H. eapply announced_later; [exact H|grow]. Qed.

Lemma executeExternalCommands_announces line jobs buffer u w :
  background line = 1 →
  announced (Z.rem (jobs_size jobs + 1) MAXIMUM_JOB_LIST_SIZE) w
    (executeExternalCommands line jobs buffer u w).2.
Proof.
  intros Hbg. unfold executeExternalCommands.
  rewrite (bool_decide_eq_true_2 (background line = 1)) by done.
  destruct (bool_decide (ncommands line > 1)) eqn:Hnext.
  - apply bool_decide_eq_true in Hnext.
    destruct (Z.to_nat (ncommands line - 1)) as [|n] eqn:Hn; [lia|].
    repeat case_match; simplify_eq; cbn [snd].
    apply announced_signal, announced_restore.
    match goal with |- announced _ _ (ls_world (loop _ _ _ _ _ ?st)) =>
      pose proof (loop_announces n (ncommands line) (jobs_size jobs) 1 st
                    ltac:(lia)) as Ha end.
    eapply announced_earlier; [|exact Ha].
    cbn [ls_world]. grow.
  - repeat case_match; simplify_eq; cbn [snd loop ls_world].
    apply announced_signal, announced_restore, announced_emit. grow.
Qed.
End Announcement.

(** ** Removal *)

Section Removal.
Implicit Types (l : list tjob) (k n i : nat).

(** The loop of [delete] moves [n] cells one place to the left. *)
Lemma delete_loop_lookup n k l i :
  (k + n < length l)%nat →
  delete_loop n (Z.of_nat k) l !! i
  = if decide (k ≤ i < k + n)%nat then l !! S i else l !! i.
Proof.
  revert k l. induction n as [|n IH]; intros k l Hlen.
  - simpl. rewrite decide_False by lia. done.
  - cbn [delete_loop].
    replace (Z.of_nat k + 1) with (Z.of_nat (S k)) by lia.
    rewrite aget_nat, aset_nat.
    destruct (lookup_lt_is_Some_2 l (S k) ltac:(lia)) as [x Hx].
    rewrite Hx. cbn [default].
    rewrite IH by (rewrite length_insert; lia).
    destruct (decide (i = k)) as [->|Hne].
    + rewrite decide_False by lia. rewrite decide_True by lia.
      rewrite list_lookup_insert_eq by lia. done.
    + destruct (decide (S k ≤ i < S k + n)%nat).
      * rewrite decide_True by lia. apply list_lookup_insert_ne. lia.
      * rewrite decide_False by lia. apply list_lookup_insert_ne. lia.
Qed.

Lemma length_delete_loop n index l : length (delete_loop n index l) = length l.
Proof.
  revert index l. induction n as [|n IH]; intros index l; simpl; [done|].
  by rewrite IH, length_aset.
Qed.

(** [delete] on a job of the registry: the jobs before it stay, the jobs
    after it move one slot down, and one job less is shown. *)
Lemma delete_visible (job : Z) jobs :
  registry_ok jobs → 0 <= job < jobs_size jobs →
  length (visible (delete job jobs)) = (length (visible jobs) - 1)%nat ∧
  (∀ i, (Z.of_nat i < job) →
        visible (delete job jobs) !! i = visible jobs !! i) ∧
  (∀ i, (job <= Z.of_nat i) →
        visible (delete job jobs) !! i = visible jobs !! S i).
Proof.
  intros [Hlen Hsize] Hjob. unfold MAXIMUM_JOB_LIST_SIZE in *.
  assert (jobs_size (delete job jobs) = jobs_size jobs - 1) as Hs.
  { unfold delete, MAXIMUM_JOB_LIST_SIZE. cbn [jobs_size].
    apply Z.rem_small. lia. }
  assert (jobs_list (delete job jobs)
          = delete_loop (Z.to_nat (jobs_size jobs - job))
              (Z.of_nat (Z.to_nat job)) (jobs_list jobs)) as Hl.
  { unfold delete. cbn [jobs_list]. by rewrite Z2Nat.id by lia. }
  unfold visible. rewrite Hs, Hl. split; [|split].
  - rewrite !length_take, length_delete_loop. lia.
  - intros i Hi. rewrite !lookup_take_lt by lia.
    rewrite delete_loop_lookup by lia. by rewrite decide_False by lia.
  - intros i Hi.
    destruct (decide (Z.of_nat i < jobs_size jobs - 1)).
    + rewrite !lookup_take_lt by lia.
      rewrite delete_loop_lookup by lia. by rewrite decide_True by lia.
    + by rewrite !lookup_take_ge by lia.
Qed.
End Removal.

(** ** Insertion at the end of the array, and the slots *)

Lemma visible_snoc jobs jobs' instr n :
  0 <= jobs_size jobs →
  jobs_size jobs' = jobs_size jobs + 1 →
  stored jobs' (jobs_size jobs) instr n →
  same_elsewhere (jobs_size jobs) jobs jobs' →
  ∃ j, visible jobs' = visible jobs ++ [j] ∧ job_instruction j = instr ∧
       job_size j = n ∧ job_finished j = 0.
Proof.
  intros H0 Hs (_ & j & Hj & Hi & Hn & Hf) [Hlen Hsame].
  exists j. split; [|done]. unfold visible. rewrite Hs.
  replace (Z.to_nat (jobs_size jobs + 1)) with (S (Z.to_nat (jobs_size jobs))) by lia.
  rewrite (take_S_r _ _ j) by done. f_equal.
  apply list_eq. intros k.
  destruct (decide (k < Z.to_nat (jobs_size jobs))%nat).
  - rewrite !lookup_take_lt by done. apply Hsame. lia.
  - by rewrite !lookup_take_ge by lia.
Qed.

(** The claim as worded fails at the end of the array: with 49 jobs in the
    registry the insertion is not refused, the counter wraps around to 0
    and none of the 50 stored jobs is visible any more. *)
Lemma C4_counter_wraps_at_49 :
  let r := executeExternalCommands (sample_line 1 1) crowded_jobs "cmd &"
             junk_frame (sample_world [] [20] []) in
  registry_ok crowded_jobs ∧
  length (visible crowded_jobs) = 49%nat ∧
  job_instruction <$> jobs_list r.1 !! 49%nat = Some "cmd &"%string ∧
  jobs_size r.1 = 0 ∧
  visible r.1 = [] ∧
  trace r.2 = [EFork 20; OutJob 0 20].
Proof. vm_compute. repeat split; intros; discriminate. Qed.

(** C4, amended: when the counter of the registry stands at 49, the largest
    value it takes, a new background job of at most 25 commands, as many as
    a job has cells for process ids, is not refused: it is written to the
    last cell of the array, no other cell changes and no write leaves the
    arrays, the counter wraps around to 0, so that no job is visible any
    more, and the job is announced as slot 0. *)
Theorem C4_insertion_at_49_wraps line jobs buffer u w :
  background line = 1 →
  ncommands line <= MAXIMUM_PID_LIST_SIZE →
  registry_ok jobs →
  jobs_size jobs = MAXIMUM_JOB_LIST_SIZE - 1 →
  let r := executeExternalCommands line jobs buffer u w in
  stored r.1 (MAXIMUM_JOB_LIST_SIZE - 1) buffer (ncommands line) ∧
  same_elsewhere (MAXIMUM_JOB_LIST_SIZE - 1) jobs r.1 ∧
  jobs_overrun r.1 = jobs_overrun jobs ∧
  jobs_size r.1 = 0 ∧
  visible r.1 = [] ∧
  announced 0 w r.2.
Proof.
  intros Hbg Hn [Hlen Hsize] H49 r.
  destruct (executeExternalCommands_background line jobs buffer u w Hbg)
    as (Hs & Hst & Hel); [lia | unfold MAXIMUM_JOB_LIST_SIZE in *; lia |].
  destruct (Hst Hn) as [Hst' Hov]. clear Hst.
  pose proof (executeExternalCommands_announces line jobs buffer u w Hbg) as Ha.
  fold r in Hs, Hst', Hov, Hel, Ha. rewrite H49 in Hs, Hst', Hel, Ha.
  change (Z.rem (MAXIMUM_JOB_LIST_SIZE - 1 + 1) MAXIMUM_JOB_LIST_SIZE)
    with 0 in Hs, Ha.
  split; [exact Hst'|]. split; [exact Hel|]. split; [exact Hov|].
  split; [exact Hs|].
  split; [|exact Ha]. unfold visible. by rewrite Hs.
Qed.

Lemma C4_insertion_at_49_wraps_witness :
  let r := executeExternalCommands (sample_line 2 1) crowded_jobs "cmd | cmd &"
             zero_frame (sample_world [] [20; 21] []) in
  stored r.1 49 "cmd | cmd &" 2 ∧ same_elsewhere 49 crowded_jobs r.1 ∧
  jobs_overrun r.1 = jobs_overrun crowded_jobs ∧
  jobs_size r.1 = 0 ∧ visible r.1 = [] ∧
  announced 0 (sample_world [] [20; 21] []) r.2.
Proof.
  apply (C4_insertion_at_49_wraps (sample_line 2 1) crowded_jobs).
  - reflexivity.
  - vm_compute. discriminate.
  - vm_compute. repeat split; intros; discriminate.
  - reflexivity.
Defined.

(** The first half of the claim fails at the same place: the job that goes
    into the fiftieth cell is announced as slot 0. *)
Lemma C6_fiftieth_job_is_slot_0 :
  let r := executeExternalCommands (sample_line 1 1) crowded_jobs "cmd &"
             junk_frame (sample_world [] [20] []) in
  jobs_size crowded_jobs = 49 ∧
  job_instruction <$> jobs_list r.1 !! 49%nat = Some "cmd &"%string ∧
  trace r.2 = [EFork 20; OutJob 0 20] ∧
  0 ≠ jobs_size crowded_jobs + 1.
Proof. vm_compute. repeat split; intros; discriminate. Qed.

(** C6, amended: a background job of at most 25 commands, as many as a job
    has cells for process ids, that enters a registry of fewer than 49
    jobs becomes the last visible job, and the slot the shell announces for
    it, in the one announcement it prints, is the 1-based position of the
    job in the registry; the removal of the job in slot [job + 1] leaves
    the jobs before it in place, moves every later job down by exactly one
    slot and shortens the registry by one. *)
Theorem C6_slots_follow_positions :
  (∀ line jobs buffer u w,
     background line = 1 → ncommands line <= MAXIMUM_PID_LIST_SIZE →
     registry_ok jobs →
     jobs_size jobs < MAXIMUM_JOB_LIST_SIZE - 1 →
     let r := executeExternalCommands line jobs buffer u w in
     let slot := Z.of_nat (length (visible jobs)) + 1 in
     (∃ j, visible r.1 = visible jobs ++ [j] ∧ job_instruction j = buffer ∧
           job_size j = ncommands line ∧ job_finished j = 0) ∧
     announced slot w r.2 ∧
     grows (announces slot) w r.2) ∧
  (∀ job jobs,
     registry_ok jobs → 0 <= job < jobs_size jobs →
     length (visible (delete job jobs)) = (length (visible jobs) - 1)%nat ∧
     (∀ i : nat, Z.of_nat i < job →
                 visible (delete job jobs) !! i = visible jobs !! i) ∧
     (∀ i : nat, job <= Z.of_nat i →
                 visible (delete job jobs) !! i = visible jobs !! S i)).
Proof.
  split.
  - intros line jobs buffer u w Hbg Hn [Hlen Hsize] Hlt r slot.
    unfold MAXIMUM_JOB_LIST_SIZE in Hlen, Hsize, Hlt.
    destruct (executeExternalCommands_background line jobs buffer u w Hbg)
      as (Hs & Hst & Hel); [lia | lia |].
    destruct (Hst Hn) as [Hst' _]. clear Hst. rename Hst' into Hst.
    fold r in Hs, Hst, Hel.
    assert (Z.rem (jobs_size jobs + 1) MAXIMUM_JOB_LIST_SIZE = jobs_size jobs + 1)
      as Hrem by (apply Z.rem_small; unfold MAXIMUM_JOB_LIST_SIZE; lia).
    assert (slot = jobs_size jobs + 1) as ->.
    { unfold slot, visible. rewrite length_take. lia. }
    rewrite Hrem in Hs. split; [|split].
    + eapply visible_snoc; [lia | exact Hs | exact Hst | exact Hel].
    + rewrite <- Hrem. by apply executeExternalCommands_announces.
    + apply grows_executeExternalCommands.
      * intros e He. by destruct e.
      * intros _ pid. cbn [announces]. exact Hrem.
  - intros job jobs Hok Hjob. by apply delete_visible.
Qed.

Lemma C6_slots_follow_positions_witness :
  let jobs := sample_jobs [sample_job "a &" [10]; sample_job "b &" [11]] in
  let w := sample_world [(10, Running); (11, Running)] [20; 21] [] in
  let r := executeExternalCommands (sample_line 2 1) jobs "c | d &" zero_frame w in
  (announced 3 w r.2 ∧ grows (announces 3) w r.2) ∧
  visible (delete 0 r.1) !! 1%nat = visible r.1 !! 2%nat.
Proof.
  intros jobs w r. destruct C6_slots_follow_positions as [Hin Hdel]. split.
  - apply (Hin (sample_line 2 1) jobs "c | d &"%string zero_frame w).
    + reflexivity.
    + vm_compute. discriminate.
    + vm_compute. repeat split; intros; discriminate.
    + reflexivity.
  - apply (Hdel 0 r.1).
    + vm_compute. repeat split; intros; discriminate.
    + vm_compute. split; [discriminate | reflexivity].
    + vm_compute. discriminate.
Defined.

(** ** The standard streams of the shell *)

(** C1, on the code: [store] duplicates the three streams onto whatever
    numbers the unassigned variables [stdinfd], [stdoutfd] and [stderrfd]
    hold, and [restore] copies from those numbers back.  When the three
    variables hold the same number, a shell started with three different
    streams has all of them bound to its old standard output after a
    foreground command; when the frame is filled with zeros, its standard
    input is closed. *)
Theorem C1_streams_not_restored :
  let w := sample_world [] [20] [] in
  std_streams w
  = [Some (Inherited "in"); Some (Inherited "out"); Some (Inherited "err")] ∧
  std_streams (executeExternalCommands (sample_line 1 0) empty_jobs "cmd"
                 shared_frame w).2
  = [Some (Inherited "out"); Some (Inherited "out"); Some (Inherited "out")] ∧
  std_streams (executeExternalCommands (sample_line 1 0) empty_jobs "cmd"
                 zero_frame w).2
  = [None; Some (Inherited "out"); Some (Inherited "err")].
Proof. vm_compute. done. Qed.

(** ** Polling a job *)

(** A latched job is reported finished at once: no [waitpid], no change of
    the world. *)
Lemma finished_latched job w :
  job_finished job = 1 → finished job w = (1, job, w).
Proof. intros H. unfold finished. by rewrite decide_True. Qed.

(** With only child 11 left, exited or not, a poll of the job of the
    children 10 and 11 stops at child 10, which is no child any more. *)
Lemma finished_after_partial_reap w st :
  procs w = [(11, st)] →
  finished (sample_job "a | b &" [10; 11]) w
  = (0, sample_job "a | b &" [10; 11], emit (EWaitpid 10 WNOHANG (-1)) w).
Proof.
  intros H. unfold finished. simpl.
  unfold waitpid, waitpid_nohang. simpl. rewrite H. reflexivity.
Qed.

Lemma polls_after_partial_reap n w st :
  procs w = [(11, st)] →
  (polls n (sample_job "a | b &" [10; 11]) w).1.1 = replicate n 0.
Proof.
  revert w. induction n as [|n IH]; intros w H; [reflexivity|].
  cbn [polls]. rewrite (finished_after_partial_reap w st H).
  specialize (IH (emit (EWaitpid 10 WNOHANG (-1)) w) H).
  destruct (polls n _ _) as [[rs j] w']. simpl in *. by rewrite IH.
Qed.

(** C3, on the code: the job "a | b &" runs as the children 10 and 11.
    Child 10 has exited and child 11 has not when the job is polled: the
    poll reaps child 10 and answers 0.  Then child 11 exits, so that all
    processes of the job have exited; every later poll asks for child 10
    again, gets -1, and answers 0: the job is never reported finished. *)
Theorem C3_job_never_reported_finished :
  let job := sample_job "a | b &" [10; 11] in
  let w := sample_world [(10, Exited); (11, Running)] [] [] in
  let r := finished job w in
  r.1.1 = 0 ∧ r.1.2 = job ∧
  trace r.2 = [EWaitpid 10 WNOHANG 10; EWaitpid 11 WNOHANG 0] ∧
  procs r.2 = [(11, Running)] ∧
  procs (child_exits 11 r.2) = [(11, Exited)] ∧
  ∀ n, (polls n job (child_exits 11 r.2)).1.1 = replicate n 0.
Proof.
  intros job w r. repeat split.
  intros n. by apply (polls_after_partial_reap n _ Exited).
Qed.

(** ** Listing the jobs *)

(** C5, on the code: of three jobs the first two have exited and the third
    runs.  [mshjobs] prints "Done" for the first two and "Running" for the
    third, and then deletes cell 0 and cell 1 of the registry as it is after
    the first deletion: the second finished job stays and the running job is
    gone.  The next listing prints "Done" for the second job again. *)
Theorem C5_listing_removes_a_running_job :
  let jobs := sample_jobs [sample_job "a &" [10]; sample_job "b &" [11];
                           sample_job "c &" [12]] in
  let w := sample_world [(10, Exited); (11, Exited); (12, Running)] [] [] in
  let r := mshjobs jobs w in
  let r' := mshjobs r.1 r.2 in
  printed (trace r.2)
  = [OutDone 1 "a &"; OutDone 2 "b &"; OutRunning 3 "c &"] ∧
  job_instruction <$> visible r.1 = ["b &"%string] ∧
  procs r.2 = [(12, Running)] ∧
  printed (trace r'.2)
  = [OutDone 1 "a &"; OutDone 2 "b &"; OutRunning 3 "c &"; OutDone 1 "b &"] ∧
  visible r'.1 = [].
Proof. vm_compute. done. Qed.

(** ** Waiting for a foreground command *)

(** C8, on the code: the process 10 of a background job has exited and has
    not been polled when the user runs a foreground command, which becomes
    child 20.  [wait(NULL)] returns at once with child 10: the shell goes
    back to its prompt while child 20 runs, unreaped, and the next poll of
    the background job finds no child 10. *)
Theorem C8_wait_reaps_another_child :
  let jobs := sample_jobs [sample_job "a &" [10]] in
  let w := sample_world [(10, Exited)] [20] [] in
  let r := executeExternalCommands (sample_line 1 0) jobs "cmd" junk_frame w in
  trace r.2 = [EFork 20; EWait 10] ∧
  procs r.2 = [(20, Running)] ∧
  r.1 = jobs ∧
  (finished (sample_job "a &" [10]) r.2).1.1 = 0.
Proof. vm_compute. done. Qed.

(** ** The [umask] built-in *)

Section Octal.
Implicit Types (s : string) (c : ascii).

Lemma octal_char_value c : octal_char c ↔ 0 <= char_value c - 48 <= 7.
Proof.
  unfold octal_char, char_value.
  pose proof (nat_ascii_bounded c). case_decide; lia.
Qed.

Lemma octal_loop_spec s :
  octal_loop s = 1 ↔ Forall octal_char (String.list_ascii_of_string s).
Proof.
  induction s as [|c r IH]; simpl.
  - split; [constructor | done].
  - rewrite Forall_cons, octal_char_value. case_decide.
    + split; [discriminate | lia].
    + rewrite IH. split; [intros H'; split; [lia | done] | by intros [_ H']].
Qed.

Lemma octal_loop_bool s : octal_loop s = 1 ∨ octal_loop s = 0.
Proof. induction s as [|c r IH]; simpl; [by left|]. case_decide; auto. Qed.

(** [octal], as a function of the text of its argument. *)
Lemma octal_characterised (number : option string) :
  (octal number = 1 ↔
   ∃ s, number = Some s ∧ (String.length s ≤ 4)%nat ∧
        Forall octal_char (String.list_ascii_of_string s)) ∧
  (octal number = 1 ∨ octal number = 0).
Proof.
  destruct number as [s|]; simpl.
  - split.
    + case_decide.
      * split; [discriminate|]. intros (s' & [= <-] & Hlen & _). lia.
      * rewrite octal_loop_spec. split.
        -- intros H'. exists s. split; [done|]. split; [lia | done].
        -- by intros (s' & [= <-] & _ & H').
    + case_decide; [by right | apply octal_loop_bool].
  - split; [|by right]. split; [discriminate | by intros (s & [=] & _)].
Qed.

(** X1: [octal] answers 1 exactly for the strings of at most four
    characters, all of them between 0 and 7, the empty string among them;
    for everything else, NULL included, it answers 0. *)
Theorem octal_accepts (number : option string) :
  (octal number = 1 ↔
   ∃ s, number = Some s ∧ (String.length s ≤ 4)%nat ∧
        Forall octal_char (String.list_ascii_of_string s)) ∧
  (octal number = 1 ∨ octal number = 0).
Proof. apply octal_characterised. Qed.

Lemma octal_accepts_witness : octal (Some "0022"%string) = 1.
Proof.
  destruct (octal_accepts (Some "0022"%string)) as [[_ H] _]. apply H.
  exists "0022"%string. split; [reflexivity|]. split; [simpl; lia|].
  repeat (apply Forall_cons_2; [evaluate|]). apply Forall_nil_2.
Defined.
End Octal.

Section PrintMask.
Implicit Types (mask a z r : Z) (turns : nat).

(** The first loop ends within as many turns as [auxiliarMask] has bits. *)
Lemma printMask_zeros_ends turns a z :
  a < 2 ^ Z.of_nat turns → is_Some (printMask_zeros turns a z).
Proof.
  revert a z. induction turns as [|t IH]; intros a z Ha.
  - simpl. rewrite decide_False by (simpl in Ha; lia). done.
  - cbn [printMask_zeros]. case_decide; [|done]. apply IH.
    rewrite Nat2Z.inj_succ, Z.pow_succ_r in Ha by lia.
    apply Z.quot_lt_upper_bound; lia.
Qed.

Lemma printMask_zeros_le turns a z r :
  printMask_zeros turns a z = Some r → r <= z.
Proof.
  revert a z. induction turns as [|t IH]; intros a z; cbn [printMask_zeros];
    case_decide; intros H'; simplify_eq; try lia.
  apply IH in H'. lia.
Qed.

(** A mask of more than [k] decimal places costs more than [k] zeros. *)
Lemma printMask_zeros_places (k : nat) turns a z r :
  printMask_zeros turns a z = Some r → 10 ^ Z.of_nat k <= a →
  r <= z - Z.of_nat k - 1.
Proof.
  revert turns a z. induction k as [|k IH]; intros turns a z Hr Ha.
  - destruct turns as [|t]; cbn [printMask_zeros] in Hr;
      rewrite decide_True in Hr by (simpl in Ha; lia); [discriminate|].
    apply printMask_zeros_le in Hr. lia.
  - rewrite Nat2Z.inj_succ, Z.pow_succ_r in Ha by lia.
    assert (0 < 10 ^ Z.of_nat k) by (apply Z.pow_pos_nonneg; lia).
    destruct turns as [|t]; cbn [printMask_zeros] in Hr;
      rewrite decide_True in Hr by lia; [discriminate|].
    apply IH in Hr; [lia|]. apply Z.quot_le_lower_bound; lia.
Qed.

Lemma printMask_ends mask : is_Some (printMask mask).
Proof.
  unfold printMask.
  destruct (printMask_zeros_ends (S (Z.to_nat (Z.log2 mask))) mask 4) as [r ->];
    [|done].
  rewrite Nat2Z.inj_succ, Z2Nat.id by apply Z.log2_nonneg.
  destruct (decide (0 < mask)) as [Hpos|Hneg].
  - apply Z.log2_spec in Hpos. lia.
  - assert (0 < 2 ^ Z.succ (Z.log2 mask)); [|lia].
    apply Z.pow_pos_nonneg; [lia|]. pose proof (Z.log2_nonneg mask). lia.
Qed.

Lemma printMask_checked : forallb printMask_check (seqZ 1 9999) = true.
Proof. vm_compute. reflexivity. Qed.

(** X2: [printMask] always ends.  For a mask from 1 to 9999 it writes
    exactly four characters and a line feed: the decimal notation of the
    mask behind as many zeros as it takes, which read back as the mask.  For
    the mask 0 it writes five zeros, and a mask above 9999 is written as it
    is. *)
Theorem printMask_four_places mask :
  is_Some (printMask mask) ∧
  (1 <= mask <= 9999 →
   printMask mask = Some (padded mask +:+ newline) ∧
   String.length (padded mask) = 4%nat ∧ digits (padded mask) 0 = mask) ∧
  (mask = 0 → printMask mask = Some ("00000" +:+ newline)) ∧
  (10000 <= mask → printMask mask = Some (pretty mask +:+ newline)).
Proof.
  split; [apply printMask_ends|]. split; [|split].
  - intros Hm. pose proof printMask_checked as Hall.
    rewrite forallb_forall in Hall.
    specialize (Hall mask). unfold printMask_check in Hall.
    apply bool_decide_eq_true in Hall; [done|].
    apply list_elem_of_In, elem_of_seqZ. lia.
  - intros ->. reflexivity.
  - intros Hm. destruct (printMask_ends mask) as [out Hout].
    unfold printMask in *.
    destruct (printMask_zeros _ mask 4) as [r|] eqn:Hr; [|done].
    apply (printMask_zeros_places 4) in Hr; [|simpl; lia].
    unfold leading_zeros. replace (Z.to_nat r) with O by lia. reflexivity.
Qed.

Lemma printMask_four_places_witness :
  printMask 22 = Some ("0022" +:+ newline) ∧
  printMask 0 = Some ("00000" +:+ newline) ∧
  printMask 12345 = Some ("12345" +:+ newline).
Proof.
  pose proof (printMask_four_places 22) as (_ & H22 & _).
  pose proof (printMask_four_places 0) as (_ & _ & H0 & _).
  pose proof (printMask_four_places 12345) as (_ & _ & _ & H5).
  split; [|split].
  - destruct H22 as [-> _]; [lia | reflexivity].
  - by apply H0.
  - rewrite H5 by lia. reflexivity.
Defined.
End PrintMask.

Section Mshumask.
Implicit Types (s : string) (c : ascii) (m : masks).

Lemma octal_char_listed c : octal_char c → c ∈ octal_chars.
Proof.
  unfold octal_char. intros H. rewrite <- (ascii_nat_embedding c).
  assert (nat_of_ascii c ∈ [48; 49; 50; 51; 52; 53; 54; 55]%nat) as Hn.
  { rewrite !elem_of_cons. lia. }
  revert Hn. generalize (nat_of_ascii c). intros n Hn.
  rewrite !elem_of_cons, elem_of_nil in Hn.
  destruct Hn as [->|[->|[->|[->|[->|[->|[->|[->|[]]]]]]]]];
    match goal with
    | |- ascii_of_nat ?n ∈ _ =>
        let c := eval vm_compute in (ascii_of_nat n) in
        change (ascii_of_nat n) with c
    end;
    unfold octal_chars; rewrite !elem_of_cons;
    repeat first [left; reflexivity | right].
Qed.

Lemma octal_strings_complete s :
  Forall octal_char (String.list_ascii_of_string s) →
  s ∈ octal_strings (String.length s).
Proof.
  induction s as [|c r IH]; intros H.
  - apply list_elem_of_singleton. done.
  - cbn [String.list_ascii_of_string] in H.
    apply Forall_cons in H as [Hc Hr].
    change (String c r ∈ (c' ← octal_chars;
                          r' ← octal_strings (String.length r);
                          [String c' r'])).
    apply list_elem_of_bind. exists c. split; [|by apply octal_char_listed].
    apply list_elem_of_bind. exists r. split; [|by apply IH].
    by apply list_elem_of_singleton.
Qed.

Lemma octal_arguments_complete s :
  s ≠ EmptyString → (String.length s ≤ 4)%nat →
  Forall octal_char (String.list_ascii_of_string s) →
  s ∈ octal_arguments.
Proof.
  intros Hne Hlen Hall. apply octal_strings_complete in Hall.
  unfold octal_arguments. rewrite !elem_of_app.
  destruct s as [|c1 [|c2 [|c3 [|c4 [|c5 r]]]]]; simpl in *;
    [done | tauto | tauto | tauto | tauto | lia].
Qed.

Lemma mshumask_checked : forallb mshumask_check octal_arguments = true.
Proof. vm_compute. reflexivity. Qed.

(** With an argument that starts with an octal digit, neither the content
    of [mappedMask] nor the masks at entry are read. *)
Lemma mshumask_fresh c r mappedMask m :
  octal_char c → octal (Some (String c r)) = 1 →
  mshumask (Some (String c r)) mappedMask m
  = mshumask (Some (String c r)) 0 initial_masks.
Proof.
  intros Hc Hok. apply octal_char_value in Hc. unfold mshumask.
  rewrite !decide_False by lia.
  unfold sscanf_o, umask. cbn [process_umask formattedMask].
  rewrite !decide_True by done. reflexivity.
Qed.
End Mshumask.

(** X3: an argument [octal] refuses, one of more than four characters or
    with a character outside 0 to 7, makes [mshumask] write the error line
    and leaves both masks as they were. *)
Theorem mshumask_refuses (s : string) (mappedMask : Z) (m : masks) :
  ¬ ((String.length s ≤ 4)%nat ∧
     Forall octal_char (String.list_ascii_of_string s)) →
  mshumask (Some s) mappedMask m = Some (m, [ErrInvalidArgument s]).
Proof.
  intros Hno. unfold mshumask.
  destruct (octal_characterised (Some s)) as [Hiff [H1|H0]].
  - apply Hiff in H1 as (s' & [= <-] & Hlen & Hall). by destruct Hno.
  - by rewrite decide_True.
Qed.

Lemma mshumask_refuses_witness :
  mshumask (Some "0o22"%string) 0 initial_masks
  = Some (initial_masks, [ErrInvalidArgument "0o22"]) ∧
  mshumask (Some "00022"%string) 0 initial_masks
  = Some (initial_masks, [ErrInvalidArgument "00022"]).
Proof.
  split; apply mshumask_refuses.
  - intros [_ H]. simpl in H.
    apply Forall_cons in H as [_ H]. apply Forall_cons in H as [H _].
    destruct H as [_ H]. compute in H. exact (H eq_refl).
  - intros [H _]. simpl in H. lia.
Defined.

(** X4: an argument of one to four octal digits makes [mshumask] hand the
    permission bits of its octal value to [umask], keep its decimal
    reading, which is at most 7777, in [formattedMask], and write one line:
    that reading filled up with zeros to four places, or five zeros when it
    is 0.  The line read as an octal number is the value of the argument,
    and a following [umask] without argument writes the same line. *)
Theorem mshumask_sets_and_shows (s : string) (mappedMask : Z) (m : masks) :
  s ≠ EmptyString → (String.length s ≤ 4)%nat →
  Forall octal_char (String.list_ascii_of_string s) →
  let m' := {| process_umask := Z.land (octal_digits s 0) 511;
               formattedMask := atoi s |} in
  let line := MaskOut (shown (atoi s) +:+ newline) in
  mshumask (Some s) mappedMask m = Some (m', [line]) ∧
  0 <= atoi s <= 7777 ∧
  octal_digits (shown (atoi s)) 0 = octal_digits s 0 ∧
  ∀ mappedMask', mshumask None mappedMask' m' = Some (m', [line]).
Proof.
  intros Hne Hlen Hall m' line.
  pose proof (octal_arguments_complete s Hne Hlen Hall) as Hin.
  pose proof mshumask_checked as Hck. rewrite forallb_forall in Hck.
  specialize (Hck s (proj1 (list_elem_of_In _ _) Hin)).
  unfold mshumask_check in Hck.
  assert (octal (Some s) = 1) as Hok.
  { apply (octal_characterised (Some s)). by exists s. }
  destruct s as [|c r]; [done|].
  pose proof Hall as Hall'. apply Forall_cons in Hall' as [Hc _].
  rewrite (mshumask_fresh c r mappedMask m Hc Hok).
  destruct (mshumask (Some (String c r)) 0 initial_masks)
    as [[m1 [|[out|a] [|l2 l]]]|]; try done.
  apply bool_decide_eq_true in Hck as (Hp & Hf & Hr & Ho & Hd & Hn).
  assert (m1 = m') as ->. { destruct m1. simpl in *. unfold m'. congruence. }
  subst out. done.
Qed.

Lemma mshumask_sets_and_shows_witness :
  mshumask (Some "27"%string) 99 initial_masks
  = Some ({| process_umask := 23; formattedMask := 27 |},
          [MaskOut ("0027" +:+ newline)]).
Proof.
  destruct (mshumask_sets_and_shows "27" 99 initial_masks) as [H _].
  - discriminate.
  - simpl. lia.
  - simpl.
    repeat (apply Forall_cons; split; [vm_compute; split; discriminate|]).
    by apply Forall_nil.
  - exact H.
Defined.

(** ** The [exit] built-in *)

Section Exit.
Implicit Types (l : list tjob) (pids : list Z) (k turns : nat).

Lemma mshexit_kills_spec turns k pids :
  (k + turns ≤ length pids)%nat →
  mshexit_kills turns (Z.of_nat k) pids
  = (λ pid, (pid, KILL)) <$> take turns (drop k pids).
Proof.
  revert k. induction turns as [|t IH]; intros k Hlen; [done|].
  cbn [mshexit_kills]. rewrite aget_nat.
  destruct (lookup_lt_is_Some_2 pids k ltac:(lia)) as [x Hx].
  rewrite Hx. cbn [default].
  replace (Z.of_nat k + 1) with (Z.of_nat (S k)) by lia.
  rewrite IH by lia.
  rewrite (drop_S pids x k Hx). reflexivity.
Qed.

Lemma mshexit_loop_spec turns k l :
  (k + turns ≤ length l)%nat →
  Forall job_ok (take turns (drop k l)) →
  mshexit_loop turns (Z.of_nat k) l
  = job ← take turns (drop k l); (λ pid, (pid, KILL)) <$> recorded job.
Proof.
  revert k. induction turns as [|t IH]; intros k Hlen Hok; [done|].
  cbn [mshexit_loop]. rewrite aget_nat.
  destruct (lookup_lt_is_Some_2 l k ltac:(lia)) as [job Hjob].
  rewrite Hjob. cbn [default].
  rewrite (drop_S l job k Hjob) in Hok |- *. cbn [take] in Hok |- *.
  apply Forall_cons in Hok as [[Hj0 Hj1] Hok].
  replace (Z.of_nat k + 1) with (Z.of_nat (S k)) by lia.
  rewrite IH by (done || lia).
  rewrite (mshexit_kills_spec _ 0) by (simpl; lia).
  reflexivity.
Qed.

(** The calls of [mshexit]. *)
Lemma mshexit_calls (jobs : tjobs) :
  0 <= jobs_size jobs <= Z.of_nat (length (jobs_list jobs)) →
  Forall job_ok (visible jobs) →
  mshexit jobs
  = (job ← visible jobs; (λ pid, (pid, KILL)) <$> recorded job, EXIT_SUCCESS).
Proof.
  intros Hsize Hok. unfold mshexit, visible in *. f_equal.
  rewrite (mshexit_loop_spec _ 0) by (done || simpl; lia). reflexivity.
Qed.

Lemma kill_targets_positive (pids : list Z) :
  Forall (λ pid, 0 < pid) pids →
  (λ c : Z * Z, kill_target c.1) <$> ((λ pid, (pid, KILL)) <$> pids)
  = Process <$> pids.
Proof.
  induction 1 as [|pid pids Hpid _ IH]; [done|].
  cbn [fmap list_fmap] in *. rewrite IH. f_equal.
  unfold kill_target. cbn [fst]. by rewrite decide_True.
Qed.

(** X5: [mshexit] calls [kill(pid, SIGKILL)] once for every process id
    recorded in a visible job, job by job and in the order of the commands,
    whether a job has finished or not, makes no other call of [kill], and
    ends the shell with status 0.  When all the recorded ids are positive,
    the signals go to exactly the recorded processes.  A recorded -1, which
    is what a failed [fork] leaves in a job, is handed to [kill] as it is:
    the call [kill(-1, SIGKILL)] signals every process the shell may
    signal. *)
Theorem mshexit_kills_the_visible_jobs (jobs : tjobs) :
  0 <= jobs_size jobs <= Z.of_nat (length (jobs_list jobs)) →
  Forall job_ok (visible jobs) →
  mshexit jobs
  = (job ← visible jobs; (λ pid, (pid, KILL)) <$> recorded job, EXIT_SUCCESS)
  ∧ (Forall (λ job, Forall (λ pid, 0 < pid) (recorded job)) (visible jobs) →
     (λ c : Z * Z, kill_target c.1) <$> (mshexit jobs).1
     = job ← visible jobs; Process <$> recorded job)
  ∧ (∀ job, job ∈ visible jobs → -1 ∈ recorded job →
            Everyone ∈ (λ c : Z * Z, kill_target c.1) <$> (mshexit jobs).1).
Proof.
  intros Hsize Hok. rewrite (mshexit_calls jobs Hsize Hok). cbn [fst].
  split; [done|]. split.
  - intros Hpos. clear Hok. induction Hpos as [|job l Hjob _ IH]; [done|].
    cbn [mbind list_bind]. rewrite fmap_app, IH. f_equal.
    by apply kill_targets_positive.
  - intros job Hjob Hin.
    apply (list_elem_of_fmap_2' _ _ (-1, KILL)); [|done].
    apply list_elem_of_bind. exists job. split; [|done].
    by apply (list_elem_of_fmap_2 (λ pid, (pid, KILL))).
Qed.

Lemma mshexit_kills_the_visible_jobs_witness :
  mshexit (sample_jobs [sample_job "a | b &" [10; 11]; sample_job "c &" [12]])
  = ([(10, KILL); (11, KILL); (12, KILL)], EXIT_SUCCESS).
Proof.
  apply mshexit_kills_the_visible_jobs.
  - vm_compute. split; discriminate.
  - vm_compute. repeat (apply Forall_cons_2; [split; discriminate|]).
    apply Forall_nil_2.
Defined.

(** X6: the wrap of the counter at 49 takes the jobs out of the reach of
    [exit]: after the background job that fills the fiftieth cell,
    [mshexit] sends no signal at all, so the fifty jobs outlive the shell. *)
Theorem mshexit_after_the_wrap line jobs buffer u w :
  background line = 1 →
  registry_ok jobs →
  jobs_size jobs = MAXIMUM_JOB_LIST_SIZE - 1 →
  mshexit (executeExternalCommands line jobs buffer u w).1 = ([], EXIT_SUCCESS).
Proof.
  intros Hbg [Hlen Hsize] H49.
  destruct (executeExternalCommands_background line jobs buffer u w Hbg)
    as (Hs & _); [lia | unfold MAXIMUM_JOB_LIST_SIZE in *; lia |].
  unfold mshexit. rewrite Hs, H49. reflexivity.
Qed.

Lemma mshexit_after_the_wrap_witness :
  mshexit crowded_jobs
  = ((λ i : nat, (100 + Z.of_nat i, KILL)) <$> seq 0 49, EXIT_SUCCESS) ∧
  mshexit (executeExternalCommands (sample_line 1 1) crowded_jobs "cmd &"
             junk_frame (sample_world [] [20] [])).1 = ([], EXIT_SUCCESS).
Proof.
  split; [reflexivity|]. apply mshexit_after_the_wrap.
  - reflexivity.
  - vm_compute. repeat split; intros; discriminate.
  - reflexivity.
Defined.
End Exit.

(** ** Polling never blocks *)

Section Poll.
Implicit Types (w : world) (job : tjob) (t : list event).

Lemma same_surroundings_refl w : same_surroundings w w.
Proof. by repeat split. Qed.

Lemma same_surroundings_trans w1 w2 w3 :
  same_surroundings w1 w2 → same_surroundings w2 w3 → same_surroundings w1 w3.
Proof. unfold same_surroundings. intros H1 H2. destruct_and!. repeat split; congruence. Qed.

Lemma waitpid_nohang_surroundings pid w :
  same_surroundings w (waitpid pid WNOHANG w).2.
Proof.
  unfold waitpid, waitpid_nohang. rewrite decide_True by done.
  repeat case_match; simplify_eq; by repeat split.
Qed.

(** The loop of [finished] adds polls to the trace and nothing else. *)
Lemma finished_loop_polls turns index pids w :
  ∃ t, trace (finished_loop turns index pids w).2 = trace w ++ t ∧
       Forall is_poll t ∧
       same_surroundings w (finished_loop turns index pids w).2.
Proof.
  revert index w. induction turns as [|n IH]; intros index w.
  - exists []. simpl. rewrite app_nil_r. split; [done|]. split; [done|].
    apply same_surroundings_refl.
  - cbn [finished_loop].
    pose proof (trace_waitpid (aget 0 pids index) WNOHANG w) as Ht.
    pose proof (waitpid_nohang_surroundings (aget 0 pids index) w) as Hs.
    destruct (waitpid (aget 0 pids index) WNOHANG w) as [r w1]. simpl in Ht, Hs.
    case_bool_decide.
    + destruct (IH (index + 1) w1) as (t & Ht' & Hp & Hs').
      exists (EWaitpid (aget 0 pids index) WNOHANG r :: t).
      split; [by rewrite Ht', Ht, <- app_assoc|].
      split; [|by eapply same_surroundings_trans].
      apply Forall_cons_2; [by eexists _, _ | done].
    + exists [EWaitpid (aget 0 pids index) WNOHANG r].
      split; [done|]. split; [|done].
      apply Forall_cons_2; [by eexists _, _ | done].
Qed.

(** [finished] only polls. *)
Lemma finished_polls job w :
  let r := finished job w in
  (r.1.1 = 0 ∧ r.1.2 = job ∨ r.1.1 = 1 ∧ r.1.2 = latch job) ∧
  (∃ t, trace r.2 = trace w ++ t ∧ Forall is_poll t) ∧
  same_surroundings w r.2.
Proof.
  unfold finished. case_decide as Hl.
  - simpl. split; [|split].
    + right. split; [done|]. destruct job. simpl in *. by subst.
    + exists []. by rewrite app_nil_r.
    + apply same_surroundings_refl.
  - destruct (finished_loop_polls (Z.to_nat (job_size job)) 0 (job_pids job) w)
      as (t & Ht & Hp & Hs).
    destruct (finished_loop _ 0 (job_pids job) w) as [[] w1]; simpl in *.
    + split; [by right|]. split; [by exists t | done].
    + split; [by left|]. split; [by exists t | done].
Qed.

(** X7: [finished] answers 0 or 1 and never blocks: it adds only
    [waitpid(..., WNOHANG)] calls to the trace and leaves descriptors,
    handler and environment alone.  With the answer 0 the job is as before;
    with the answer 1 the job is latched, and otherwise as before. *)
Theorem finished_polls_only job w :
  let r := finished job w in
  (r.1.1 = 0 ∧ r.1.2 = job ∨ r.1.1 = 1 ∧ r.1.2 = latch job) ∧
  (∃ t, trace r.2 = trace w ++ t ∧ Forall is_poll t) ∧
  same_surroundings w r.2.
Proof. apply finished_polls. Qed.
End Poll.

(** ** What a poll reaps *)

Section Reap.
Implicit Types (w : world) (ps : list (Z * pstatus)) (pid : Z) (st : pstatus).

Lemma awaited_positive w pid c : 0 < pid → awaited w pid c = bool_decide (c.1 = pid).
Proof. intros H. unfold awaited. by rewrite decide_True. Qed.

Lemma filter_none pid ps :
  pid ∉ ps.*1 → filter (λ c, bool_decide (c.1 = pid) = true) ps = [].
Proof.
  induction ps as [|c r IH]; [done|]. intros Hn.
  rewrite fmap_cons, not_elem_of_cons in Hn. destruct Hn as [Hc Hr].
  rewrite filter_cons. rewrite decide_False; [by apply IH|].
  rewrite bool_decide_eq_true. congruence.
Qed.

Lemma filter_one pid st ps :
  NoDup ps.*1 → (pid, st) ∈ ps →
  filter (λ c, bool_decide (c.1 = pid) = true) ps = [(pid, st)].
Proof.
  induction ps as [|c r IH]; intros Hnd Hin; [by apply elem_of_nil in Hin|].
  rewrite fmap_cons in Hnd. apply NoDup_cons in Hnd as [Hc Hr].
  rewrite filter_cons. apply elem_of_cons in Hin as [<-|Hin].
  - rewrite decide_True by (by rewrite bool_decide_eq_true).
    f_equal. by apply filter_none.
  - rewrite decide_False; [by apply IH|].
    rewrite bool_decide_eq_true. intros Heq. apply Hc. rewrite Heq.
    apply (list_elem_of_fmap_2 fst) in Hin. done.
Qed.

Lemma filter_all {A} (P : A → Prop) `{!∀ x, Decision (P x)} (l : list A) :
  Forall P l → filter P l = l.
Proof.
  induction 1 as [|x l Hx Hl IH]; [done|].
  rewrite filter_cons, decide_True by done. by rewrite IH.
Qed.

Lemma reap_filter pid ps :
  NoDup ps.*1 → reap pid ps = filter (λ c, c.1 ≠ pid) ps.
Proof.
  induction ps as [|c r IH]; intros Hnd; [done|].
  rewrite fmap_cons in Hnd. apply NoDup_cons in Hnd as [Hc Hr].
  cbn [reap]. rewrite filter_cons. case_decide as Hpid.
  - rewrite decide_False by (intros Hn; by apply Hn).
    symmetry. apply filter_all. apply Forall_forall. intros x Hx Heq.
    apply Hc. rewrite Hpid, <- Heq. by apply (list_elem_of_fmap_2 fst).
  - rewrite decide_True by done. f_equal. by apply IH.
Qed.

(** A poll of a child that has exited reaps it. *)
Lemma waitpid_nohang_exited pid w :
  0 < pid → NoDup (procs w).*1 → (pid, Exited) ∈ procs w →
  waitpid_nohang pid w
  = (pid, set_procs (filter (λ c, c.1 ≠ pid) (procs w)) w).
Proof.
  intros Hpos Hnd Hin. unfold waitpid_nohang.
  rewrite (list_filter_iff _ (λ c, bool_decide (c.1 = pid) = true))
    by (intros c; by rewrite awaited_positive).
  rewrite (filter_one pid Exited) by done.
  rewrite filter_cons, decide_True by done. simpl.
  by rewrite reap_filter.
Qed.

(** A poll of a process that runs, or is no child, reaps nothing and
    answers 0 or -1. *)
Lemma waitpid_nohang_other pid w :
  0 < pid → NoDup (procs w).*1 →
  (∀ st, (pid, st) ∈ procs w → st = Running) →
  ∃ r, waitpid_nohang pid w = (r, w) ∧ r ≠ pid.
Proof.
  intros Hpos Hnd Hrun. unfold waitpid_nohang.
  rewrite (list_filter_iff _ (λ c, bool_decide (c.1 = pid) = true))
    by (intros c; by rewrite awaited_positive).
  destruct (decide (pid ∈ (procs w).*1)) as [Hin|Hout].
  - apply list_elem_of_fmap in Hin as ([p st] & Hp & Hin). simpl in Hp. subst p.
    rewrite (filter_one pid st) by done.
    rewrite (Hrun st Hin). rewrite filter_cons, decide_False by done.
    exists 0. split; [done | lia].
  - rewrite filter_none by done. exists (-1). split; [done | lia].
Qed.
End Reap.

Section FinishedReaps.
Implicit Types (w : world) (pids pre rest : list Z) (k turns : nat).

Lemma aget_nat_Some {A} (d : A) (l : list A) (k : nat) x :
  l !! k = Some x → aget d l (Z.of_nat k) = x.
Proof. intros H. by rewrite aget_nat, H. Qed.

Lemma procs_waitpid_exited pid w :
  0 < pid → NoDup (procs w).*1 → (pid, Exited) ∈ procs w →
  (waitpid pid WNOHANG w).1 = pid ∧
  procs (waitpid pid WNOHANG w).2 = filter (λ c, c.1 ≠ pid) (procs w).
Proof.
  intros Hpos Hnd Hin. unfold waitpid. rewrite decide_True by done.
  by rewrite waitpid_nohang_exited.
Qed.

Lemma procs_waitpid_other pid w :
  0 < pid → NoDup (procs w).*1 → not_exited w pid →
  (waitpid pid WNOHANG w).1 ≠ pid ∧ procs (waitpid pid WNOHANG w).2 = procs w.
Proof.
  intros Hpos Hnd Hrun. unfold waitpid. rewrite decide_True by done.
  destruct (waitpid_nohang_other pid w Hpos Hnd Hrun) as (r & -> & Hr). done.
Qed.

Lemma NoDup_filter_fst (P : Z * pstatus → Prop) `{!∀ c, Decision (P c)}
    (ps : list (Z * pstatus)) :
  NoDup ps.*1 → NoDup (filter P ps).*1.
Proof.
  intros Hnd. apply (sublist_NoDup (filter P ps).*1 ps.*1); [exact Hnd|].
  apply fmap_sublist, sublist_filter.
Qed.

(** The loop of [finished] reaps the children it finds exited, in the order
    of the array, and stops at the first process that has not exited. *)
Lemma finished_loop_reaps pre rest turns k pids w :
  (k + turns ≤ length pids)%nat →
  take turns (drop k pids) = pre ++ rest →
  NoDup (procs w).*1 →
  NoDup (pre ++ rest) → Forall (λ pid, 0 < pid) (pre ++ rest) →
  Forall (λ pid, (pid, Exited) ∈ procs w) pre →
  match rest with [] => True | pid :: _ => not_exited w pid end →
  (finished_loop turns (Z.of_nat k) pids w).1 = bool_decide (rest = []) ∧
  procs (finished_loop turns (Z.of_nat k) pids w).2
  = filter (λ c, c.1 ∉ pre) (procs w).
Proof.
  revert turns k w.
  induction pre as [|q pre IH]; intros turns k w Hlen Htake Hnd Hndp Hpos Hex Hrest.
  - rewrite (filter_all (λ c, c.1 ∉ [])) by (apply Forall_forall; intros c _; apply not_elem_of_nil).
    destruct rest as [|pid rest]; simpl in Htake.
    + assert (turns = O) as ->.
      { apply (f_equal length) in Htake. rewrite length_take, length_drop in Htake.
        simpl in Htake. lia. }
      done.
    + destruct turns as [|t]; [done|].
      assert (pids !! k = Some pid) as Hk.
      { apply (f_equal (λ l, l !! 0%nat)) in Htake.
        rewrite lookup_take_lt, lookup_drop, Nat.add_0_r in Htake by lia. done. }
      cbn [finished_loop]. rewrite (aget_nat_Some _ _ _ _ Hk).
      apply Forall_cons in Hpos as [Hpid _].
      destruct (procs_waitpid_other pid w Hpid Hnd Hrest) as [Hr Hp].
      destruct (waitpid pid WNOHANG w) as [r w1]. simpl in Hr, Hp.
      rewrite (bool_decide_eq_false_2 (r = pid)) by done.
      rewrite (bool_decide_eq_false_2 (pid :: rest = [])) by done. done.
  - destruct turns as [|t]; [done|].
    assert (pids !! k = Some q) as Hk.
    { apply (f_equal (λ l, l !! 0%nat)) in Htake.
      rewrite lookup_take_lt, lookup_drop, Nat.add_0_r in Htake by lia. done. }
    rewrite (drop_S pids q k Hk) in Htake. cbn [take] in Htake.
    simpl in Htake. injection Htake as Htake.
    cbn [finished_loop]. rewrite (aget_nat_Some _ _ _ _ Hk).
    simpl in Hpos, Hndp.
    apply Forall_cons in Hpos as [Hq Hpos].
    apply Forall_cons in Hex as [Hqe Hex].
    apply NoDup_cons in Hndp as [Hqn Hndp].
    destruct (procs_waitpid_exited q w Hq Hnd Hqe) as [Hr Hp].
    destruct (waitpid q WNOHANG w) as [r w1]. simpl in Hr, Hp. subst r.
    rewrite bool_decide_eq_true_2 by done.
    replace (Z.of_nat k + 1) with (Z.of_nat (S k)) by lia.
    destruct (IH t (S k) w1) as [Hres Hprocs]; try done; try lia.
    + rewrite Hp. by apply NoDup_filter_fst.
    + rewrite Hp. eapply Forall_impl; [apply Forall_and; split; [exact Hex|]|].
      * apply Forall_forall. intros x Hx. exact Hx.
      * intros x [Hx Hin]. simpl in *. apply list_elem_of_filter. split; [|done].
        simpl. intros ->. apply Hqn, elem_of_app. by left.
    + destruct rest as [|pid rest']; [done|].
      intros st Hst. rewrite Hp in Hst. apply list_elem_of_filter in Hst as [_ Hst].
      by apply Hrest.
    + split; [done|]. rewrite Hprocs, Hp, list_filter_filter.
      apply list_filter_iff. intros c. rewrite not_elem_of_cons. tauto.
Qed.
End FinishedReaps.

(** What [finished] reaps, and what it answers. *)
Lemma finished_reaps (job : tjob) (w : world)
    (pre rest : list Z) :
  job_finished job ≠ 1 → job_ok job →
  recorded job = pre ++ rest →
  NoDup (recorded job) → Forall (λ pid, 0 < pid) (recorded job) →
  NoDup (procs w).*1 →
  Forall (λ pid, (pid, Exited) ∈ procs w) pre →
  match rest with [] => True | pid :: _ => not_exited w pid end →
  let r := finished job w in
  r.1 = (if rest is [] then (1, latch job) else (0, job)) ∧
  procs r.2 = filter (λ c, c.1 ∉ pre) (procs w).
Proof.
  intros Hl [Hs0 Hs1] Hrec Hndp Hpos Hnd Hex Hrest. unfold recorded in *.
  unfold finished. rewrite decide_False by done.
  destruct (finished_loop_reaps pre rest (Z.to_nat (job_size job)) 0
              (job_pids job) w) as [Hres Hprocs]; try done;
    try (by rewrite <- Hrec); [simpl; lia|].
  change (Z.of_nat 0) with 0 in *.
  destruct (finished_loop _ 0 (job_pids job) w) as [b w1]. simpl in *.
  subst b. destruct rest; simpl; done.
Qed.

(** X8: [finished] on a job that is not latched, whose recorded process
    ids are positive and different and whose children appear once in the
    table: the ids split into the longest run of children that have exited
    and the rest.  [finished] reaps exactly that run, answers 1 and
    latches the job when nothing is left, and answers 0, without a note of
    what it has reaped, when the run stops at a process that has not
    exited. *)
Theorem finished_reaps_the_exited_prefix (job : tjob) (w : world)
    (pre rest : list Z) :
  job_finished job ≠ 1 → job_ok job →
  recorded job = pre ++ rest →
  NoDup (recorded job) → Forall (λ pid, 0 < pid) (recorded job) →
  NoDup (procs w).*1 →
  Forall (λ pid, (pid, Exited) ∈ procs w) pre →
  match rest with [] => True | pid :: _ => not_exited w pid end →
  let r := finished job w in
  r.1 = (if rest is [] then (1, latch job) else (0, job)) ∧
  procs r.2 = filter (λ c, c.1 ∉ pre) (procs w).
Proof. apply finished_reaps. Qed.

Lemma finished_reaps_the_exited_prefix_witness :
  let job := sample_job "a | b | c &" [10; 11; 12] in
  let w := sample_world [(10, Exited); (11, Exited); (12, Running)] [] [] in
  (finished job w).1 = (0, job) ∧ procs (finished job w).2 = [(12, Running)].
Proof.
  intros job w.
  destruct (finished_reaps_the_exited_prefix job w [10; 11] [12]) as [H1 H2].
  - discriminate.
  - evaluate.
  - reflexivity.
  - evaluate.
  - evaluate.
  - evaluate.
  - evaluate.
  - intros st Hst. apply list_elem_of_In in Hst. simpl in Hst.
    intuition congruence.
  - split; [exact H1|]. rewrite H2. reflexivity.
Defined.

(** ** The listing *)

Section Listing.
Implicit Types (w : world) (st : jobs_state) (t : list event) (k turns : nat).

Lemma printed_app t1 t2 : printed (t1 ++ t2) = printed t1 ++ printed t2.
Proof. unfold printed. apply filter_app. Qed.

Lemma done_lines_app t1 t2 :
  done_lines (t1 ++ t2) = (done_lines t1 + done_lines t2)%nat.
Proof. unfold done_lines. by rewrite filter_app, length_app. Qed.

Lemma printed_polls t : Forall is_poll t → printed t = [].
Proof.
  induction 1 as [|e t (pid & r & ->) _ IH]; [done|].
  unfold printed in *. rewrite filter_cons, decide_False by done. exact IH.
Qed.

Lemma done_lines_polls t : Forall is_poll t → done_lines t = O.
Proof.
  induction 1 as [|e t (pid & r & ->) _ IH]; [done|].
  unfold done_lines in *. rewrite filter_cons, decide_False by done. exact IH.
Qed.

Lemma nonblocking_polls t : Forall is_poll t → Forall nonblocking t.
Proof. intros H. eapply Forall_impl; [exact H|]. intros e He. by right. Qed.

Lemma same_surroundings_emit e w : same_surroundings w (emit e w).
Proof. by repeat split. Qed.

(** One turn of the first loop of [mshjobs] on the job in cell [k]. *)
Lemma mshjobs_body_spec k st job :
  jobs_list (js_jobs st) !! k = Some job →
  0 <= js_finishedJobsSize st → js_finishedJobsSize st + 1 < MAXIMUM_JOB_LIST_SIZE →
  let st' := mshjobs_body (Z.of_nat k) st in
  ∃ t e, trace (js_world st') = trace (js_world st) ++ t ++ [e] ∧
    Forall is_poll t ∧ status_line k job e ∧
    js_finishedJobsSize st'
    = js_finishedJobsSize st + (if is_done e then 1 else 0) ∧
    length (js_finishedJobs st') = length (js_finishedJobs st) ∧
    jobs_size (js_jobs st') = jobs_size (js_jobs st) ∧
    (∃ job', jobs_list (js_jobs st') = <[k := job']> (jobs_list (js_jobs st))) ∧
    (is_done e = false → js_jobs st' = js_jobs st) ∧
    same_surroundings (js_world st) (js_world st').
Proof.
  intros Hjob Hf0 Hf1. unfold mshjobs_body.
  rewrite (aget_nat_Some _ _ _ _ Hjob).
  destruct (finished_polls job (js_world st)) as (Hr & (t & Ht & Hp) & Hs).
  destruct (finished job (js_world st)) as [[r job'] w1]. simpl in Hr, Ht, Hs.
  destruct Hr as [[-> ->]|[-> ->]].
  - rewrite decide_True by done. cbn.
    exists t, (OutRunning (Z.of_nat k + 1) (job_instruction job)).
    split; [by rewrite Ht, <- app_assoc|]. split; [done|].
    split; [by right|]. split; [simpl; lia|]. split; [done|]. split; [done|].
    split; [eexists; by rewrite aset_nat|].
    split; [|eapply same_surroundings_trans; [exact Hs|apply same_surroundings_emit]].
    intros _. destruct (js_jobs st) as [l s]. unfold set_job. simpl in *.
    f_equal. rewrite aset_nat. by apply list_insert_id.
  - rewrite decide_False by done. cbn.
    exists t, (OutDone (Z.of_nat k + 1) (job_instruction job)).
    split; [by rewrite Ht, <- app_assoc|]. split; [done|].
    split; [by left|]. split.
    { simpl. apply Z.rem_small. lia. }
    split; [apply length_aset|]. split; [done|].
    split; [eexists; by rewrite aset_nat|].
    split; [done|].
    eapply same_surroundings_trans; [exact Hs|apply same_surroundings_emit].
Qed.
End Listing.

Section ListingLoop.
Implicit Types (w : world) (st : jobs_state) (t : list event) (k turns : nat).

Lemma status_line_printed k job e : status_line k job e → printed [e] = [e].
Proof. by intros [->| ->]. Qed.

Lemma status_line_done k job e :
  status_line k job e → done_lines [e] = if is_done e then 1%nat else 0%nat.
Proof. by intros [->| ->]. Qed.

(** The first loop of [mshjobs] over the cells [k], [k + 1], ... *)
Lemma mshjobs_loop_spec turns k st :
  (k + turns ≤ length (jobs_list (js_jobs st)))%nat →
  0 <= js_finishedJobsSize st →
  js_finishedJobsSize st + Z.of_nat turns < MAXIMUM_JOB_LIST_SIZE →
  let st' := mshjobs_loop turns (Z.of_nat k) st in
  ∃ t, trace (js_world st') = trace (js_world st) ++ t ∧
    Forall nonblocking t ∧
    length (printed t) = turns ∧
    (∀ i job, jobs_list (js_jobs st) !! (k + i)%nat = Some job → (i < turns)%nat →
              ∃ e, printed t !! i = Some e ∧ status_line (k + i) job e) ∧
    js_finishedJobsSize st' = js_finishedJobsSize st + Z.of_nat (done_lines t) ∧
    jobs_size (js_jobs st') = jobs_size (js_jobs st) ∧
    length (jobs_list (js_jobs st')) = length (jobs_list (js_jobs st)) ∧
    (done_lines t = O → js_jobs st' = js_jobs st) ∧
    same_surroundings (js_world st) (js_world st').
Proof.
  revert k st. induction turns as [|n IH]; intros k st Hlen Hf0 Hf1.
  - exists []. simpl. rewrite app_nil_r.
    split; [done|]. split; [done|]. split; [done|].
    split; [intros i job _ Hi; lia|].
    split; [change (done_lines []) with O; lia|].
    split; [done|]. split; [done|]. split; [done|].
    apply same_surroundings_refl.
  - destruct (lookup_lt_is_Some_2 (jobs_list (js_jobs st)) k ltac:(lia))
      as [job Hjob].
    destruct (mshjobs_body_spec k st job Hjob Hf0 ltac:(lia))
      as (t1 & e & Ht1 & Hp1 & He & Hfjs & Hfl & Hsz & [job' Hl] & Hsame & Hs1).
    cbn [mshjobs_loop]. replace (Z.of_nat k + 1) with (Z.of_nat (S k)) by lia.
    set (st1 := mshjobs_body (Z.of_nat k) st) in *.
    destruct (IH (S k) st1) as (t2 & Ht2 & Hn2 & Hlen2 & Hst2 & Hfjs2 & Hsz2 & Hl2 & Hsame2 & Hs2).
    { rewrite Hl, length_insert. lia. }
    { rewrite Hfjs. destruct (is_done e); lia. }
    { rewrite Hfjs. destruct (is_done e); lia. }
    exists ((t1 ++ [e]) ++ t2).
    assert (printed ((t1 ++ [e]) ++ t2) = e :: printed t2) as Hpr.
    { rewrite !printed_app, (printed_polls t1 Hp1), (status_line_printed _ _ _ He). done. }
    assert (done_lines ((t1 ++ [e]) ++ t2)
            = ((if is_done e then 1 else 0) + done_lines t2)%nat) as Hdn.
    { rewrite !done_lines_app, (done_lines_polls t1 Hp1), (status_line_done _ _ _ He). done. }
    split; [by rewrite Ht2, Ht1, !app_assoc|].
    split.
    { apply Forall_app. split; [apply Forall_app; split|done].
      - by apply nonblocking_polls.
      - apply Forall_cons_2; [|done]. left. by destruct He as [->| ->]. }
    split; [rewrite Hpr; simpl; lia|].
    split.
    { intros i job0 Hjob0 Hi. rewrite Hpr. destruct i as [|i].
      - rewrite Nat.add_0_r in Hjob0 |- *. simplify_eq. by exists e.
      - simpl. destruct (Hst2 i job0) as (e' & He' & Hst'); [|lia|].
        + rewrite Hl, list_lookup_insert_ne by lia.
          by replace (S k + i)%nat with (k + S i)%nat by lia.
        + exists e'. split; [done|].
          by replace (k + S i)%nat with (S k + i)%nat by lia. }
    split; [rewrite Hfjs2, Hfjs, Hdn; destruct (is_done e); lia|].
    split; [congruence|].
    split; [rewrite Hl2, Hl, length_insert; done|].
    split; [|by eapply same_surroundings_trans].
    rewrite Hdn. intros Hz. destruct (is_done e) eqn:Hd; [lia|].
    rewrite Hsame2 by lia. by apply Hsame.
Qed.

(** Every [delete] of the second loop takes one off the counter. *)
Lemma delete_registry_ok job jobs :
  registry_ok jobs → 1 <= jobs_size jobs →
  registry_ok (delete job jobs) ∧
  jobs_size (delete job jobs) = jobs_size jobs - 1.
Proof.
  intros [Hlen Hsize] H1. unfold MAXIMUM_JOB_LIST_SIZE in *.
  assert (jobs_size (delete job jobs) = jobs_size jobs - 1) as Hs.
  { unfold delete, MAXIMUM_JOB_LIST_SIZE. cbn [jobs_size]. apply Z.rem_small. lia. }
  split; [|done]. split.
  - unfold delete. cbn [jobs_list]. by rewrite length_delete_loop.
  - unfold MAXIMUM_JOB_LIST_SIZE. lia.
Qed.

Lemma mshjobs_delete_registry_ok turns j finishedJobs jobs :
  registry_ok jobs → Z.of_nat turns <= jobs_size jobs →
  registry_ok (mshjobs_delete turns j finishedJobs jobs) ∧
  jobs_size (mshjobs_delete turns j finishedJobs jobs)
  = jobs_size jobs - Z.of_nat turns.
Proof.
  revert j jobs. induction turns as [|n IH]; intros j jobs Hok Hn.
  - simpl. split; [done | lia].
  - cbn [mshjobs_delete].
    destruct (delete_registry_ok (aget 0 finishedJobs j) jobs Hok ltac:(lia))
      as [Hok' Hs'].
    destruct (IH (j + 1) _ Hok' ltac:(lia)) as [Hok'' Hs'']. split; [done | lia].
Qed.
End ListingLoop.

Section ListingTheorems.
Implicit Types (w : world) (jobs : tjobs) (t : list event).

Lemma done_lines_printed t : (done_lines t ≤ length (printed t))%nat.
Proof.
  unfold done_lines, printed. induction t as [|e t IH]; [done|].
  rewrite !filter_cons. destruct e; simpl; repeat case_decide; simpl; try done; lia.
Qed.

(** What the two loops of [mshjobs] do together. *)
Lemma mshjobs_spec jobs w :
  registry_ok jobs →
  let r := mshjobs jobs w in
  ∃ t, trace r.2 = trace w ++ t ∧
    Forall nonblocking t ∧ same_surroundings w r.2 ∧
    length (printed t) = length (visible jobs) ∧
    (∀ i job, visible jobs !! i = Some job →
              ∃ e, printed t !! i = Some e ∧ status_line i job e) ∧
    registry_ok r.1 ∧
    jobs_size r.1 = jobs_size jobs - Z.of_nat (done_lines t) ∧
    (done_lines t = O → r.1 = jobs).
Proof.
  intros [Hlen Hsize]. unfold mshjobs. cbn [fst snd].
  set (st0 := {| js_jobs := jobs;
                 js_finishedJobs := replicate (Z.to_nat MAXIMUM_JOB_LIST_SIZE) 0;
                 js_finishedJobsSize := 0; js_world := w |}).
  destruct (mshjobs_loop_spec (Z.to_nat (jobs_size jobs)) 0 st0)
    as (t & Ht & Hnb & Hpl & Hst & Hfjs & Hsz & Hll & Hsame & Hs).
  { simpl. rewrite Hlen. unfold MAXIMUM_JOB_LIST_SIZE in *. lia. }
  { simpl. lia. }
  { simpl. lia. }
  change (Z.of_nat 0) with 0 in *.
  set (st1 := mshjobs_loop (Z.to_nat (jobs_size jobs)) 0 st0) in *.
  simpl in Ht, Hfjs, Hsz, Hll, Hs, Hsame, Hst.
  pose proof (done_lines_printed t) as Hdp.
  assert (registry_ok (js_jobs st1)) as Hok1.
  { split; [congruence | by rewrite Hsz]. }
  destruct (mshjobs_delete_registry_ok (Z.to_nat (js_finishedJobsSize st1)) 0
              (js_finishedJobs st1) (js_jobs st1) Hok1) as [Hok2 Hs2].
  { rewrite Hfjs, Hsz. lia. }
  exists t. split; [done|]. split; [done|]. split; [done|].
  assert (length (visible jobs) = Z.to_nat (jobs_size jobs)) as Hv.
  { unfold visible. rewrite length_take. unfold MAXIMUM_JOB_LIST_SIZE in *. lia. }
  split; [congruence|]. split.
  { intros i job Hjob. apply Hst.
    - unfold visible in Hjob. apply lookup_take_Some in Hjob as [Hjob _]. done.
    - apply lookup_lt_Some in Hjob. lia. }
  split; [done|]. split; [rewrite Hs2, Hfjs, Hsz; lia|].
  intros Hz. rewrite Hfjs, Hz. simpl. by apply Hsame.
Qed.

(** X9: [mshjobs] writes one status line for every visible job: the line
    of the job in slot [i + 1] is the [i]-th line written, carries that slot
    number and the text of the job, and says "Done" or "Running". *)
Theorem mshjobs_lists_every_job jobs w :
  registry_ok jobs →
  ∃ t, trace (mshjobs jobs w).2 = trace w ++ t ∧
    length (printed t) = length (visible jobs) ∧
    ∀ i job, visible jobs !! i = Some job →
             ∃ e, printed t !! i = Some e ∧ status_line i job e.
Proof.
  intros Hok. destruct (mshjobs_spec jobs w Hok) as (t & Ht & _ & _ & Hl & Hst & _).
  by exists t.
Qed.

(** X10: [mshjobs] never blocks: all it asks of the system are polls with
    WNOHANG, and it leaves descriptors, handler and environment alone. *)
Theorem mshjobs_never_blocks jobs w :
  registry_ok jobs →
  (∃ t, trace (mshjobs jobs w).2 = trace w ++ t ∧ Forall nonblocking t) ∧
  same_surroundings w (mshjobs jobs w).2.
Proof.
  intros Hok. destruct (mshjobs_spec jobs w Hok) as (t & Ht & Hnb & Hs & _).
  split; [by exists t | done].
Qed.

(** X11: [mshjobs] keeps the registry in its bounds and takes one off the
    counter for every "Done" line it has written; a listing without a
    "Done" line leaves the registry as it was. *)
Theorem mshjobs_counts_the_done_lines jobs w :
  registry_ok jobs →
  ∃ t, trace (mshjobs jobs w).2 = trace w ++ t ∧
    registry_ok (mshjobs jobs w).1 ∧
    jobs_size (mshjobs jobs w).1 = jobs_size jobs - Z.of_nat (done_lines t) ∧
    (done_lines t = O → (mshjobs jobs w).1 = jobs).
Proof.
  intros Hok.
  destruct (mshjobs_spec jobs w Hok) as (t & Ht & _ & _ & _ & _ & Hok' & Hs & Hsame).
  by exists t.
Qed.
End ListingTheorems.

Lemma mshjobs_lists_every_job_witness :
  let jobs := sample_jobs [sample_job "a &" [10]; sample_job "b &" [11]] in
  let w := sample_world [(10, Exited); (11, Running)] [] [] in
  ∃ t, trace (mshjobs jobs w).2 = trace w ++ t ∧
       length (printed t) = 2%nat ∧
       ∃ e, printed t !! 1%nat = Some e ∧
            status_line 1 (sample_job "b &" [11]) e.
Proof.
  intros jobs w.
  destruct (mshjobs_lists_every_job jobs w) as (t & Ht & Hl & Hst); [evaluate|].
  exists t. split; [exact Ht|]. split; [exact Hl|].
  apply Hst. reflexivity.
Defined.

Lemma mshjobs_never_blocks_witness :
  let jobs := sample_jobs [sample_job "a &" [10]; sample_job "b &" [11]] in
  let w := sample_world [(10, Exited); (11, Running)] [] [Interrupted] in
  wait_ev (mshjobs jobs w).2 = [Interrupted].
Proof.
  intros jobs w.
  destruct (mshjobs_never_blocks jobs w) as [_ Hs]; [evaluate|].
  unfold same_surroundings in Hs. destruct_and!. done.
Defined.

Lemma mshjobs_counts_the_done_lines_witness :
  let jobs := sample_jobs [sample_job "a &" [10]; sample_job "b &" [11]] in
  let w := sample_world [(10, Exited); (11, Running)] [] [] in
  ∃ t, trace (mshjobs jobs w).2 = trace w ++ t ∧
       jobs_size (mshjobs jobs w).1 = 2 - Z.of_nat (done_lines t).
Proof.
  intros jobs w.
  destruct (mshjobs_counts_the_done_lines jobs w) as (t & Ht & _ & Hs & _);
    [evaluate|].
  exists t. split; [exact Ht | exact Hs].
Defined.

(** ** Promotion to the foreground *)

Section BlockingWait.
Implicit Types (w : world) (pid : Z) (pids : list Z) (k turns : nat).

Lemma uninterrupted_tail w l :
  uninterrupted w → wait_ev w = l ∨ tail (wait_ev w) = l → Interrupted ∉ l.
Proof.
  unfold uninterrupted. intros Hu [<-| <-]; [done|].
  destruct (wait_ev w) as [|e l']; [done|]. simpl.
  rewrite not_elem_of_cons in Hu. tauto.
Qed.

(** A blocking wait for one child that is not interrupted leaves the table
    without that child, whether it had to sleep or not. *)
Lemma waitpid_block_reaps pid w :
  0 < pid → NoDup (procs w).*1 → uninterrupted w →
  procs (waitpid_block pid w).2 = filter (λ c, c.1 ≠ pid) (procs w) ∧
  uninterrupted (waitpid_block pid w).2.
Proof.
  intros Hpos Hnd Hu. unfold waitpid_block.
  rewrite (list_filter_iff _ (λ c, bool_decide (c.1 = pid) = true))
    by (intros c; by rewrite awaited_positive).
  destruct (decide (pid ∈ (procs w).*1)) as [Hin|Hout].
  - apply list_elem_of_fmap in Hin as ([p st] & Hp & Hin). simpl in Hp. subst p.
    rewrite (filter_one pid st) by done. destruct st.
    + rewrite filter_cons, decide_False by done. rewrite filter_nil.
      destruct (wait_ev w) as [|[e|] l] eqn:Hev; simpl.
      * rewrite reap_filter by done. split; [done|].
        unfold uninterrupted. simpl. apply not_elem_of_nil.
      * assert (Interrupted ∉ l) as Hl.
        { apply (uninterrupted_tail w); [done|]. right. by rewrite Hev. }
        case_bool_decide as He.
        -- apply list_elem_of_singleton in He. subst e.
           rewrite reap_filter by done. done.
        -- rewrite reap_filter by done. done.
      * exfalso. apply Hu. rewrite Hev. by left.
    + rewrite filter_cons, decide_True by done. simpl.
      rewrite reap_filter by done. done.
  - rewrite filter_none by done. split; [|done].
    symmetry. apply filter_all, Forall_forall. intros c Hc Heq.
    apply Hout. rewrite <- Heq. by apply (list_elem_of_fmap_2 fst).
Qed.

Lemma mshfg_wait_reaps turns k pids w :
  (k + turns ≤ length pids)%nat →
  Forall (λ pid, 0 < pid) (take turns (drop k pids)) →
  NoDup (procs w).*1 → uninterrupted w →
  procs (mshfg_wait turns (Z.of_nat k) pids w)
  = filter (λ c, c.1 ∉ take turns (drop k pids)) (procs w).
Proof.
  revert k w. induction turns as [|t IH]; intros k w Hlen Hpos Hnd Hu.
  - simpl. symmetry. apply filter_all, Forall_forall. intros c _.
    apply not_elem_of_nil.
  - destruct (lookup_lt_is_Some_2 pids k ltac:(lia)) as [pid Hpid].
    rewrite (drop_S pids pid k Hpid) in Hpos |- *. cbn [take] in Hpos |- *.
    apply Forall_cons in Hpos as [Hp Hpos].
    cbn [mshfg_wait]. rewrite (aget_nat_Some _ _ _ _ Hpid).
    unfold waitpid. rewrite decide_False by done.
    destruct (waitpid_block_reaps pid w Hp Hnd Hu) as [Hprocs Hu'].
    destruct (waitpid_block pid w) as [r w1]. simpl in Hprocs, Hu'.
    replace (Z.of_nat k + 1) with (Z.of_nat (S k)) by lia.
    rewrite IH; try done; try lia.
    + simpl. rewrite Hprocs, list_filter_filter.
      apply list_filter_iff. intros c. rewrite not_elem_of_cons. tauto.
    + simpl. rewrite Hprocs. by apply NoDup_filter_fst.
Qed.

(** The recorded ids of a job split into those found exited from the
    start of the array and the rest. *)
Lemma exited_prefix pids w :
  ∃ pre rest, pids = pre ++ rest ∧
    Forall (λ pid, (pid, Exited) ∈ procs w) pre ∧
    match rest with [] => True | pid :: _ => not_exited w pid end.
Proof.
  induction pids as [|pid pids (pre & rest & -> & Hpre & Hrest)].
  - by exists [], [].
  - destruct (decide ((pid, Exited) ∈ procs w)) as [Hin|Hout].
    + exists (pid :: pre), rest. split; [done|]. split; [|done].
      by apply Forall_cons_2.
    + exists [], (pid :: pre ++ rest). split; [done|]. split; [done|].
      intros [] Hst; [done|]. by destruct Hout.
Qed.
End BlockingWait.

Section Promotion.
Implicit Types (w : world) (jobs : tjobs) (arg : option string) (job : tjob).

Lemma visible_set_job_ne (j : Z) job jobs (i : nat) :
  Z.of_nat i ≠ j → visible (set_job j job jobs) !! i = visible jobs !! i.
Proof.
  intros Hi. unfold visible, set_job. cbn [jobs_list jobs_size].
  destruct (decide (i < Z.to_nat (jobs_size jobs))%nat).
  - rewrite !lookup_take_lt by done. by apply lookup_aset_ne.
  - by rewrite !lookup_take_ge by lia.
Qed.

Lemma registry_ok_set_job (j : Z) job jobs :
  registry_ok jobs → registry_ok (set_job j job jobs).
Proof.
  intros [Hlen Hsize]. split; [|done].
  unfold set_job. cbn [jobs_list]. by rewrite length_aset.
Qed.

(** [mshfg] with an argument that names a job. *)
Lemma mshfg_valid arg jobs w :
  registry_ok jobs → 0 <= mapped arg <= jobs_size jobs - 1 →
  ∃ job' w',
    mshfg arg jobs w
    = (delete (mapped arg) (set_job (mapped arg) job' jobs), signal ctrlc w').
Proof.
  intros Hok Hm. unfold mapped in *. unfold mshfg.
  rewrite decide_False by lia.
  rewrite decide_False by lia.
  repeat case_match; simplify_eq; eauto.
Qed.

(** X12: [mshfg] with an argument that names slot [k + 1] of the registry
    takes exactly that job out: the counter goes down by one, the jobs
    before the slot stay, the jobs behind it move one slot down, and the
    registry stays in its bounds, whatever became of the processes. *)
Theorem mshfg_removes_the_named_job arg jobs w :
  registry_ok jobs → 0 <= mapped arg <= jobs_size jobs - 1 →
  let r := mshfg arg jobs w in
  registry_ok r.1 ∧
  jobs_size r.1 = jobs_size jobs - 1 ∧
  (∀ i : nat, Z.of_nat i < mapped arg → visible r.1 !! i = visible jobs !! i) ∧
  (∀ i : nat, mapped arg <= Z.of_nat i → visible r.1 !! i = visible jobs !! S i).
Proof.
  intros Hok Hm. destruct (mshfg_valid arg jobs w Hok Hm) as (job' & w' & ->).
  cbn [fst].
  pose proof (registry_ok_set_job (mapped arg) job' jobs Hok) as Hok1.
  destruct (delete_registry_ok (mapped arg) _ Hok1) as [Hok2 Hs2].
  { unfold set_job. cbn [jobs_size]. lia. }
  destruct (delete_visible (mapped arg) _ Hok1) as (_ & Hlt & Hge).
  { unfold set_job. cbn [jobs_size]. lia. }
  split; [done|]. split; [exact Hs2|]. split.
  - intros i Hi. rewrite Hlt by done. apply visible_set_job_ne. lia.
  - intros i Hi. rewrite Hge by done. apply visible_set_job_ne. lia.
Qed.

Lemma mshfg_removes_the_named_job_witness :
  let jobs := sample_jobs [sample_job "a &" [10]; sample_job "b &" [11];
                           sample_job "c &" [12]] in
  let w := sample_world [(10, Running); (11, Running); (12, Running)] [] [] in
  visible (mshfg (Some "2"%string) jobs w).1 !! 1%nat = visible jobs !! 2%nat.
Proof.
  intros jobs w.
  destruct (mshfg_removes_the_named_job (Some "2"%string) jobs w)
    as (_ & _ & _ & Hge); [evaluate | evaluate |].
  apply Hge. evaluate.
Defined.

(** The two ways [mshfg] refuses, on the value of [mappedJob]. *)
Lemma mshfg_refuses arg jobs w :
  (jobs_size jobs = 0 → mshfg arg jobs w = (jobs, emit OutNoJobs w)) ∧
  (jobs_size jobs ≠ 0 →
   mapped arg < 0 ∨ mapped arg > jobs_size jobs - 1 →
   mshfg arg jobs w = (jobs, emit ErrNoSuchJob w)).
Proof.
  unfold mapped, mshfg. split.
  - intros H0. by rewrite decide_True.
  - intros H0 Hm. rewrite decide_False by done. by rewrite decide_True.
Qed.

(** X13: with jobs in the registry, an argument of [fg] whose text denotes
    a number above the number of jobs, up to INT_MAX, the largest value of
    an [int], is refused: [mshfg] writes "fg: Error. No such job" and
    nothing else, and registry, children, handler and environment are as
    before. *)
Theorem mshfg_refuses_without_effect (job : string) jobs w n :
  0 < jobs_size jobs →
  denotes job = Some n → jobs_size jobs < n <= INT_MAX →
  mshfg (Some job) jobs w = (jobs, emit ErrNoSuchJob w).
Proof.
  intros Hs Hn Hr.
  apply (mshfg_refuses (Some job) jobs w); [lia|]. right.
  change (mapped (Some job)) with (wrap32 (atoi job - 1)).
  rewrite (atoi_denotes job n Hn) by (unfold INT_MIN, INT_MAX in *; lia).
  rewrite wrap32_id by (unfold INT_MIN, INT_MAX in *; lia). lia.
Qed.

Lemma mshfg_refuses_without_effect_witness :
  let w := sample_world [(10, Running)] [] [] in
  mshfg (Some "2"%string) (sample_jobs [sample_job "a &" [10]]) w
  = (sample_jobs [sample_job "a &" [10]], emit ErrNoSuchJob w) ∧
  mshfg (Some " +2147483647 jobs"%string) (sample_jobs [sample_job "a &" [10]]) w
  = (sample_jobs [sample_job "a &" [10]], emit ErrNoSuchJob w).
Proof.
  intros w. split.
  - apply (mshfg_refuses_without_effect "2" _ w 2);
      [evaluate | reflexivity | evaluate].
  - apply (mshfg_refuses_without_effect " +2147483647 jobs" _ w 2147483647);
      [evaluate | reflexivity | evaluate].
Defined.

(** X14: [mshfg] on a job that is not latched, with positive, different
    process ids, in a shell whose children appear once in the table and
    whose waits are not interrupted: when [mshfg] returns, none of the
    processes of the job is a child any more, every other child is as it
    was, and the handler is [ctrlc]. *)
Theorem mshfg_waits_for_the_whole_job arg jobs w job :
  registry_ok jobs → 0 <= mapped arg <= jobs_size jobs - 1 →
  jobs_list jobs !! Z.to_nat (mapped arg) = Some job →
  job_finished job ≠ 1 → job_ok job →
  NoDup (recorded job) → Forall (λ pid, 0 < pid) (recorded job) →
  NoDup (procs w).*1 → uninterrupted w →
  let r := mshfg arg jobs w in
  procs r.2 = filter (λ c, c.1 ∉ recorded job) (procs w) ∧ sigint r.2 = ctrlc.
Proof.
  intros Hok Hm Hjob Hl Hjok Hndp Hpos Hnd Hu r. subst r.
  split; [|by apply sigint_mshfg_valid; [lia|]].
  unfold mapped in *. unfold mshfg.
  rewrite decide_False by lia. rewrite decide_False by lia.
  rewrite (aget_lookup _ _ _ job) by (done || lia).
  destruct (exited_prefix (recorded job) w) as (pre & rest & Hrec & Hpre & Hrest).
  destruct (finished_reaps job (signal SIG_IGN w) pre rest)
    as [Hres Hprocs]; try done.
  destruct (finished_polls job (signal SIG_IGN w)) as (_ & _ & Hs).
  destruct (finished job (signal SIG_IGN w)) as [[r job'] w1].
  simpl in Hres, Hprocs, Hs. destruct rest as [|pid rest].
  - injection Hres as -> ->. rewrite decide_False by done. cbn.
    rewrite Hprocs, Hrec, app_nil_r. done.
  - injection Hres as -> ->. rewrite decide_True by done. cbn [snd procs signal set_sigint].
    assert (uninterrupted (emit (OutInstruction (job_instruction job)) w1)) as Hu1.
    { unfold same_surroundings in Hs. destruct_and!.
      unfold uninterrupted in *. simpl in *. congruence. }
    destruct Hjok as [Hj0 Hj1].
    rewrite (mshfg_wait_reaps _ 0); try done.
    + simpl. fold (recorded job). rewrite Hprocs, list_filter_filter.
      apply list_filter_iff. intros c. split; [tauto|]. intros Hc. split; [done|].
      intros Hin. apply Hc. rewrite Hrec. apply elem_of_app. by left.
    + simpl. lia.
    + simpl. rewrite Hprocs. by apply NoDup_filter_fst.
Qed.
End Promotion.

Lemma mshfg_waits_for_the_whole_job_witness :
  let jobs := sample_jobs [sample_job "a | b &" [10; 11]; sample_job "c &" [12]] in
  let w := sample_world [(10, Exited); (11, Running); (12, Running)] [] [] in
  procs (mshfg None jobs w).2 = [(12, Running)].
Proof.
  intros jobs w.
  destruct (mshfg_waits_for_the_whole_job None jobs w
              (sample_job "a | b &" [10; 11])) as [H _];
    [evaluate | evaluate | reflexivity | evaluate | evaluate | evaluate
    | evaluate | evaluate | apply not_elem_of_nil |].
  rewrite H. reflexivity.
Defined.

(** ** The processes of a pipeline *)

Section Processes.
Implicit Types (w : world) (t : list event).

Lemma procs_dup2 a b w : procs (dup2 a b w) = procs w.
Proof. unfold dup2. repeat case_match; reflexivity. Qed.

Lemma procs_close fd w : procs (close fd w) = procs w.
Proof. unfold close. case_match; reflexivity. Qed.

Lemma procs_store a b c w : procs (store a b c w) = procs w.
Proof. unfold store. by rewrite !procs_dup2. Qed.

Lemma procs_restore a b c w : procs (restore a b c w) = procs w.
Proof. unfold restore. by rewrite !procs_dup2. Qed.

Lemma procs_signal h w : procs (signal h w) = procs w.
Proof. reflexivity. Qed.

Lemma procs_pipe q w : procs (pipe q w).2 = procs w.
Proof. unfold pipe. repeat case_match; reflexivity. Qed.

Lemma wait_ev_dup2 a b w : wait_ev (dup2 a b w) = wait_ev w.
Proof. unfold dup2. repeat case_match; reflexivity. Qed.

Lemma wait_ev_close fd w : wait_ev (close fd w) = wait_ev w.
Proof. unfold close. case_match; reflexivity. Qed.

Lemma wait_ev_store a b c w : wait_ev (store a b c w) = wait_ev w.
Proof. unfold store. by rewrite !wait_ev_dup2. Qed.

Lemma wait_ev_restore a b c w : wait_ev (restore a b c w) = wait_ev w.
Proof. unfold restore. by rewrite !wait_ev_dup2. Qed.

Lemma wait_ev_signal h w : wait_ev (signal h w) = wait_ev w.
Proof. reflexivity. Qed.

Lemma wait_ev_pipe q w : wait_ev (pipe q w).2 = wait_ev w.
Proof. unfold pipe. repeat case_match; reflexivity. Qed.

Lemma children_child r : 0 < r → children [r] = [(r, Running)].
Proof. intros H. unfold children. by rewrite filter_cons, decide_True. Qed.

Lemma children_none : children [-1] = [].
Proof. reflexivity. Qed.

Lemma children_app rs1 rs2 : children (rs1 ++ rs2) = children rs1 ++ children rs2.
Proof. unfold children. by rewrite filter_app, fmap_app. Qed.

(** [fork] adds the child it returns, if it returns one. *)
Lemma fork_spec w :
  let r := (fork w).1 in
  (0 < r ∨ r = -1) ∧
  procs (fork w).2 = procs w ++ children [r] ∧
  wait_ev (fork w).2 = wait_ev w.
Proof.
  unfold fork. case_decide as Hr; cbn [fst snd].
  - rewrite children_child by done. split; [by left | done].
  - rewrite children_none, app_nil_r. split; [by right | done].
Qed.

(** In a shell whose only child, if any, is the one [fork] has just
    returned, an uninterrupted [wait(NULL)] returns what [fork] returned
    and leaves no child. *)
Lemma wait_for_the_only_child r w :
  0 < r ∨ r = -1 → procs w = children [r] → uninterrupted w →
  (wait w).1 = r ∧ procs (wait w).2 = [] ∧ uninterrupted (wait w).2.
Proof.
  intros Hr Hp Hu. unfold wait, waitpid_block.
  destruct Hr as [Hr| ->].
  - rewrite children_child in Hp by done. rewrite Hp.
    rewrite (filter_cons_True _ (r, Running)) by done. rewrite filter_nil.
    rewrite (filter_cons_False _ (r, Running)) by done. rewrite filter_nil.
    assert (reap r (procs w) = []) as Hreap.
    { rewrite Hp. cbn. by rewrite decide_True. }
    destruct (wait_ev w) as [|[e|] l] eqn:Hev; cbn.
    + rewrite Hreap. split; [done|]. split; [done|]. unfold uninterrupted. simpl.
      apply not_elem_of_nil.
    + assert (Interrupted ∉ l) as Hl.
      { apply (uninterrupted_tail w); [done|]. right. by rewrite Hev. }
      case_bool_decide as He; cbn; [|by rewrite Hreap].
      apply list_elem_of_singleton in He. subst e. by rewrite Hreap.
    + exfalso. apply Hu. rewrite Hev. by left.
  - rewrite children_none in Hp. rewrite Hp. cbn. done.
Qed.
End Processes.

Section Foreground.
Implicit Types (w : world) (st : loop_state) (t : list event).

Lemma fork_waits_app t1 t2 : fork_waits (t1 ++ t2) = fork_waits t1 ++ fork_waits t2.
Proof. unfold fork_waits. apply filter_app. Qed.

(** A turn of the loop for a foreground pipeline, in a shell without other
    children. *)
Lemma loop_body_foreground commands cur command st :
  procs (ls_world st) = [] → uninterrupted (ls_world st) →
  let st' := loop_body commands false cur command st in
  procs (ls_world st') = [] ∧ uninterrupted (ls_world st') ∧
  ∃ m r, trace (ls_world st')
         = trace (ls_world st) ++ [EPipe m; EFork r; EWait r].
Proof.
  intros Hp Hu. unfold loop_body.
  destruct (bool_decide (Z.rem command 2 = 0)).
  - destruct (trace_pipe (ls_p st) (ls_world st)) as [m Htp].
    pose proof (procs_pipe (ls_p st) (ls_world st)) as Hpp.
    pose proof (wait_ev_pipe (ls_p st) (ls_world st)) as Hwp.
    destruct (pipe (ls_p st) (ls_world st)) as [q w1]. cbn [fst snd] in *.
    pose proof (trace_fork w1) as Htf.
    destruct (fork_spec w1) as (Hr & Hpf & Hwf).
    destruct (fork w1) as [r w2]. cbn [fst snd] in *.
    match goal with |- context [wait ?x] => set (w3 := x) end.
    assert (procs w3 = children [r] ∧ uninterrupted w3 ∧ trace w3 = trace w2)
      as (H1 & H2 & H3).
    { unfold w3, uninterrupted.
      destruct (bool_decide (command = commands - 1));
        rewrite ?procs_close, ?procs_dup2, ?wait_ev_close, ?wait_ev_dup2,
          ?trace_close, ?trace_dup2, Hpf, Hwf, Hpp, Hwp, Hp; done. }
    destruct (wait_for_the_only_child r w3 Hr H1 H2) as (Hw1 & Hw2 & Hw3).
    pose proof (trace_wait w3) as Htw.
    destruct (wait w3) as [r' w4]. cbn [fst snd ls_world] in *. subst r'.
    split; [done|]. split; [done|]. exists m, r.
    rewrite Htw, H3, Htf, Htp. by rewrite <- !app_assoc.
  - destruct (trace_pipe (ls_p2 st) (ls_world st)) as [m Htp].
    pose proof (procs_pipe (ls_p2 st) (ls_world st)) as Hpp.
    pose proof (wait_ev_pipe (ls_p2 st) (ls_world st)) as Hwp.
    destruct (pipe (ls_p2 st) (ls_world st)) as [q w1]. cbn [fst snd] in *.
    pose proof (trace_fork w1) as Htf.
    destruct (fork_spec w1) as (Hr & Hpf & Hwf).
    destruct (fork w1) as [r w2]. cbn [fst snd] in *.
    match goal with |- context [wait ?x] => set (w3 := x) end.
    assert (procs w3 = children [r] ∧ uninterrupted w3 ∧ trace w3 = trace w2)
      as (H1 & H2 & H3).
    { unfold w3, uninterrupted.
      destruct (bool_decide (command = commands - 1));
        rewrite ?procs_close, ?procs_dup2, ?wait_ev_close, ?wait_ev_dup2,
          ?trace_close, ?trace_dup2, Hpf, Hwf, Hpp, Hwp, Hp; done. }
    destruct (wait_for_the_only_child r w3 Hr H1 H2) as (Hw1 & Hw2 & Hw3).
    pose proof (trace_wait w3) as Htw.
    destruct (wait w3) as [r' w4]. cbn [fst snd ls_world] in *. subst r'.
    split; [done|]. split; [done|]. exists m, r.
    rewrite Htw, H3, Htf, Htp. by rewrite <- !app_assoc.
Qed.

Lemma loop_foreground_waits turns commands cur command st :
  procs (ls_world st) = [] → uninterrupted (ls_world st) →
  let st' := loop turns commands false cur command st in
  procs (ls_world st') = [] ∧
  ∃ t rs, trace (ls_world st') = trace (ls_world st) ++ t ∧
          length rs = turns ∧
          fork_waits t = rs ≫= λ r, [EFork r; EWait r].
Proof.
  revert command st. induction turns as [|n IH]; intros command st Hp Hu.
  - simpl. split; [done|]. exists [], []. by rewrite app_nil_r.
  - cbn [loop].
    destruct (loop_body_foreground commands cur command st Hp Hu)
      as (Hp1 & Hu1 & m & r & Ht1).
    destruct (IH (command + 1) _ Hp1 Hu1) as (Hp2 & t & rs & Ht2 & Hl & Hfw).
    split; [done|]. exists ([EPipe m; EFork r; EWait r] ++ t), (r :: rs).
    split; [by rewrite Ht2, Ht1, <- app_assoc|]. split; [simpl; lia|].
    rewrite fork_waits_app, Hfw. reflexivity.
Qed.

(** X15: a foreground pipeline in a shell that has no children, with waits
    that are not interrupted: every [wait] returns what the [fork] just
    before it returned, the process id of the command just started or -1
    when the fork failed; there are as many forks as commands, and the
    shell is without children again when the call returns. *)
Theorem foreground_waits_for_each_child line jobs buffer u w :
  background line ≠ 1 → 1 <= ncommands line →
  procs w = [] → uninterrupted w →
  let r := executeExternalCommands line jobs buffer u w in
  procs r.2 = [] ∧
  ∃ t rs, trace r.2 = trace w ++ t ∧
          length rs = Z.to_nat (ncommands line) ∧
          fork_waits t = rs ≫= λ r, [EFork r; EWait r].
Proof.
  intros Hbg HN Hp Hu. unfold executeExternalCommands.
  rewrite (bool_decide_eq_false_2 (background line = 1)) by done.
  set (w0 := store _ _ _ (signal ctrlc2 w)).
  assert (procs w0 = [] ∧ uninterrupted w0 ∧ trace w0 = trace w) as (Hp0 & Hu0 & Ht0).
  { unfold w0, uninterrupted. by rewrite procs_store, wait_ev_store, trace_store. }
  destruct (bool_decide (ncommands line > 1)) eqn:Hnext.
  - apply bool_decide_eq_true in Hnext.
    destruct (trace_pipe (p u) w0) as [m Htp].
    pose proof (procs_pipe (p u) w0) as Hpp.
    pose proof (wait_ev_pipe (p u) w0) as Hwp.
    destruct (pipe (p u) w0) as [q w1]. cbn [fst snd] in *.
    pose proof (trace_fork w1) as Htf.
    destruct (fork_spec w1) as (Hr & Hpf & Hwf).
    destruct (fork w1) as [r w2]. cbn [fst snd] in *.
    match goal with |- context [wait ?x] => set (w3 := x) end.
    assert (procs w3 = children [r] ∧ uninterrupted w3 ∧ trace w3 = trace w2)
      as (H1 & H2 & H3).
    { unfold w3, uninterrupted.
      rewrite procs_restore, procs_close, wait_ev_restore, wait_ev_close,
        trace_restore, trace_close, Hpf, Hwf, Hpp, Hwp, Hp0. done. }
    destruct (wait_for_the_only_child r w3 Hr H1 H2) as (Hw1 & Hw2 & Hw3).
    pose proof (trace_wait w3) as Htw.
    destruct (wait w3) as [r' w4]. cbn [fst snd] in *. subst r'.
    match goal with |- context [loop ?n ?c false ?cur 1 ?st] =>
      destruct (loop_foreground_waits n c cur 1 st Hw2 Hw3)
        as (Hp5 & t & rs & Ht5 & Hl5 & Hfw5) end.
    cbn [ls_world] in Ht5.
    cbn [fst snd].
    rewrite procs_signal, procs_restore, trace_signal, trace_restore.
    split; [done|].
    exists ([EPipe m; EFork r; EWait r] ++ t), (r :: rs).
    split; [rewrite Ht5, Htw, H3, Htf, Htp, Ht0; by rewrite <- !app_assoc|].
    split; [simpl; lia|]. rewrite fork_waits_app, Hfw5. reflexivity.
  - apply bool_decide_eq_false in Hnext.
    pose proof (trace_fork w0) as Htf.
    destruct (fork_spec w0) as (Hr & Hpf & Hwf).
    destruct (fork w0) as [r w2]. cbn [fst snd] in *.
    match goal with |- context [wait ?x] => set (w3 := x) end.
    assert (procs w3 = children [r] ∧ uninterrupted w3 ∧ trace w3 = trace w2)
      as (H1 & H2 & H3).
    { unfold w3, uninterrupted.
      rewrite procs_restore, procs_close, wait_ev_restore, wait_ev_close,
        trace_restore, trace_close, Hpf, Hwf, Hp0. done. }
    destruct (wait_for_the_only_child r w3 Hr H1 H2) as (Hw1 & Hw2 & Hw3).
    pose proof (trace_wait w3) as Htw.
    destruct (wait w3) as [r' w4]. cbn [fst snd loop ls_world] in *. subst r'.
    cbn [fst snd].
    rewrite procs_signal, procs_restore, trace_signal, trace_restore.
    split; [done|].
    exists [EFork r; EWait r], [r].
    split; [rewrite Htw, H3, Htf, Ht0; by rewrite <- !app_assoc|].
    split; [simpl; lia|]. reflexivity.
Qed.

Lemma foreground_waits_for_each_child_witness :
  let w := sample_world [] [20; 21; 22] [ChildExits 20] in
  let r := executeExternalCommands (sample_line 3 0) empty_jobs
             "cmd | cmd | cmd" junk_frame w in
  procs r.2 = [] ∧ fork_waits (trace r.2)
  = [EFork 20; EWait 20; EFork 21; EWait 21; EFork 22; EWait 22].
Proof.
  intros w r.
  destruct (foreground_waits_for_each_child (sample_line 3 0) empty_jobs
              "cmd | cmd | cmd" junk_frame w) as [Hp _];
    [evaluate | evaluate | reflexivity | |].
  - unfold uninterrupted. simpl. rewrite not_elem_of_cons. split; [done|].
    apply not_elem_of_nil.
  - split; [exact Hp | reflexivity].
Defined.
End Foreground.

Section Background.
Implicit Types (w : world) (st : loop_state) (t : list event) (c turns : nat).

Lemma forks_app t1 t2 : forks (t1 ++ t2) = forks t1 ++ forks t2.
Proof. unfold forks. apply omap_app. Qed.

(** A turn of the loop for a background pipeline: a pipe, a fork whose
    result goes into the array of the job, no wait. *)
Lemma loop_body_background commands cur c st j :
  0 <= cur → jobs_list (ls_jobs st) !! Z.to_nat cur = Some j →
  Z.of_nat c < MAXIMUM_PID_LIST_SIZE →
  let st' := loop_body commands true cur (Z.of_nat c) st in
  ∃ t r, trace (ls_world st') = trace (ls_world st) ++ t ∧
    forks t = [r] ∧ Forall no_wait t ∧
    procs (ls_world st') = procs (ls_world st) ++ children [r] ∧
    wait_ev (ls_world st') = wait_ev (ls_world st) ∧
    jobs_list (ls_jobs st') !! Z.to_nat cur
    = Some {| job_instruction := job_instruction j; job_size := job_size j;
              job_pids := <[c := r]> (job_pids j);
              job_finished := job_finished j |}.
Proof.
  intros Hcur Hj Hc. unfold loop_body.
  assert (∀ pid, jobs_list (record_pid cur (Z.of_nat c) pid (ls_jobs st))
                   !! Z.to_nat cur
                 = Some {| job_instruction := job_instruction j;
                           job_size := job_size j;
                           job_pids := <[c := pid]> (job_pids j);
                           job_finished := job_finished j |}) as Hrec.
  { intros pid. unfold record_pid. rewrite decide_True by lia.
    cbn [jobs_list].
    rewrite (aget_lookup _ _ _ j) by done. rewrite aset_nat.
    apply lookup_aset_eq; [done|]. by eapply lookup_lt_Some. }
  destruct (bool_decide (Z.rem (Z.of_nat c) 2 = 0)).
  - destruct (trace_pipe (ls_p st) (ls_world st)) as [m Htp].
    pose proof (procs_pipe (ls_p st) (ls_world st)) as Hpp.
    pose proof (wait_ev_pipe (ls_p st) (ls_world st)) as Hwp.
    destruct (pipe (ls_p st) (ls_world st)) as [q w1]. cbn [fst snd] in *.
    pose proof (trace_fork w1) as Htf.
    destruct (fork_spec w1) as (Hr & Hpf & Hwf).
    destruct (fork w1) as [r w2]. cbn [fst snd] in *.
    destruct (bool_decide (Z.of_nat c = commands - 1)); cbn [ls_world ls_jobs].
    + eexists [EPipe m; EFork r; OutJob _ r], r.
      cbn [trace emit procs wait_ev].
      rewrite !trace_close, !trace_dup2, !procs_close, !procs_dup2,
        !wait_ev_close, !wait_ev_dup2, Htf, Htp, Hpf, Hpp, Hwf, Hwp.
      split; [by rewrite <- !app_assoc|]. split; [done|].
      split; [repeat constructor|]. done.
    + exists [EPipe m; EFork r], r.
      rewrite !trace_close, !trace_dup2, !procs_close, !procs_dup2,
        !wait_ev_close, !wait_ev_dup2, Htf, Htp, Hpf, Hpp, Hwf, Hwp.
      split; [by rewrite <- !app_assoc|]. split; [done|].
      split; [repeat constructor|]. done.
  - destruct (trace_pipe (ls_p2 st) (ls_world st)) as [m Htp].
    pose proof (procs_pipe (ls_p2 st) (ls_world st)) as Hpp.
    pose proof (wait_ev_pipe (ls_p2 st) (ls_world st)) as Hwp.
    destruct (pipe (ls_p2 st) (ls_world st)) as [q w1]. cbn [fst snd] in *.
    pose proof (trace_fork w1) as Htf.
    destruct (fork_spec w1) as (Hr & Hpf & Hwf).
    destruct (fork w1) as [r w2]. cbn [fst snd] in *.
    destruct (bool_decide (Z.of_nat c = commands - 1)); cbn [ls_world ls_jobs].
    + eexists [EPipe m; EFork r; OutJob _ r], r.
      cbn [trace emit procs wait_ev].
      rewrite !trace_close, !trace_dup2, !procs_close, !procs_dup2,
        !wait_ev_close, !wait_ev_dup2, Htf, Htp, Hpf, Hpp, Hwf, Hwp.
      split; [by rewrite <- !app_assoc|]. split; [done|].
      split; [repeat constructor|]. done.
    + exists [EPipe m; EFork r], r.
      rewrite !trace_close, !trace_dup2, !procs_close, !procs_dup2,
        !wait_ev_close, !wait_ev_dup2, Htf, Htp, Hpf, Hpp, Hwf, Hwp.
      split; [by rewrite <- !app_assoc|]. split; [done|].
      split; [repeat constructor|]. done.
Qed.

Lemma loop_background turns commands cur c st j :
  0 <= cur → jobs_list (ls_jobs st) !! Z.to_nat cur = Some j →
  (c + turns ≤ length (job_pids j))%nat →
  Z.of_nat (length (job_pids j)) <= MAXIMUM_PID_LIST_SIZE →
  let st' := loop turns commands true cur (Z.of_nat c) st in
  ∃ t j', trace (ls_world st') = trace (ls_world st) ++ t ∧
    Forall no_wait t ∧ length (forks t) = turns ∧
    procs (ls_world st') = procs (ls_world st) ++ children (forks t) ∧
    wait_ev (ls_world st') = wait_ev (ls_world st) ∧
    jobs_list (ls_jobs st') !! Z.to_nat cur = Some j' ∧
    job_size j' = job_size j ∧
    length (job_pids j') = length (job_pids j) ∧
    take (c + turns) (job_pids j') = take c (job_pids j) ++ forks t.
Proof.
  revert c st j. induction turns as [|n IH]; intros c st j Hcur Hj Hlen Hmax.
  - exists [], j. simpl. rewrite !app_nil_r, Nat.add_0_r. done.
  - cbn [loop].
    destruct (loop_body_background commands cur c st j Hcur Hj)
      as (t1 & r & Ht1 & Hf1 & Hn1 & Hp1 & Hw1 & Hj1); [lia|].
    replace (Z.of_nat c + 1) with (Z.of_nat (S c)) by lia.
    destruct (IH (S c) _ _ Hcur Hj1) as (t2 & j' & Ht2 & Hn2 & Hl2 & Hp2 & Hw2 & Hj2 & Hs2 & Hll2 & Htk2).
    { cbn [job_pids]. rewrite length_insert. lia. }
    { cbn [job_pids]. rewrite length_insert. lia. }
    cbn [job_pids job_size] in *. rewrite length_insert in Hll2.
    exists (t1 ++ t2), j'.
    split; [by rewrite Ht2, Ht1, <- app_assoc|].
    split; [by apply Forall_app|].
    rewrite forks_app, Hf1. split; [simpl; lia|].
    split; [by rewrite Hp2, Hp1, children_app, <- app_assoc|].
    split; [congruence|]. split; [done|]. split; [done|]. split; [done|].
    replace (c + S n)%nat with (S c + n)%nat by lia. rewrite Htk2.
    rewrite (take_S_r _ c r) by (apply list_lookup_insert_eq; lia).
    rewrite take_insert_ge by lia. by rewrite <- app_assoc.
Qed.
End Background.

Section BackgroundTheorem.
Implicit Types (w : world) (jobs : tjobs).

(** X16: a background pipeline of 1 to 25 commands never waits: its trace
    holds no [wait] or [waitpid], and the events that end blocking waits are
    all left for later.  The job it writes into cell [jobs->size] records
    exactly what the forks returned, one id per command in the order of the
    commands, -1 for a fork that failed, and the children of the shell are
    those of before and the new ones. *)
Theorem background_records_every_fork line jobs buffer u w :
  background line = 1 →
  registry_ok jobs → pids_ok jobs →
  1 <= ncommands line <= MAXIMUM_PID_LIST_SIZE →
  let r := executeExternalCommands line jobs buffer u w in
  ∃ t job, trace r.2 = trace w ++ t ∧
    Forall no_wait t ∧ wait_ev r.2 = wait_ev w ∧
    procs r.2 = procs w ++ children (forks t) ∧
    jobs_list r.1 !! Z.to_nat (jobs_size jobs) = Some job ∧
    recorded job = forks t ∧
    length (forks t) = Z.to_nat (ncommands line).
Proof.
  intros Hbg [Hlen Hsize] Hpids HN. unfold executeExternalCommands.
  unfold MAXIMUM_PID_LIST_SIZE, MAXIMUM_JOB_LIST_SIZE in *.
  rewrite (bool_decide_eq_true_2 (background line = 1)) by done.
  set (w0 := store _ _ _ (signal ctrlc2 w)).
  assert (procs w0 = procs w ∧ wait_ev w0 = wait_ev w ∧ trace w0 = trace w)
    as (Hp0 & Hw0 & Ht0).
  { unfold w0. by rewrite procs_store, wait_ev_store, trace_store. }
  destruct (lookup_lt_is_Some_2 (jobs_list jobs) (Z.to_nat (jobs_size jobs))
              ltac:(lia)) as [old Hold].
  assert (length (job_pids old) = 25%nat) as Hlo.
  { unfold pids_ok in Hpids. rewrite Forall_forall in Hpids.
    apply Hpids. by eapply list_elem_of_lookup_2. }
  assert (∀ pid, jobs_list (register_job buffer (ncommands line) pid jobs)
                   !! Z.to_nat (jobs_size jobs)
                 = Some {| job_instruction := buffer;
                           job_size := ncommands line;
                           job_pids := <[0%nat := pid]> (job_pids old);
                           job_finished := 0 |}) as Hreg.
  { intros pid. unfold register_job. cbn [jobs_list].
    rewrite (aget_lookup _ _ _ old) by (done || lia).
    rewrite (aset_nat _ 0). apply lookup_aset_eq; lia. }
  destruct (bool_decide (ncommands line > 1)) eqn:Hnext.
  - apply bool_decide_eq_true in Hnext.
    destruct (trace_pipe (p u) w0) as [m Htp].
    pose proof (procs_pipe (p u) w0) as Hpp.
    pose proof (wait_ev_pipe (p u) w0) as Hwp.
    destruct (pipe (p u) w0) as [q w1]. cbn [fst snd] in *.
    pose proof (trace_fork w1) as Htf.
    destruct (fork_spec w1) as (Hr & Hpf & Hwf).
    destruct (fork w1) as [r w2]. cbn [fst snd] in *.
    match goal with |- context [loop ?n ?c true ?cur 1 ?st] =>
      destruct (loop_background n c cur 1 st _ ltac:(lia) (Hreg r))
        as (t & j' & Ht5 & Hn5 & Hl5 & Hp5 & Hw5 & Hj5 & Hs5 & Hll5 & Htk5) end.
    { cbn [job_pids]. rewrite length_insert. lia. }
    { cbn [job_pids]. rewrite length_insert.
      unfold MAXIMUM_PID_LIST_SIZE. lia. }
    change (Z.of_nat 1) with 1 in *.
    cbn [ls_world job_pids job_size] in *.
    rewrite procs_restore, procs_close, Hpf, Hpp, Hp0 in Hp5.
    rewrite wait_ev_restore, wait_ev_close, Hwf, Hwp, Hw0 in Hw5.
    rewrite trace_restore, trace_close, Htf, Htp, Ht0 in Ht5.
    exists ([EPipe m; EFork r] ++ t), j'.
    cbn [fst snd].
    rewrite trace_signal, trace_restore, procs_signal, procs_restore,
      wait_ev_signal, wait_ev_restore.
    split; [rewrite Ht5; by rewrite <- !app_assoc|].
    split; [apply Forall_app; split; [repeat constructor | done]|].
    split; [done|].
    rewrite forks_app. change (forks [EPipe m; EFork r]) with [r].
    split; [by rewrite Hp5, children_app, <- app_assoc|].
    split; [done|]. split; [|simpl; lia].
    unfold recorded. rewrite Hs5.
    replace (Z.to_nat (ncommands line))
      with (1 + Z.to_nat (ncommands line - 1))%nat by lia.
    rewrite Htk5. rewrite (take_S_r _ 0 r) by (apply list_lookup_insert_eq; lia).
    done.
  - apply bool_decide_eq_false in Hnext.
    pose proof (trace_fork w0) as Htf.
    destruct (fork_spec w0) as (Hr & Hpf & Hwf).
    destruct (fork w0) as [r w2]. cbn [fst snd loop ls_world ls_jobs] in *.
    eexists [EFork r; OutJob _ r], _.
    cbn [fst snd].
    rewrite trace_signal, trace_restore, procs_signal, procs_restore,
      wait_ev_signal, wait_ev_restore.
    cbn [trace emit procs wait_ev].
    rewrite trace_restore, trace_close, procs_restore, procs_close,
      wait_ev_restore, wait_ev_close, Htf, Hpf, Hwf, Hp0, Hw0, Ht0.
    split; [by rewrite <- !app_assoc|].
    split; [repeat constructor|]. split; [done|]. split; [done|].
    split; [apply Hreg|]. unfold recorded. cbn [job_size job_pids].
    replace (Z.to_nat (ncommands line)) with 1%nat by lia.
    split; [|done].
    rewrite (take_S_r _ 0 r) by (apply list_lookup_insert_eq; lia). done.
Qed.

Lemma background_records_every_fork_witness :
  let w := sample_world [(10, Running)] [20; 21] [Interrupted] in
  let r := executeExternalCommands (sample_line 3 1) empty_jobs
             "cmd | cmd | cmd &" junk_frame w in
  ∃ job, jobs_list r.1 !! 0%nat = Some job ∧ recorded job = [20; 21; -1] ∧
         procs r.2 = [(10, Running); (20, Running); (21, Running)] ∧
         wait_ev r.2 = [Interrupted].
Proof.
  intros w r.
  destruct (background_records_every_fork (sample_line 3 1) empty_jobs
              "cmd | cmd | cmd &" junk_frame w)
    as (t & job & Ht & _ & Hw & Hp & Hj & Hrec & _);
    [evaluate | evaluate | evaluate | evaluate |].
  exists job. split; [exact Hj|].
  assert (forks t = [20; 21; -1]) as Hf.
  { vm_compute in Ht. subst t. reflexivity. }
  subst r. rewrite Hrec, Hp, Hw, Hf. split; [reflexivity|]. split; reflexivity.
Defined.
End BackgroundTheorem.

(** ** The registry stays in its bounds *)

Section Invariant.
Implicit Types (jobs : tjobs) (job : tjob) (l : list tjob) (w : world).

Lemma aget_Forall {A} (P : A → Prop) d (l : list A) i :
  P d → Forall P l → P (aget d l i).
Proof.
  intros Hd Hl. unfold aget. case_decide; [|done].
  destruct (l !! Z.to_nat i) as [x|] eqn:Hx; [|done].
  rewrite Forall_forall in Hl. apply Hl. by eapply list_elem_of_lookup_2.
Qed.

Lemma aset_Forall {A} (P : A → Prop) (l : list A) i x :
  P x → Forall P l → Forall P (aset l i x).
Proof.
  intros Hx Hl. unfold aset. case_decide; [|done].
  destruct (decide (Z.to_nat i < length l)%nat).
  - by apply Forall_insert.
  - by rewrite list_insert_ge by lia.
Qed.

Lemma full_blank_job :
  length (job_pids blank_job) = Z.to_nat MAXIMUM_PID_LIST_SIZE.
Proof. reflexivity. Qed.

Lemma pids_ok_register_job buffer commands pid jobs :
  pids_ok jobs → pids_ok (register_job buffer commands pid jobs).
Proof.
  intros H. unfold pids_ok, register_job in *. cbn [jobs_list].
  apply aset_Forall; [|done]. cbn [job_pids]. rewrite length_aset.
  apply (aget_Forall (λ job, length (job_pids job) = Z.to_nat MAXIMUM_PID_LIST_SIZE)); [apply full_blank_job | done].
Qed.

Lemma pids_ok_record_pid cur command pid jobs :
  pids_ok jobs → pids_ok (record_pid cur command pid jobs).
Proof.
  intros H. unfold pids_ok, record_pid in *.
  assert (length (job_pids (aget blank_job (jobs_list jobs) cur))
          = Z.to_nat MAXIMUM_PID_LIST_SIZE) as Hfull.
  { apply (aget_Forall (λ job, length (job_pids job) = Z.to_nat MAXIMUM_PID_LIST_SIZE)); [apply full_blank_job | done]. }
  case_decide; cbn [jobs_list]; (apply aset_Forall; [|done]);
    cbn [job_pids]; by rewrite ?length_aset.
Qed.

Lemma pids_ok_loop turns commands bg cur command st :
  pids_ok (ls_jobs st) → pids_ok (ls_jobs (loop turns commands bg cur command st)).
Proof.
  revert command st. induction turns as [|n IH]; intros command st H; [done|].
  cbn [loop]. apply IH.
  destruct (ls_jobs_loop_body commands bg cur command st) as [pid ->].
  destruct bg; [by apply pids_ok_record_pid | done].
Qed.

Lemma pids_ok_executeExternalCommands line jobs buffer u w :
  pids_ok jobs → pids_ok (executeExternalCommands line jobs buffer u w).1.
Proof.
  intros H. unfold executeExternalCommands.
  repeat case_match; simplify_eq; cbn [fst]; apply pids_ok_loop; cbn [ls_jobs];
    try done; by apply pids_ok_register_job.
Qed.

Lemma registry_ok_executeExternalCommands line jobs buffer u w :
  registry_ok jobs → registry_ok (executeExternalCommands line jobs buffer u w).1.
Proof.
  intros [Hlen Hsize].
  destruct (decide (background line = 1)) as [Hbg|Hfg].
  - destruct (executeExternalCommands_background line jobs buffer u w Hbg)
      as (Hs & _ & [Hl _]);
      [lia | unfold MAXIMUM_JOB_LIST_SIZE in *; lia |].
    split; [congruence|]. rewrite Hs. unfold MAXIMUM_JOB_LIST_SIZE in *.
    pose proof (Z.rem_bound_pos (jobs_size jobs + 1) 50). lia.
  - by rewrite executeExternalCommands_foreground.
Qed.

Lemma pids_ok_delete_loop turns index l :
  Forall (λ job, length (job_pids job) = Z.to_nat MAXIMUM_PID_LIST_SIZE) l → Forall (λ job, length (job_pids job) = Z.to_nat MAXIMUM_PID_LIST_SIZE) (delete_loop turns index l).
Proof.
  revert index l. induction turns as [|n IH]; intros index l H; [done|].
  cbn [delete_loop]. apply IH. apply aset_Forall; [|done].
  apply (aget_Forall (λ job, length (job_pids job) = Z.to_nat MAXIMUM_PID_LIST_SIZE)); [apply full_blank_job | done].
Qed.

Lemma pids_ok_delete (k : Z) jobs : pids_ok jobs → pids_ok (delete k jobs).
Proof. unfold pids_ok, delete. cbn [jobs_list]. apply pids_ok_delete_loop. Qed.

Lemma pids_ok_set_job_finished j jobs w :
  pids_ok jobs →
  pids_ok (set_job j (finished (aget blank_job (jobs_list jobs) j) w).1.2 jobs).
Proof.
  intros H. unfold pids_ok, set_job in *. cbn [jobs_list].
  apply aset_Forall; [|done].
  assert (length (job_pids (aget blank_job (jobs_list jobs) j))
          = Z.to_nat MAXIMUM_PID_LIST_SIZE) as Hfull.
  { apply (aget_Forall (λ job, length (job_pids job) = Z.to_nat MAXIMUM_PID_LIST_SIZE)); [apply full_blank_job | done]. }
  destruct (finished_polls (aget blank_job (jobs_list jobs) j) w)
    as ([[_ ->]|[_ ->]] & _); done.
Qed.

Lemma pids_ok_mshjobs_body j st :
  pids_ok (js_jobs st) → pids_ok (js_jobs (mshjobs_body j st)).
Proof.
  intros H. unfold mshjobs_body.
  pose proof (pids_ok_set_job_finished j (js_jobs st) (js_world st) H) as H'.
  destruct (finished _ (js_world st)) as [[r job'] w1]. simpl in H'.
  by case_decide.
Qed.

Lemma pids_ok_mshjobs_loop turns j st :
  pids_ok (js_jobs st) → pids_ok (js_jobs (mshjobs_loop turns j st)).
Proof.
  revert j st. induction turns as [|n IH]; intros j st H; [done|].
  cbn [mshjobs_loop]. by apply IH, pids_ok_mshjobs_body.
Qed.

Lemma pids_ok_mshjobs_delete turns j finishedJobs jobs :
  pids_ok jobs → pids_ok (mshjobs_delete turns j finishedJobs jobs).
Proof.
  revert j jobs. induction turns as [|n IH]; intros j jobs H; [done|].
  cbn [mshjobs_delete]. by apply IH, pids_ok_delete.
Qed.

Lemma pids_ok_mshjobs jobs w : pids_ok jobs → pids_ok (mshjobs jobs w).1.
Proof.
  intros H. unfold mshjobs. cbn [fst].
  by apply pids_ok_mshjobs_delete, pids_ok_mshjobs_loop.
Qed.

Lemma pids_ok_mshfg arg jobs w : pids_ok jobs → pids_ok (mshfg arg jobs w).1.
Proof.
  intros H. unfold mshfg.
  case_decide; [done|]. case_decide; [done|].
  match goal with |- context [finished (aget blank_job _ ?j) ?x] =>
    pose proof (pids_ok_set_job_finished j jobs x H) as H' end.
  destruct (finished _ _) as [[r job'] w1]. simpl in H'.
  cbn [fst]. by apply pids_ok_delete.
Qed.

Lemma registry_ok_mshfg arg jobs w :
  registry_ok jobs → registry_ok (mshfg arg jobs w).1.
Proof.
  intros Hok.
  destruct (decide (jobs_size jobs = 0)) as [H0|H0].
  - by rewrite (proj1 (mshfg_refuses arg jobs w) H0).
  - destruct (decide (mapped arg < 0 ∨ mapped arg > jobs_size jobs - 1)) as [Hm|Hm].
    + by rewrite (proj2 (mshfg_refuses arg jobs w) H0 Hm).
    + destruct (mshfg_valid arg jobs w Hok) as (job' & w' & ->); [lia|].
      cbn [fst].
      pose proof (registry_ok_set_job (mapped arg) job' jobs Hok) as Hok1.
      destruct (delete_registry_ok (mapped arg) _ Hok1) as [Hok2 _];
        [unfold set_job; cbn [jobs_size]; lia | done].
Qed.

Lemma jobs_overrun_delete (k : Z) jobs :
  jobs_overrun (delete k jobs) = jobs_overrun jobs.
Proof. reflexivity. Qed.

Lemma jobs_overrun_mshjobs_loop turns j st :
  jobs_overrun (js_jobs (mshjobs_loop turns j st)) = jobs_overrun (js_jobs st).
Proof.
  revert j st. induction turns as [|n IH]; intros j st; [done|].
  cbn [mshjobs_loop]. rewrite IH. unfold mshjobs_body.
  destruct (finished _ (js_world st)) as [[r job'] w1]. by case_decide.
Qed.

Lemma jobs_overrun_mshjobs_delete turns j finishedJobs jobs :
  jobs_overrun (mshjobs_delete turns j finishedJobs jobs) = jobs_overrun jobs.
Proof.
  revert j jobs. induction turns as [|n IH]; intros j jobs; [done|].
  cbn [mshjobs_delete]. by rewrite IH.
Qed.

Lemma jobs_overrun_mshjobs jobs w :
  jobs_overrun (mshjobs jobs w).1 = jobs_overrun jobs.
Proof.
  unfold mshjobs. cbn [fst].
  by rewrite jobs_overrun_mshjobs_delete, jobs_overrun_mshjobs_loop.
Qed.

Lemma jobs_overrun_mshfg arg jobs w :
  jobs_overrun (mshfg arg jobs w).1 = jobs_overrun jobs.
Proof. unfold mshfg. by repeat case_match. Qed.

(** The writes that left an array are never taken back. *)
Lemma jobs_overrun_loop_grows turns commands bg cur command st :
  (length (jobs_overrun (ls_jobs st))
   ≤ length (jobs_overrun (ls_jobs (loop turns commands bg cur command st))))%nat.
Proof.
  revert command st. induction turns as [|n IH]; intros command st; [done|].
  cbn [loop]. etransitivity; [|apply IH].
  destruct (ls_jobs_loop_body commands bg cur command st) as [pid ->].
  destruct bg; [|done]. rewrite jobs_overrun_record_pid.
  case_decide; [done|]. rewrite length_app. lia.
Qed.

(** A loop that reaches command 25 writes behind the array. *)
Lemma loop_overruns turns commands cur command st :
  0 <= command → (0 < turns)%nat →
  MAXIMUM_PID_LIST_SIZE < command + Z.of_nat turns →
  jobs_overrun (ls_jobs (loop turns commands true cur command st)) ≠ [].
Proof.
  revert command st.
  induction turns as [|n IH]; intros command st H0 Ht Hn; [lia|].
  - cbn [loop].
    destruct (decide (command < MAXIMUM_PID_LIST_SIZE)) as [Hc|Hc].
    + apply IH; lia.
    + pose proof (jobs_overrun_loop_grows n commands true cur (command + 1)
                    (loop_body commands true cur command st)) as Hgrow.
      destruct (ls_jobs_loop_body commands true cur command st) as [pid Hb].
      rewrite Hb, jobs_overrun_record_pid in Hgrow.
      rewrite decide_False in Hgrow by lia.
      rewrite length_app in Hgrow. simpl in Hgrow.
      intros Hnil. rewrite Hnil in Hgrow. simpl in Hgrow. lia.
Qed.

(** X17: the registry stays well formed as long as no background line has
    more commands than a job has cells for process ids.  [main] starts
    with a registry whose counter is 0, in an array of 50 cells with 25
    process ids each.  After [mshjobs] and [mshfg], whatever their
    arguments, and after [executeExternalCommands] on a foreground line or
    on a background line of at most 25 commands, whatever the system does,
    the counter is between 0 and 49, the arrays have the sizes they had and
    no write has left an array of process ids.  A background line of more
    than 25 commands does write behind the array of its job. *)
Theorem registry_stays_in_bounds :
  well_formed empty_jobs ∧
  (∀ jobs w, well_formed jobs →
     (∀ line buffer u,
        (background line = 1 → ncommands line <= MAXIMUM_PID_LIST_SIZE) →
        well_formed (executeExternalCommands line jobs buffer u w).1) ∧
     well_formed (mshjobs jobs w).1 ∧
     (∀ arg, well_formed (mshfg arg jobs w).1)) ∧
  (∀ line jobs buffer u w,
     background line = 1 → MAXIMUM_PID_LIST_SIZE < ncommands line →
     ¬ well_formed (executeExternalCommands line jobs buffer u w).1).
Proof.
  split; [|split].
  - split; [evaluate|]. split; [|done].
    unfold pids_ok, empty_jobs. cbn [jobs_list].
    apply Forall_replicate. reflexivity.
  - intros jobs w (Hok & Hpids & Hov). split; [|split].
    + intros line buffer u Hn. split; [|split].
      * by apply registry_ok_executeExternalCommands.
      * by apply pids_ok_executeExternalCommands.
      * destruct (decide (background line = 1)) as [Hbg|Hfg].
        -- destruct Hok as [Hlen Hsize].
           destruct (executeExternalCommands_background line jobs buffer u w
                       Hbg) as (_ & Hst & _);
             [lia | unfold MAXIMUM_JOB_LIST_SIZE in *; lia |].
           destruct (Hst (Hn Hbg)) as [_ ->]. done.
        -- by rewrite executeExternalCommands_foreground.
    + split; [|split; [by apply pids_ok_mshjobs
                      |by rewrite jobs_overrun_mshjobs]].
      destruct (mshjobs_spec jobs w Hok)
        as (t & _ & _ & _ & _ & _ & Hok' & _).
      done.
    + intros arg. split; [by apply registry_ok_mshfg|].
      split; [by apply pids_ok_mshfg | by rewrite jobs_overrun_mshfg].
  - intros line jobs buffer u w Hbg Hn (_ & _ & Hov). revert Hov.
    unfold executeExternalCommands.
    rewrite (bool_decide_eq_true_2 (background line = 1)) by done.
    rewrite (bool_decide_eq_true_2 (ncommands line > 1))
      by (unfold MAXIMUM_PID_LIST_SIZE in *; lia).
    repeat case_match; simplify_eq; cbn [fst].
    apply loop_overruns; unfold MAXIMUM_PID_LIST_SIZE in *; lia.
Qed.

Lemma registry_stays_in_bounds_witness :
  well_formed
    (mshfg (Some "1"%string)
       (executeExternalCommands (sample_line 2 1) crowded_jobs "cmd | cmd &"
          zero_frame (sample_world [] [20; 21] [])).1
       (sample_world [] [] [])).1
  ∧ ¬ well_formed
        (executeExternalCommands (sample_line 26 1) empty_jobs "cmd &"
           junk_frame (sample_world [] [] [])).1.
Proof.
  destruct registry_stays_in_bounds as (_ & Hinv & Hover).
  assert (well_formed crowded_jobs) as H0 by (split; [|split]; evaluate).
  destruct (Hinv crowded_jobs (sample_world [] [20; 21] []) H0) as (He & _ & _).
  specialize (He (sample_line 2 1) "cmd | cmd &"%string zero_frame).
  assert (well_formed
            (executeExternalCommands (sample_line 2 1) crowded_jobs
               "cmd | cmd &" zero_frame (sample_world [] [20; 21] [])).1)
    as He' by (apply He; intros _; vm_compute; discriminate).
  destruct (Hinv _ (sample_world [] [] []) He') as (_ & _ & Hfg).
  split; [exact (Hfg (Some "1"%string))|].
  apply Hover; [reflexivity | vm_compute; reflexivity].
Defined.
End Invariant.

(** ** Redirections that succeed *)

Section Descriptors.
Implicit Types (w : world) (t : list (option file)) (n s o : nat).

Lemma set_fds_set_fds t t' w : set_fds t (set_fds t' w) = set_fds t w.
Proof. reflexivity. Qed.

Lemma set_fds_fds w : set_fds (fds w) w = w.
Proof. by destruct w. Qed.

Lemma close_cell w n :
  (n < length (fds w))%nat →
  close (Z.of_nat n) w = set_fds (<[n := None]> (fds w)) w.
Proof.
  intros Hn. unfold close, fd_valid.
  rewrite bool_decide_eq_true_2 by lia. by rewrite Nat2Z.id.
Qed.

Lemma close_invalid w fd :
  ¬ (0 <= fd < Z.of_nat (length (fds w))) → close fd w = w.
Proof.
  intros Hn. unfold close, fd_valid. by rewrite bool_decide_eq_false_2.
Qed.

Lemma dup2_cell w o n f :
  fds w !! o = Some (Some f) → (n < length (fds w))%nat →
  dup2 (Z.of_nat o) (Z.of_nat n) w = set_fds (<[n := Some f]> (fds w)) w.
Proof.
  intros Ho Hn. unfold dup2, fd_lookup, fd_valid.
  rewrite decide_True by lia. rewrite !Nat2Z.id, Ho. cbn [mjoin option_join].
  rewrite bool_decide_eq_true_2 by lia. by rewrite ?Nat2Z.id.
Qed.

Lemma dup2_invalid_target w old new :
  ¬ (0 <= new < Z.of_nat (length (fds w))) → dup2 old new w = w.
Proof.
  intros Hn. unfold dup2, fd_valid. rewrite bool_decide_eq_false_2 by done.
  by destruct (fd_lookup w old).
Qed.

Lemma dup2_invalid_source w old new :
  ¬ (0 <= old < Z.of_nat (length (fds w))) → dup2 old new w = w.
Proof.
  intros Hn. unfold dup2, fd_lookup. case_decide; [|done].
  rewrite (lookup_ge_None_2 (fds w)) by lia. done.
Qed.

Lemma lowest_free_Some t n :
  lowest_free t = Some n →
  t !! n = Some None ∧ ∀ i, (i < n)%nat → is_Some (mjoin (t !! i)).
Proof.
  unfold lowest_free. intros H.
  apply fmap_Some in H as ([k c] & Hf & ->). simpl.
  apply list_find_Some in Hf as (Hk & -> & Hlow). split; [done|].
  intros i Hi. destruct (t !! i) as [[f|]|] eqn:Hti.
  - by eexists.
  - exfalso. by apply (Hlow i None).
  - apply lookup_ge_None in Hti. apply lookup_lt_Some in Hk. lia.
Qed.

Lemma lowest_free_insert_open t s x y :
  t !! s = Some (Some y) → lowest_free (<[s := Some x]> t) = lowest_free t.
Proof.
  unfold lowest_free. revert s. induction t as [|c t IH]; intros s Hs; [done|].
  destruct s as [|s]; simpl in *.
  - simplify_eq. rewrite !decide_False by done. reflexivity.
  - case_decide; [done|]. specialize (IH s Hs).
    destruct (list_find _ (<[s:=Some x]> t)) as [[k1 c1]|] eqn:H1;
      destruct (list_find _ t) as [[k2 c2]|] eqn:H2; simpl in *; congruence.
Qed.

(** A redirection whose file can be opened, on the descriptor table; [n]
    is the descriptor the file is opened on. *)
Lemma auxiliarRedirect_table (filename : string) (MODE : fmode)
    (STD_FILENO : Z) (w : world) n :
  fs w filename MODE = None → lowest_free (fds w) = Some n →
  0 <= STD_FILENO →
  auxiliarRedirect filename MODE STD_FILENO w
  = Normal (set_fds
              (if decide (n = Z.to_nat STD_FILENO) then fds w
               else <[Z.to_nat STD_FILENO := Some (Opened filename MODE)]> (fds w))
              w).
Proof.
  intros Hfs Hn Hstd. destruct (lowest_free_Some _ _ Hn) as [Hcell _].
  assert (n < length (fds w))%nat as Hlt by (by eapply lookup_lt_Some).
  unfold auxiliarRedirect, fopen. rewrite Hfs, Hn.
  set (file := Opened filename MODE). f_equal.
  destruct (decide (STD_FILENO < Z.of_nat (length (fds w)))) as [Hv|Hv].
  - rewrite <- (Z2Nat.id STD_FILENO) at 1 by done.
    rewrite (dup2_cell _ n (Z.to_nat STD_FILENO) file).
    2: { cbn [fds set_fds]. by apply list_lookup_insert_eq. }
    2: { cbn [fds set_fds]. rewrite ?length_insert. lia. }
    rewrite set_fds_set_fds. cbn [fds set_fds].
    rewrite (close_cell (set_fds _ _)) by (cbn [fds set_fds]; rewrite ?length_insert; lia).
    rewrite set_fds_set_fds. cbn [fds set_fds].
    rewrite (close_cell (set_fds _ _)) by (cbn [fds set_fds]; rewrite ?length_insert; lia).
    rewrite set_fds_set_fds. cbn [fds set_fds]. f_equal.
    rewrite list_insert_insert_eq.
    case_decide as Hns.
    + subst n. rewrite !list_insert_insert_eq. by apply list_insert_id.
    + rewrite (list_insert_insert_ne _ n) by done.
      rewrite list_insert_insert_eq. f_equal. by apply list_insert_id.
  - rewrite dup2_invalid_target
      by (cbn [fds set_fds]; rewrite ?length_insert; lia).
    rewrite (close_cell (set_fds _ _)) by (cbn [fds set_fds]; rewrite ?length_insert; lia).
    rewrite set_fds_set_fds. cbn [fds set_fds].
    rewrite (close_cell (set_fds _ _)) by (cbn [fds set_fds]; rewrite ?length_insert; lia).
    rewrite set_fds_set_fds. cbn [fds set_fds]. f_equal.
    rewrite !list_insert_insert_eq.
    rewrite (list_insert_id _ n None) by done.
    case_decide; [done|]. symmetry. apply list_insert_ge. lia.
Qed.

Lemma auxiliarRedirect_open (filename : string) (MODE : fmode) w n s y :
  fs w filename MODE = None → lowest_free (fds w) = Some n →
  fds w !! s = Some (Some y) →
  auxiliarRedirect filename MODE (Z.of_nat s) w
  = Normal (set_fds (<[s := Some (Opened filename MODE)]> (fds w)) w).
Proof.
  intros Hfs Hn Hs.
  rewrite (auxiliarRedirect_table _ _ _ _ n) by (done || lia).
  rewrite Nat2Z.id. rewrite decide_False; [done|].
  intros ->. apply lowest_free_Some in Hn as [Hn _]. congruence.
Qed.

(** The three redirections in a row, on the descriptor table. *)
Lemma redirect_table (line : tline) w n x y z :
  fds w !! 0%nat = Some (Some x) → fds w !! 1%nat = Some (Some y) →
  fds w !! 2%nat = Some (Some z) → lowest_free (fds w) = Some n →
  openable w (redirect_input line) FILE_READ →
  openable w (redirect_output line) FILE_WRITE →
  openable w (redirect_error line) FILE_WRITE →
  redirect line w
  = Normal (set_fds
              (rebound 1 (redirect_output line) FILE_WRITE
                 (rebound 0 (redirect_input line) FILE_READ
                    (rebound 2 (redirect_error line) FILE_WRITE (fds w))))
              w).
Proof.
  intros H0 H1 H2 Hn Hin Hout Herr. unfold redirect.
  assert (∃ w2, match redirect_error line with
                | Some f => auxiliarRedirect f FILE_WRITE STDERR_FILENO w
                | None => Normal w
                end = Normal w2
          ∧ w2 = set_fds (rebound 2 (redirect_error line) FILE_WRITE (fds w)) w)
    as (w2 & -> & Hw2).
  { destruct (redirect_error line) as [f|]; cbn [rebound openable] in *.
    - eexists. split; [|done].
      by apply (auxiliarRedirect_open f FILE_WRITE w n 2 z).
    - eexists. split; [done|]. by rewrite set_fds_fds. }
  assert (fds w2 !! 0%nat = Some (Some x) ∧ fds w2 !! 1%nat = Some (Some y)
          ∧ lowest_free (fds w2) = Some n ∧ fs w2 = fs w) as (H0' & H1' & Hn' & Hfs').
  { subst w2. cbn [fds set_fds fs].
    destruct (redirect_error line) as [f|]; cbn [rebound]; [|done].
    rewrite !list_lookup_insert_ne by done.
    by rewrite (lowest_free_insert_open _ _ _ z). }
  assert (∃ w0, match redirect_input line with
                | Some f => auxiliarRedirect f FILE_READ STDIN_FILENO w2
                | None => Normal w2
                end = Normal w0
          ∧ w0 = set_fds (rebound 0 (redirect_input line) FILE_READ (fds w2)) w2)
    as (w0 & -> & Hw0).
  { destruct (redirect_input line) as [f|]; cbn [rebound openable] in *.
    - eexists. split; [|done].
      apply (auxiliarRedirect_open f FILE_READ w2 n 0 x); [|done..].
      by rewrite Hfs'.
    - eexists. split; [done|]. by rewrite set_fds_fds. }
  assert (fds w0 !! 1%nat = Some (Some y)
          ∧ lowest_free (fds w0) = Some n ∧ fs w0 = fs w) as (H1'' & Hn'' & Hfs'').
  { rewrite Hw0. cbn [fds set_fds fs].
    destruct (redirect_input line) as [f|]; cbn [rebound]; [|done].
    rewrite !list_lookup_insert_ne by done.
    by rewrite (lowest_free_insert_open _ _ _ x). }
  destruct (redirect_output line) as [f|]; cbn [rebound openable] in *.
  - change STDOUT_FILENO with (Z.of_nat 1).
    rewrite (auxiliarRedirect_open f FILE_WRITE w0 n 1 y) by (by rewrite ?Hfs'').
    by rewrite Hw0, Hw2.
  - by rewrite Hw0, Hw2.
Qed.

Lemma fd_lookup_mjoin w fd f :
  fd_lookup w (Z.of_nat fd) = Some f ↔ fds w !! fd = Some (Some f).
Proof.
  unfold fd_lookup. rewrite decide_True by lia. rewrite Nat2Z.id.
  destruct (fds w !! fd) as [[g|]|]; simpl; naive_solver.
Qed.

Lemma rebound_lookup fd filename m t old :
  t !! fd = Some (Some old) →
  rebound fd filename m t !! fd = Some (Some (redirected filename m old)).
Proof.
  intros Hfd. destruct filename; cbn [rebound redirected]; [|done].
  apply list_lookup_insert_eq. by eapply lookup_lt_Some.
Qed.

Lemma rebound_lookup_ne fd filename m t i :
  i ≠ fd → rebound fd filename m t !! i = t !! i.
Proof.
  intros Hne. destruct filename; cbn [rebound]; [|done].
  by apply list_lookup_insert_ne.
Qed.

(** X18: with the three standard streams open, some descriptor free and
    the named files openable, [redirect] returns normally with exactly the
    streams the command line redirects bound to their files (the input
    for reading, the output and the error stream for writing), every other
    descriptor as it was and nothing printed. *)
Theorem redirect_rebinds (line : tline) w n x y z :
  fd_lookup w STDIN_FILENO = Some x → fd_lookup w STDOUT_FILENO = Some y →
  fd_lookup w STDERR_FILENO = Some z → lowest_free (fds w) = Some n →
  openable w (redirect_input line) FILE_READ →
  openable w (redirect_output line) FILE_WRITE →
  openable w (redirect_error line) FILE_WRITE →
  ∃ w', redirect line w = Normal w'
        ∧ std_streams w'
          = [Some (redirected (redirect_input line) FILE_READ x);
             Some (redirected (redirect_output line) FILE_WRITE y);
             Some (redirected (redirect_error line) FILE_WRITE z)]
        ∧ (∀ fd, 2 < fd → fd_lookup w' fd = fd_lookup w fd)
        ∧ trace w' = trace w.
Proof.
  intros H0 H1 H2 Hn Hin Hout Herr.
  change STDIN_FILENO with (Z.of_nat 0) in *.
  change STDOUT_FILENO with (Z.of_nat 1) in *.
  change STDERR_FILENO with (Z.of_nat 2) in *.
  apply fd_lookup_mjoin in H0, H1, H2.
  eexists. split; [by apply (redirect_table line w n x y z)|].
  split; [|split; [|done]].
  - unfold std_streams.
    change STDIN_FILENO with (Z.of_nat 0).
    change STDOUT_FILENO with (Z.of_nat 1).
    change STDERR_FILENO with (Z.of_nat 2).
    f_equal; [|f_equal; [|f_equal]]; apply fd_lookup_mjoin; cbn [fds set_fds].
    + rewrite rebound_lookup_ne by done. apply rebound_lookup.
      by rewrite rebound_lookup_ne.
    + apply rebound_lookup. by rewrite !rebound_lookup_ne.
    + rewrite !rebound_lookup_ne by done. by apply rebound_lookup.
  - intros fd Hfd. unfold fd_lookup. rewrite !decide_True by lia.
    cbn [fds set_fds]. rewrite !rebound_lookup_ne by lia. done.
Qed.

(** X19: a redirection of a stream that is closed while every lower
    descriptor is open is lost: the file is opened on the stream's own
    number and closed again, so the function returns normally with the
    process exactly as it was, the stream still closed. *)
Theorem auxiliarRedirect_on_a_closed_stream (filename : string)
    (MODE : fmode) (STD_FILENO : Z) w :
  fs w filename MODE = None → 0 <= STD_FILENO →
  lowest_free (fds w) = Some (Z.to_nat STD_FILENO) →
  auxiliarRedirect filename MODE STD_FILENO w = Normal w
  ∧ fd_lookup w STD_FILENO = None.
Proof.
  intros Hfs Hstd Hn. split.
  - rewrite (auxiliarRedirect_table _ _ _ _ (Z.to_nat STD_FILENO)) by done.
    rewrite decide_True by done. by rewrite set_fds_fds.
  - apply lowest_free_Some in Hn as [Hn _]. unfold fd_lookup.
    rewrite decide_True by done. by rewrite Hn.
Qed.
End Descriptors.

Lemma redirect_rebinds_witness :
  ∃ w', redirect redirected_line (sample_world [] [] []) = Normal w'
        ∧ std_streams w'
          = [Some (Opened "names.txt" FILE_READ);
             Some (Opened "sorted.txt" FILE_WRITE);
             Some (Inherited "err")]
        ∧ (∀ fd, 2 < fd → fd_lookup w' fd = fd_lookup (sample_world [] [] []) fd)
        ∧ trace w' = trace (sample_world [] [] []).
Proof.
  apply (redirect_rebinds redirected_line (sample_world [] [] []) 3
           (Inherited "in") (Inherited "out") (Inherited "err"));
    first [reflexivity | exact I].
Defined.

Lemma auxiliarRedirect_on_a_closed_stream_witness :
  auxiliarRedirect "sorted.txt" FILE_WRITE STDOUT_FILENO
    (close STDOUT_FILENO (sample_world [] [] []))
  = Normal (close STDOUT_FILENO (sample_world [] [] []))
  ∧ fd_lookup (close STDOUT_FILENO (sample_world [] [] [])) STDOUT_FILENO = None.
Proof.
  apply (auxiliarRedirect_on_a_closed_stream "sorted.txt" FILE_WRITE
           STDOUT_FILENO (close STDOUT_FILENO (sample_world [] [] [])));
    [reflexivity | unfold STDOUT_FILENO; lia | reflexivity].
Defined.

(** ** Saving and restoring the standard streams *)

Section Snapshot.
Implicit Types (w : world) (fd : Z).

Lemma fd_valid_dup2 old new w fd :
  fd_valid (dup2 old new w) fd = fd_valid w fd.
Proof.
  unfold dup2. destruct (fd_lookup w old); [|done].
  destruct (fd_valid w new); [|done].
  unfold fd_valid. cbn [fds set_fds]. by rewrite length_insert.
Qed.

Lemma fd_lookup_valid w fd f : fd_lookup w fd = Some f → fd_valid w fd = true.
Proof.
  unfold fd_lookup, fd_valid. case_decide; [|done]. intros Hf.
  destruct (fds w !! Z.to_nat fd) eqn:E; [|done].
  apply lookup_lt_Some in E. apply bool_decide_eq_true_2. lia.
Qed.

Lemma fd_lookup_dup2 old new w fd f :
  fd_lookup w old = Some f → fd_valid w new = true →
  fd_lookup (dup2 old new w) fd
  = if decide (fd = new) then Some f else fd_lookup w fd.
Proof.
  intros Ho Hn. unfold dup2. rewrite Ho, Hn.
  apply bool_decide_eq_true_1 in Hn.
  unfold fd_lookup. cbn [fds set_fds]. destruct (decide (fd = new)) as [->|Hne].
  - rewrite decide_True by lia. rewrite list_lookup_insert_eq by lia. done.
  - case_decide; [|done]. rewrite list_lookup_insert_ne by lia. done.
Qed.

Lemma fd_lookup_dup2_ne old new w fd :
  fd ≠ new → fd_lookup (dup2 old new w) fd = fd_lookup w fd.
Proof.
  intros Hne.
  destruct (fd_lookup w old) as [f|] eqn:Ho; [destruct (fd_valid w new) eqn:Hn|].
  - rewrite (fd_lookup_dup2 _ _ _ _ f) by done. by rewrite decide_False.
  - unfold dup2. by rewrite Ho, Hn.
  - unfold dup2. by rewrite Ho.
Qed.

(** X20: when the three variables hold three different descriptor numbers
    above the standard streams, [store] copies the streams there without
    touching any other descriptor, and [restore] brings the three streams
    back to what they were at [store] from any later state of the process
    in which the descriptors above the standard streams are as [store] left
    them, whatever became of the streams themselves in between. *)
Theorem store_restore_round_trip (stdinfd stdoutfd stderrfd : Z) w :
  2 < stdinfd → 2 < stdoutfd → 2 < stderrfd →
  stdinfd ≠ stdoutfd → stdinfd ≠ stderrfd → stdoutfd ≠ stderrfd →
  fd_valid w stdinfd = true → fd_valid w stdoutfd = true →
  fd_valid w stderrfd = true →
  is_Some (fd_lookup w STDIN_FILENO) → is_Some (fd_lookup w STDOUT_FILENO) →
  is_Some (fd_lookup w STDERR_FILENO) →
  [fd_lookup (store stdinfd stdoutfd stderrfd w) stdinfd;
   fd_lookup (store stdinfd stdoutfd stderrfd w) stdoutfd;
   fd_lookup (store stdinfd stdoutfd stderrfd w) stderrfd] = std_streams w
  ∧ (∀ fd, fd ≠ stdinfd → fd ≠ stdoutfd → fd ≠ stderrfd →
       fd_lookup (store stdinfd stdoutfd stderrfd w) fd = fd_lookup w fd)
  ∧ ∀ w', (∀ fd, 2 < fd →
             fd_lookup w' fd = fd_lookup (store stdinfd stdoutfd stderrfd w) fd) →
          std_streams (restore stdinfd stdoutfd stderrfd w') = std_streams w.
Proof.
  intros Hi Ho He Hio Hie Hoe Vi Vo Ve [x Hx] [y Hy] [z Hz].
  unfold STDIN_FILENO, STDOUT_FILENO, STDERR_FILENO in *.
  assert (fd_lookup (store stdinfd stdoutfd stderrfd w) stdinfd = Some x
          ∧ fd_lookup (store stdinfd stdoutfd stderrfd w) stdoutfd = Some y
          ∧ fd_lookup (store stdinfd stdoutfd stderrfd w) stderrfd = Some z)
    as (Si & So & Se).
  { unfold store, STDIN_FILENO, STDOUT_FILENO, STDERR_FILENO.
    set (w1 := dup2 2 stderrfd w). set (w2 := dup2 0 stdinfd w1).
    assert (fd_lookup w1 0 = Some x ∧ fd_lookup w1 1 = Some y
            ∧ fd_lookup w1 stderrfd = Some z) as (A0 & A1 & Ae).
    { subst w1. rewrite !(fd_lookup_dup2 _ _ _ _ z) by done.
      repeat (case_decide; try lia); done. }
    assert (fd_lookup w2 1 = Some y ∧ fd_lookup w2 stdinfd = Some x
            ∧ fd_lookup w2 stderrfd = Some z) as (B1 & Bi & Be).
    { subst w2. rewrite !(fd_lookup_dup2 _ _ _ _ x)
        by (done || by (subst w1; rewrite fd_valid_dup2)).
      repeat (case_decide; try lia); done. }
    rewrite !(fd_lookup_dup2 _ _ _ _ y)
      by (done || by (subst w2 w1; rewrite !fd_valid_dup2)).
    repeat (case_decide; try lia); done. }
  split; [|split].
  - unfold std_streams, STDIN_FILENO, STDOUT_FILENO, STDERR_FILENO.
    by rewrite Si, So, Se, Hx, Hy, Hz.
  - intros fd F1 F2 F3. unfold store. by rewrite !fd_lookup_dup2_ne.
  - intros w' Hw'. unfold restore, STDIN_FILENO, STDOUT_FILENO, STDERR_FILENO.
    pose proof (Hw' stdinfd Hi) as Wi. pose proof (Hw' stdoutfd Ho) as Wo.
    pose proof (Hw' stderrfd He) as We. rewrite Si in Wi. rewrite So in Wo.
    rewrite Se in We.
    assert (fd_valid w' 0 = true ∧ fd_valid w' 1 = true ∧ fd_valid w' 2 = true)
      as (V0 & V1 & V2).
    { apply fd_lookup_valid, bool_decide_eq_true_1 in Wi.
      unfold fd_valid. rewrite !bool_decide_eq_true_2; [done|lia..]. }
    set (w1 := dup2 stderrfd 2 w'). set (w2 := dup2 stdinfd 0 w1).
    assert (fd_lookup w1 2 = Some z ∧ fd_lookup w1 stdinfd = Some x
            ∧ fd_lookup w1 stdoutfd = Some y) as (A2 & Ai & Ao).
    { subst w1. rewrite !(fd_lookup_dup2 _ _ _ _ z) by done.
      repeat (case_decide; try lia); done. }
    assert (fd_lookup w2 2 = Some z ∧ fd_lookup w2 0 = Some x
            ∧ fd_lookup w2 stdoutfd = Some y) as (B2 & B0 & Bo).
    { subst w2. rewrite !(fd_lookup_dup2 _ _ _ _ x)
        by (done || by (subst w1; rewrite fd_valid_dup2)).
      repeat (case_decide; try lia); done. }
    unfold std_streams, STDIN_FILENO, STDOUT_FILENO, STDERR_FILENO.
    rewrite !(fd_lookup_dup2 _ _ _ _ y)
      by (done || by (subst w2 w1; rewrite !fd_valid_dup2)).
    rewrite B0, B2, Hx, Hy, Hz. repeat (case_decide; try lia); done.
Qed.
End Snapshot.

Lemma store_restore_round_trip_witness :
  [fd_lookup (store 10 11 12 (sample_world [] [] [])) 10;
   fd_lookup (store 10 11 12 (sample_world [] [] [])) 11;
   fd_lookup (store 10 11 12 (sample_world [] [] [])) 12]
  = std_streams (sample_world [] [] [])
  ∧ (∀ fd, fd ≠ 10 → fd ≠ 11 → fd ≠ 12 →
       fd_lookup (store 10 11 12 (sample_world [] [] [])) fd
       = fd_lookup (sample_world [] [] []) fd)
  ∧ ∀ w', (∀ fd, 2 < fd →
             fd_lookup w' fd
             = fd_lookup (store 10 11 12 (sample_world [] [] [])) fd) →
          std_streams (restore 10 11 12 w')
          = std_streams (sample_world [] [] []).
Proof.
  apply (store_restore_round_trip 10 11 12 (sample_world [] [] []));
    first [lia | reflexivity | by eexists].
Defined.

(** ** The descriptors of a pipeline *)

Section Resources.
Implicit Types (w : world) (fd : Z) (t : list (option file)).

Lemma env_dup2 old new w : env (dup2 old new w) = env w.
Proof.
  unfold dup2. destruct (fd_lookup w old); [|done].
  by destruct (fd_valid w new).
Qed.

Lemma env_close fd w : env (close fd w) = env w.
Proof. unfold close. by destruct (fd_valid w fd). Qed.

Lemma env_store a b c w : env (store a b c w) = env w.
Proof. unfold store. by rewrite !env_dup2. Qed.

Lemma env_restore a b c w : env (restore a b c w) = env w.
Proof. unfold restore. by rewrite !env_dup2. Qed.

Lemma env_waitpid_block pid w : env (waitpid_block pid w).2 = env w.
Proof. unfold waitpid_block. by repeat case_match. Qed.

Lemma env_wait w : env (wait w).2 = env w.
Proof.
  unfold wait. pose proof (env_waitpid_block (-1) w) as H.
  by destruct (waitpid_block (-1) w).
Qed.

Lemma fds_waitpid_block pid w : fds (waitpid_block pid w).2 = fds w.
Proof. unfold waitpid_block. by repeat case_match. Qed.

Lemma fds_wait w : fds (wait w).2 = fds w.
Proof.
  unfold wait. pose proof (fds_waitpid_block (-1) w) as H.
  by destruct (waitpid_block (-1) w).
Qed.

Lemma fds_fork w : fds (fork w).2 = fds w.
Proof. unfold fork. by case_decide. Qed.

Lemma env_fork w :
  env (fork w).2 = (pipes w, pipe_ok w, tail (fork_ret w), fs w, path w).
Proof. unfold fork. by case_decide. Qed.

Lemma fork_pid w : 0 < default (-1) (head (fork_ret w)) → 0 < (fork w).1.
Proof. intros H. unfold fork. by rewrite decide_True. Qed.

Lemma length_fds_dup2 old new w :
  length (fds (dup2 old new w)) = length (fds w).
Proof.
  unfold dup2. destruct (fd_lookup w old); [|done].
  destruct (fd_valid w new); [|done]. cbn. by rewrite length_insert.
Qed.

Lemma length_fds_close fd w : length (fds (close fd w)) = length (fds w).
Proof.
  unfold close. destruct (fd_valid w fd); [|done]. cbn.
  by rewrite length_insert.
Qed.

Lemma fds_close fd w :
  0 <= fd < Z.of_nat (length (fds w)) →
  fds (close fd w) = <[Z.to_nat fd := None]> (fds w).
Proof.
  intros H. unfold close, fd_valid. by rewrite bool_decide_eq_true_2.
Qed.

Lemma fds_close_junk fd w : junk w fd → fds (close fd w) = fds w.
Proof. intros H. by rewrite close_invalid. Qed.

Lemma fds_dup2 old new w f :
  0 <= old → fds w !! Z.to_nat old = Some (Some f) →
  0 <= new < Z.of_nat (length (fds w)) →
  fds (dup2 old new w) = <[Z.to_nat new := Some f]> (fds w).
Proof.
  intros Ho Hf Hn. unfold dup2, fd_lookup, fd_valid.
  rewrite decide_True by done. rewrite Hf. cbn [mjoin option_join].
  by rewrite bool_decide_eq_true_2.
Qed.

Lemma junk_dup2 old new w fd : junk (dup2 old new w) fd ↔ junk w fd.
Proof. unfold junk. by rewrite length_fds_dup2. Qed.

Lemma junk_close fd' w fd : junk (close fd' w) fd ↔ junk w fd.
Proof. unfold junk. by rewrite length_fds_close. Qed.

Lemma fds_store_junk a b c w :
  junk w a → junk w b → junk w c → fds (store a b c w) = fds w.
Proof.
  intros Ha Hb Hc. unfold store.
  rewrite (dup2_invalid_target w) by done.
  rewrite (dup2_invalid_target w) by done.
  by rewrite (dup2_invalid_target w).
Qed.

Lemma fds_restore_junk a b c w :
  junk w a → junk w b → junk w c → fds (restore a b c w) = fds w.
Proof.
  intros Ha Hb Hc. unfold restore.
  rewrite (dup2_invalid_source w) by done.
  rewrite (dup2_invalid_source w) by done.
  by rewrite (dup2_invalid_source w).
Qed.

Lemma lowest_free_cons_open x t :
  lowest_free (Some x :: t) = S <$> lowest_free t.
Proof.
  unfold lowest_free. cbn [list_find]. rewrite decide_False by done.
  by destruct (list_find _ t) as [[k c]|].
Qed.

Lemma lowest_free_cons_free t : lowest_free (None :: t) = Some O.
Proof. unfold lowest_free. cbn [list_find]. by rewrite decide_True. Qed.

(** A call of [pipe] that succeeds. *)
Lemma pipe_spec q w t r wr :
  fds w = t → default true (head (pipe_ok w)) = true →
  lowest_free t = Some r →
  lowest_free (<[r := Some (PipeRead (pipes w))]> t) = Some wr →
  (pipe q w).1 = (Z.of_nat r, Z.of_nat wr)
  ∧ fds (pipe q w).2
    = <[wr := Some (PipeWrite (pipes w))]> (<[r := Some (PipeRead (pipes w))]> t)
  ∧ env (pipe q w).2
    = (S (pipes w), tail (pipe_ok w), fork_ret w, fs w, path w).
Proof.
  intros <- Hok Hr Hwr. unfold pipe. cbn [fds set_pipe_ok pipes].
  by rewrite Hr, Hwr, Hok.
Qed.
End Resources.

Section Turns.
Variables (a b c : file) (rest : list (option file)).
Implicit Types (w : world) (st : loop_state).

(** What a turn of the loop does to the descriptors does not depend on
    the job control around it. *)
Lemma loop_body_descriptors commands bg cur command st :
  let even := bool_decide (Z.rem command 2 = 0) in
  let last := bool_decide (command = commands - 1) in
  let pq := pipe (if even then ls_p st else ls_p2 st) (ls_world st) in
  let p := if even then pq.1 else ls_p st in
  let p2 := if even then ls_p2 st else pq.1 in
  let w := (fork pq.2).2 in
  let w' :=
    if even
    then let w := dup2 STDIN_FILENO (snd p) w in
         let w := close (snd p) w in
         let w := close (fst p2) w in
         if last then close (snd p2) (close (fst p) w) else w
    else let w := dup2 STDIN_FILENO (snd p2) w in
         let w := close (snd p2) w in
         let w := close (fst p) w in
         if last then close (snd p) (close (fst p2) w) else w in
  let st' := loop_body commands bg cur command st in
  ls_p st' = p ∧ ls_p2 st' = p2
  ∧ fds (ls_world st') = fds w' ∧ env (ls_world st') = env w'.
Proof.
  cbv zeta. unfold loop_body.
  destruct (bool_decide (Z.rem command 2 = 0)).
  - destruct (pipe (ls_p st) (ls_world st)) as [pp w1]. cbn [fst snd].
    destruct (fork w1) as [pid w2]. cbn [fst snd].
    destruct bg.
    + cbn [ls_p ls_p2 ls_world].
      by destruct (bool_decide (command = commands - 1)).
    + match goal with |- context [wait ?x] =>
        pose proof (fds_wait x) as Hf; pose proof (env_wait x) as He;
        destruct (wait x) as [r w3] end.
      done.
  - destruct (pipe (ls_p2 st) (ls_world st)) as [pp w1]. cbn [fst snd].
    destruct (fork w1) as [pid w2]. cbn [fst snd].
    destruct bg.
    + cbn [ls_p ls_p2 ls_world].
      by destruct (bool_decide (command = commands - 1)).
    + match goal with |- context [wait ?x] =>
        pose proof (fds_wait x) as Hf; pose proof (env_wait x) as He;
        destruct (wait x) as [r w3] end.
      done.
Qed.

Lemma fds_close_table fd w x y z :
  fds w = table a b c x y z rest → 0 <= fd < 6 →
  fds (close fd w) = <[Z.to_nat fd := None]> (table a b c x y z rest).
Proof.
  intros Hw Hfd. rewrite fds_close; [by rewrite Hw|].
  rewrite Hw. unfold table. cbn [length]. lia.
Qed.

Lemma fds_dup2_table new w x y z :
  fds w = table a b c x y z rest → 0 <= new < 6 →
  fds (dup2 STDIN_FILENO new w)
  = <[Z.to_nat new := Some a]> (table a b c x y z rest).
Proof.
  intros Hw Hfd. rewrite (fds_dup2 _ _ _ a); [by rewrite Hw| done | by rewrite Hw |].
  rewrite Hw. unfold table. cbn [length]. lia.
Qed.

Lemma env_fork_pipe q w :
  env (fork (pipe q w).2).2
  = match env (pipe q w).2 with
    | (n, oks, frs, F, P) => (n, oks, tail frs, F, P)
    end.
Proof. by rewrite env_fork. Qed.

Lemma loop_body_odd commands bg cur command st r pw :
  Z.rem command 2 ≠ 0 →
  fds (ls_world st) = table a b c (Some r) None None rest →
  default true (head (pipe_ok (ls_world st))) = true →
  ls_p st = (3, pw) → pw = 4 ∨ pw = 5 →
  let st' := loop_body commands bg cur command st in
  let w := ls_world st in
  ls_p st' = (3, pw) ∧ ls_p2 st' = (4, 5)
  ∧ fds (ls_world st')
    = (if bool_decide (command = commands - 1)
       then table a b c None None None rest
       else table a b c None (Some (PipeRead (pipes w))) None rest)
  ∧ env (ls_world st')
    = (S (pipes w), tail (pipe_ok w), tail (fork_ret w), fs w, path w).
Proof.
  intros Hodd Hfds Hok Hp Hpw.
  pose proof (loop_body_descriptors commands bg cur command st) as H.
  cbv zeta in H. rewrite (bool_decide_eq_false_2 _ Hodd) in H.
  destruct H as (H1 & H2 & H3 & H4). cbv zeta.
  rewrite H1, H2, H3, H4. clear H1 H2 H3 H4.
  destruct (pipe_spec (ls_p2 st) (ls_world st) _ 4 5 Hfds Hok)
    as (Hq & Hf & He); [reflexivity..|].
  rewrite Hq, Hp. cbn [fst snd].
  split; [done|]. split; [done|]. split.
  - set (w2 := (fork (pipe (ls_p2 st) (ls_world st)).2).2).
    set (R := PipeRead (pipes (ls_world st))) in *.
    set (W := PipeWrite (pipes (ls_world st))) in *.
    assert (fds w2 = table a b c (Some r) (Some R) (Some W) rest) as F2
      by (unfold w2; by rewrite fds_fork, Hf).
    assert (fds (dup2 STDIN_FILENO (Z.of_nat 5) w2)
            = table a b c (Some r) (Some R) (Some a) rest) as F3
      by (by apply (fds_dup2_table (Z.of_nat 5) _ _ _ _ F2)).
    assert (fds (close (Z.of_nat 5) (dup2 STDIN_FILENO (Z.of_nat 5) w2))
            = table a b c (Some r) (Some R) None rest) as F4
      by (by apply (fds_close_table (Z.of_nat 5) _ _ _ _ F3)).
    assert (fds (close 3 (close (Z.of_nat 5) (dup2 STDIN_FILENO (Z.of_nat 5) w2)))
            = table a b c None (Some R) None rest) as F5
      by (by apply (fds_close_table 3 _ _ _ _ F4)).
    destruct (bool_decide (command = commands - 1)); [|done].
    assert (fds (close (Z.of_nat 4) (close 3 (close (Z.of_nat 5)
                   (dup2 STDIN_FILENO (Z.of_nat 5) w2))))
            = table a b c None None None rest) as F6
      by (by apply (fds_close_table (Z.of_nat 4) _ _ _ _ F5)).
    destruct Hpw as [-> | ->];
      [by apply (fds_close_table 4 _ _ _ _ F6) | by apply (fds_close_table 5 _ _ _ _ F6)].
  - assert (∀ w', env w' = env (fork (pipe (ls_p2 st) (ls_world st)).2).2 →
                  env w' = (S (pipes (ls_world st)), tail (pipe_ok (ls_world st)),
                            tail (fork_ret (ls_world st)), fs (ls_world st),
                            path (ls_world st))) as Henv.
    { intros w' ->. by rewrite env_fork_pipe, He. }
    apply Henv.
    destruct (bool_decide (command = commands - 1));
      by rewrite !env_close, env_dup2.
Qed.

Lemma loop_body_even commands bg cur command st r :
  Z.rem command 2 = 0 →
  fds (ls_world st) = table a b c None (Some r) None rest →
  default true (head (pipe_ok (ls_world st))) = true →
  ls_p2 st = (4, 5) →
  let st' := loop_body commands bg cur command st in
  let w := ls_world st in
  ls_p st' = (3, 5) ∧ ls_p2 st' = (4, 5)
  ∧ fds (ls_world st')
    = (if bool_decide (command = commands - 1)
       then table a b c None None None rest
       else table a b c (Some (PipeRead (pipes w))) None None rest)
  ∧ env (ls_world st')
    = (S (pipes w), tail (pipe_ok w), tail (fork_ret w), fs w, path w).
Proof.
  intros Heven Hfds Hok Hp2.
  pose proof (loop_body_descriptors commands bg cur command st) as H.
  cbv zeta in H. rewrite (bool_decide_eq_true_2 _ Heven) in H.
  destruct H as (H1 & H2 & H3 & H4). cbv zeta.
  rewrite H1, H2, H3, H4. clear H1 H2 H3 H4.
  destruct (pipe_spec (ls_p st) (ls_world st) _ 3 5 Hfds Hok)
    as (Hq & Hf & He); [reflexivity..|].
  rewrite Hq, Hp2. cbn [fst snd].
  split; [done|]. split; [done|]. split.
  - set (w2 := (fork (pipe (ls_p st) (ls_world st)).2).2).
    set (R := PipeRead (pipes (ls_world st))) in *.
    set (W := PipeWrite (pipes (ls_world st))) in *.
    assert (fds w2 = table a b c (Some R) (Some r) (Some W) rest) as F2
      by (unfold w2; by rewrite fds_fork, Hf).
    assert (fds (dup2 STDIN_FILENO (Z.of_nat 5) w2)
            = table a b c (Some R) (Some r) (Some a) rest) as F3
      by (by apply (fds_dup2_table (Z.of_nat 5) _ _ _ _ F2)).
    assert (fds (close (Z.of_nat 5) (dup2 STDIN_FILENO (Z.of_nat 5) w2))
            = table a b c (Some R) (Some r) None rest) as F4
      by (by apply (fds_close_table (Z.of_nat 5) _ _ _ _ F3)).
    assert (fds (close 4 (close (Z.of_nat 5) (dup2 STDIN_FILENO (Z.of_nat 5) w2)))
            = table a b c (Some R) None None rest) as F5
      by (by apply (fds_close_table 4 _ _ _ _ F4)).
    destruct (bool_decide (command = commands - 1)); [|done].
    assert (fds (close (Z.of_nat 3) (close 4 (close (Z.of_nat 5)
                   (dup2 STDIN_FILENO (Z.of_nat 5) w2))))
            = table a b c None None None rest) as F6
      by (by apply (fds_close_table (Z.of_nat 3) _ _ _ _ F5)).
    by apply (fds_close_table 5 _ _ _ _ F6).
  - assert (∀ w', env w' = env (fork (pipe (ls_p st) (ls_world st)).2).2 →
                  env w' = (S (pipes (ls_world st)), tail (pipe_ok (ls_world st)),
                            tail (fork_ret (ls_world st)), fs (ls_world st),
                            path (ls_world st))) as Henv.
    { intros w' ->. by rewrite env_fork_pipe, He. }
    apply Henv.
    destruct (bool_decide (command = commands - 1));
      by rewrite !env_close, env_dup2.
Qed.
End Turns.

Section Children.
Variables (a b c : file) (rest : list (option file)).
Implicit Types (w : world) (st : loop_state).

Lemma fds_dup2_at old new w t f :
  fds w = t → 0 <= old → t !! Z.to_nat old = Some (Some f) →
  0 <= new < Z.of_nat (length t) →
  fds (dup2 old new w) = <[Z.to_nat new := Some f]> t.
Proof. intros <- Ho Hf Hn. by apply fds_dup2. Qed.

Lemma fds_close_at fd w t :
  fds w = t → 0 <= fd < Z.of_nat (length t) →
  fds (close fd w) = <[Z.to_nat fd := None]> t.
Proof. intros <- Hfd. by apply fds_close. Qed.

Lemma path_env w w' : env w = env w' → path w = path w'.
Proof. by intros [=]. Qed.

Lemma path_dup2 old new w : path (dup2 old new w) = path w.
Proof. apply path_env, env_dup2. Qed.

Lemma path_close fd w : path (close fd w) = path w.
Proof. apply path_env, env_close. Qed.

Lemma rebound_table line x y z :
  rebound 1 (redirect_output line) FILE_WRITE
    (rebound 0 (redirect_input line) FILE_READ
       (rebound 2 (redirect_error line) FILE_WRITE (table a b c x y z rest)))
  = table (redirected (redirect_input line) FILE_READ a)
      (redirected (redirect_output line) FILE_WRITE b)
      (redirected (redirect_error line) FILE_WRITE c) x y z rest.
Proof.
  by destruct (redirect_input line), (redirect_output line),
    (redirect_error line).
Qed.

Lemma lowest_free_table x y z k :
  lowest_free rest = Some k →
  ∃ n, lowest_free (table a b c x y z rest) = Some n.
Proof.
  intros Hk. unfold table. rewrite !lowest_free_cons_open.
  destruct x; [|rewrite lowest_free_cons_free; by eexists].
  rewrite lowest_free_cons_open.
  destruct y; [|rewrite lowest_free_cons_free; by eexists].
  rewrite lowest_free_cons_open.
  destruct z; [|rewrite lowest_free_cons_free; by eexists].
  rewrite lowest_free_cons_open, Hk. by eexists.
Qed.

(** The redirections of a child. *)
Lemma redirect_child line w x y z k :
  fds w = table a b c x y z rest → lowest_free rest = Some k →
  openable w (redirect_input line) FILE_READ →
  openable w (redirect_output line) FILE_WRITE →
  openable w (redirect_error line) FILE_WRITE →
  redirect line w
  = Normal (set_fds
              (table (redirected (redirect_input line) FILE_READ a)
                 (redirected (redirect_output line) FILE_WRITE b)
                 (redirected (redirect_error line) FILE_WRITE c) x y z rest)
              w).
Proof.
  intros Hw Hk Hin Hout Herr.
  destruct (lowest_free_table x y z k Hk) as [n Hn].
  rewrite (redirect_table line w n a b c); try done.
  - by rewrite Hw, rebound_table.
  - by rewrite Hw.
  - by rewrite Hw.
  - by rewrite Hw.
  - by rewrite Hw.
Qed.
End Children.

Ltac fds_side :=
  unfold STDIN_FILENO, STDOUT_FILENO, STDERR_FILENO, table; simpl; lia.

Ltac fds_eval :=
  lazymatch goal with
  | |- fds (close ?fd ?w) = _ =>
      eapply (fds_close_at fd w); [fds_eval | fds_side]
  | |- fds (dup2 ?o ?n ?w) = _ =>
      eapply (fds_dup2_at o n w); [fds_eval | fds_side | reflexivity | fds_side]
  | |- fds (set_fds ?t ?w) = _ => reflexivity
  | |- fds ?w = _ => eassumption
  end.

Ltac fds_table := etransitivity; [fds_eval | reflexivity].

Section LaterChildren.
Variables (a b c : file) (rest : list (option file)).
Implicit Types (w : world) (st : loop_state).

Lemma later_child_odd line command w r R W pw k :
  Z.rem command 2 ≠ 0 →
  fds w = table a b c (Some r) (Some R) (Some W) rest →
  pw = 4 ∨ pw = 5 → lowest_free rest = Some k →
  openable w (redirect_input line) FILE_READ →
  openable w (redirect_output line) FILE_WRITE →
  openable w (redirect_error line) FILE_WRITE →
  ∃ wf, later_child line command (3, pw) (4, 5) w = run line command wf
        ∧ fds wf
          = table r
              (if bool_decide (command = ncommands line - 1)
               then redirected (redirect_output line) FILE_WRITE b else W)
              (redirected (redirect_error line) FILE_WRITE c)
              None None None rest
        ∧ path wf = path w ∧ trace wf = trace w.
Proof.
  intros Hodd Hw Hpw Hk Hin Hout Herr. unfold later_child.
  rewrite (redirect_child a b c rest line w _ _ _ k) by done.
  rewrite (bool_decide_eq_false_2 _ Hodd). cbv beta iota zeta.
  eexists. split; [reflexivity|]. cbn [fst snd].
  split; [|split].
  - destruct (bool_decide (command = ncommands line - 1));
      destruct Hpw as [-> | ->]; fds_table.
  - destruct (bool_decide (command = ncommands line - 1));
      by rewrite !path_close, ?path_dup2.
  - destruct (bool_decide (command = ncommands line - 1));
      by rewrite !trace_close, ?trace_dup2.
Qed.

Lemma later_child_even line command w r R W k :
  Z.rem command 2 = 0 →
  fds w = table a b c (Some R) (Some r) (Some W) rest →
  lowest_free rest = Some k →
  openable w (redirect_input line) FILE_READ →
  openable w (redirect_output line) FILE_WRITE →
  openable w (redirect_error line) FILE_WRITE →
  ∃ wf, later_child line command (3, 5) (4, 5) w = run line command wf
        ∧ fds wf
          = table r
              (if bool_decide (command = ncommands line - 1)
               then redirected (redirect_output line) FILE_WRITE b else W)
              (redirected (redirect_error line) FILE_WRITE c)
              None None None rest
        ∧ path wf = path w ∧ trace wf = trace w.
Proof.
  intros Heven Hw Hk Hin Hout Herr. unfold later_child.
  rewrite (redirect_child a b c rest line w _ _ _ k) by done.
  rewrite (bool_decide_eq_true_2 _ Heven). cbv beta iota zeta.
  eexists. split; [reflexivity|]. cbn [fst snd].
  split; [|split].
  - destruct (bool_decide (command = ncommands line - 1)); fds_table.
  - destruct (bool_decide (command = ncommands line - 1));
      by rewrite !path_close, ?path_dup2.
  - destruct (bool_decide (command = ncommands line - 1));
      by rewrite !trace_close, ?trace_dup2.
Qed.
End LaterChildren.

Section Loop.
Variables (a b c : file) (rest : list (option file)).
Implicit Types (w : world) (st : loop_state).

Lemma rem_succ command :
  0 <= command → Z.rem (command + 1) 2 = 0 ↔ Z.rem command 2 ≠ 0.
Proof.
  intros H. rewrite !Z.rem_mod_nonneg by lia.
  pose proof (Z.mod_pos_bound command 2).
  rewrite <- Z.add_mod_idemp_l by lia.
  destruct (decide (command mod 2 = 0)) as [-> | Hne]; [done|].
  replace (command mod 2) with 1 by lia. done.
Qed.

Lemma pipes_succeed_head w :
  pipes_succeed w → default true (head (pipe_ok w)) = true.
Proof.
  unfold pipes_succeed. destruct (pipe_ok w); [done|].
  intros H. by apply Forall_cons in H as [-> _].
Qed.

Lemma pipes_succeed_tail w w' :
  pipes_succeed w → pipe_ok w' = tail (pipe_ok w) → pipes_succeed w'.
Proof.
  unfold pipes_succeed. intros H ->. destruct (pipe_ok w); [done|].
  by apply Forall_cons in H as [_ H].
Qed.

(** One turn of the loop in the parent. *)
Lemma loop_body_turn commands bg cur base command st :
  turn_state a b c rest base command st → 1 <= command →
  pipes_succeed (ls_world st) →
  let st' := loop_body commands bg cur command st in
  let w := ls_world st in
  env (ls_world st')
  = (S (pipes w), tail (pipe_ok w), tail (fork_ret w), fs w, path w)
  ∧ (command = commands - 1 →
     fds (ls_world st') = table a b c None None None rest)
  ∧ (command ≠ commands - 1 →
     turn_state a b c rest base (command + 1) st').
Proof.
  intros [Hq Hst] Hc Hok. cbv zeta in *.
  apply pipes_succeed_head in Hok.
  assert ((base + Z.to_nat (command + 1) - 1)%nat = pipes (ls_world st)) as Hr
    by lia.
  assert (S (pipes (ls_world st)) = (base + Z.to_nat (command + 1))%nat) as Hq'
    by lia.
  unfold turn_state.
  destruct (bool_decide (Z.rem command 2 = 0)) eqn:Hpar.
  - apply bool_decide_eq_true_1 in Hpar. destruct Hst as [Hp2 Hfds].
    destruct (loop_body_even a b c rest commands bg cur command st _
                Hpar Hfds Hok Hp2) as (H1 & H2 & H3 & H4).
    split; [done|]. split.
    + intros Hlast. rewrite H3. by rewrite bool_decide_eq_true_2.
    + intros Hlast. rewrite bool_decide_eq_false_2 in H3 by done.
      split; [unfold env in H4; injection H4 as -> _ _ _ _; exact Hq'|].
      rewrite bool_decide_eq_false_2 by (rewrite rem_succ by lia; tauto).
      rewrite Hr. split; [|done]. exists 5. split; [done|by right].
  - apply bool_decide_eq_false_1 in Hpar.
    destruct Hst as [(pw & Hp & Hpw) Hfds].
    destruct (loop_body_odd a b c rest commands bg cur command st _ pw
                Hpar Hfds Hok Hp Hpw) as (H1 & H2 & H3 & H4).
    split; [done|]. split.
    + intros Hlast. rewrite H3. by rewrite bool_decide_eq_true_2.
    + intros Hlast. rewrite bool_decide_eq_false_2 in H3 by done.
      split; [unfold env in H4; injection H4 as -> _ _ _ _; exact Hq'|].
      rewrite bool_decide_eq_true_2 by (by rewrite rem_succ by lia).
      rewrite Hr. done.
Qed.

(** The loop leaves the parent with the descriptors it had before the
    pipeline. *)
Lemma loop_closes_the_pipes turns commands bg cur base command st :
  turn_state a b c rest base command st → 1 <= command →
  pipes_succeed (ls_world st) →
  Z.of_nat (S turns) = commands - command →
  fds (ls_world (loop (S turns) commands bg cur command st))
  = table a b c None None None rest.
Proof.
  revert command st. induction turns as [|n IH]; intros command st Hst Hc Hok Hn.
  - cbn [loop].
    destruct (loop_body_turn commands bg cur base command st Hst Hc Hok)
      as (_ & Hlast & _).
    apply Hlast. lia.
  - cbn [loop].
    destruct (loop_body_turn commands bg cur base command st Hst Hc Hok)
      as (Henv & _ & Hnext).
    apply (IH (command + 1)); [apply Hnext; lia | lia | | lia].
    eapply pipes_succeed_tail; [done|]. by injection Henv.
Qed.
End Loop.

Section Wiring.
Variables (a b c : file) (rest : list (option file)).
Implicit Types (w : world) (st : loop_state).

Lemma openable_fs w w' filename m :
  fs w' = fs w → openable w filename m → openable w' filename m.
Proof. unfold openable. by intros ->. Qed.

Lemma forks_succeed_head n w :
  forks_succeed (S n) w → 0 < default (-1) (head (fork_ret w)).
Proof.
  intros H. destruct (H O) as (r & Hr & Hpos); [lia|].
  destruct (fork_ret w); simplify_eq/=. done.
Qed.

Lemma forks_succeed_tail n w w' :
  forks_succeed (S n) w → fork_ret w' = tail (fork_ret w) →
  forks_succeed n w'.
Proof.
  intros H Hw' i Hi. destruct (H (S i)) as (r & Hr & Hpos); [lia|].
  exists r. split; [|done]. rewrite Hw'. by destruct (fork_ret w).
Qed.

(** The child of one turn of the loop. *)
Lemma turn_child_wired line base command st k :
  turn_state a b c rest base command st → 1 <= command →
  pipes_succeed (ls_world st) → forks_succeed 1 (ls_world st) →
  lowest_free rest = Some k →
  openable (ls_world st) (redirect_input line) FILE_READ →
  openable (ls_world st) (redirect_output line) FILE_WRITE →
  openable (ls_world st) (redirect_error line) FILE_WRITE →
  ∃ e, turn_child line command st = [e]
       ∧ runs_wired line base a b c rest (path (ls_world st))
           (Z.to_nat command) e.
Proof.
  intros [Hq Hst] Hc Hok Hfork Hk Hin Hout Herr. cbv zeta in *.
  apply pipes_succeed_head in Hok. apply forks_succeed_head in Hfork.
  unfold turn_child, runs_wired, wired.
  rewrite Z2Nat.id by lia. rewrite decide_False by lia.
  destruct (bool_decide (Z.rem command 2 = 0)) eqn:Hpar.
  - apply bool_decide_eq_true_1 in Hpar. destruct Hst as [Hp2 Hfds].
    destruct (pipe_spec (ls_p st) (ls_world st) _ 3 5 Hfds Hok)
      as (Hp & Hf & He); [reflexivity..|].
    destruct (pipe (ls_p st) (ls_world st)) as [pp w1]. cbn [fst snd] in *.
    unfold env in He. injection He as E1 E2 E3 E4 E5.
    rewrite decide_True by (apply fork_pid; by rewrite E3).
    destruct (later_child_even a b c rest line command (forked w1)
                (PipeRead (base + Z.to_nat command - 1))
                (PipeRead (pipes (ls_world st)))
                (PipeWrite (pipes (ls_world st))) k Hpar)
      as (wf & Hrun & Hwf & Hpath & Htrace);
      [exact Hf | done | by apply (openable_fs (ls_world st)).. |].
    eexists. split; [reflexivity|].
    exists wf. split; [rewrite Hp, Hp2; exact Hrun|].
    split; [|by rewrite Hpath, Htrace].
    rewrite Hwf, Hq. by destruct (decide (command = ncommands line - 1));
      [rewrite bool_decide_eq_true_2 | rewrite bool_decide_eq_false_2].
  - apply bool_decide_eq_false_1 in Hpar.
    destruct Hst as [(pw & Hp & Hpw) Hfds].
    destruct (pipe_spec (ls_p2 st) (ls_world st) _ 4 5 Hfds Hok)
      as (Hp2 & Hf & He); [reflexivity..|].
    destruct (pipe (ls_p2 st) (ls_world st)) as [pp w1]. cbn [fst snd] in *.
    unfold env in He. injection He as E1 E2 E3 E4 E5.
    rewrite decide_True by (apply fork_pid; by rewrite E3).
    destruct (later_child_odd a b c rest line command (forked w1)
                (PipeRead (base + Z.to_nat command - 1))
                (PipeRead (pipes (ls_world st)))
                (PipeWrite (pipes (ls_world st))) pw k Hpar)
      as (wf & Hrun & Hwf & Hpath & Htrace);
      [exact Hf | done | done | by apply (openable_fs (ls_world st)).. |].
    eexists. split; [reflexivity|].
    exists wf. split; [rewrite Hp, Hp2; exact Hrun|].
    split; [|by rewrite Hpath, Htrace].
    rewrite Hwf, Hq. by destruct (decide (command = ncommands line - 1));
      [rewrite bool_decide_eq_true_2 | rewrite bool_decide_eq_false_2].
Qed.

(** The children of the loop. *)
Lemma loop_children_wired turns line bg cur base command st k :
  turn_state a b c rest base command st → 1 <= command →
  pipes_succeed (ls_world st) → forks_succeed turns (ls_world st) →
  Z.of_nat turns <= ncommands line - command →
  lowest_free rest = Some k →
  openable (ls_world st) (redirect_input line) FILE_READ →
  openable (ls_world st) (redirect_output line) FILE_WRITE →
  openable (ls_world st) (redirect_error line) FILE_WRITE →
  Forall2 (runs_wired line base a b c rest (path (ls_world st)))
    (seq (Z.to_nat command) turns)
    (loop_children turns line bg cur command st).
Proof.
  revert command st.
  induction turns as [|n IH];
    intros command st Hst Hc Hok Hfork Hn Hk Hin Hout Herr.
  - constructor.
  - cbn [loop_children seq].
    destruct (turn_child_wired line base command st k Hst Hc Hok)
      as (e & -> & He); try done.
    { intros i Hi. apply Hfork. lia. }
    cbn [app]. constructor; [done|].
    destruct n as [|n]; [constructor|].
    destruct (loop_body_turn a b c rest (ncommands line) bg cur base command
                st Hst Hc Hok) as (Henv & _ & Hnext).
    unfold env in Henv. injection Henv as E1 E2 E3 E4 E5.
    replace (S (Z.to_nat command)) with (Z.to_nat (command + 1)) by lia.
    rewrite <- E5.
    apply IH; try done.
    + apply Hnext. lia.
    + lia.
    + by eapply pipes_succeed_tail.
    + by eapply forks_succeed_tail.
    + lia.
    + by eapply openable_fs.
    + by eapply openable_fs.
    + by eapply openable_fs.
Qed.

(** The first child. *)
Lemma first_child_wired line w base k pp x y :
  fds w = table a b c x y None rest →
  (if bool_decide (ncommands line > 1)
   then pp = (3, 4) ∧ x = Some (PipeRead base) ∧ y = Some (PipeWrite base)
   else ncommands line = 1 ∧ x = None ∧ y = None) →
  lowest_free rest = Some k →
  openable w (redirect_input line) FILE_READ →
  openable w (redirect_output line) FILE_WRITE →
  openable w (redirect_error line) FILE_WRITE →
  runs_wired line base a b c rest (path w) 0 (first_child line pp (forked w)).
Proof.
  intros Hw Hnext Hk Hin Hout Herr. unfold first_child, runs_wired, wired.
  rewrite (redirect_child a b c rest line (forked w) x y None k) by done.
  rewrite decide_True by done. rewrite Nat.add_0_r.
  destruct (bool_decide (ncommands line > 1)) eqn:Hn.
  - apply bool_decide_eq_true_1 in Hn. destruct Hnext as (-> & -> & ->).
    eexists. split; [reflexivity|]. cbn [fst snd].
    rewrite decide_False by (simpl; lia).
    split; [fds_table|].
    by repeat first [rewrite trace_close | rewrite path_close
                    | rewrite trace_dup2 | rewrite path_dup2].
  - destruct Hnext as (H1 & -> & ->).
    eexists. split; [reflexivity|]. rewrite decide_True by (simpl; lia). done.
Qed.
End Wiring.

Section Pipelines.
Variables (a b c : file) (rest : list (option file)).
Implicit Types (w : world) (st : loop_state) (u : frame).

(** [executeExternalCommands] up to the loop: the job control between the
    first fork and the loop does not touch the descriptors. *)
Lemma pipeline_start line jobs buffer u w :
  let commands := ncommands line in
  let next := bool_decide (commands > 1) in
  let bg := bool_decide (background line = 1) in
  let w1 := store (stdinfd u) (stdoutfd u) (stderrfd u) (signal ctrlc2 w) in
  let pq := if next then pipe (p u) w1 else (p u, w1) in
  let w2 := restore (stdinfd u) (stdoutfd u) (stderrfd u)
              (close (snd pq.1) (fork pq.2).2) in
  let turns := if next then Z.to_nat (commands - 1) else O in
  ∃ cur jobs' w3,
    fds w3 = fds w2 ∧ env w3 = env w2
    ∧ let st0 := {| ls_p := pq.1; ls_p2 := p2 u; ls_jobs := jobs';
                    ls_world := w3 |} in
      (executeExternalCommands line jobs buffer u w).2
      = signal ctrlc
          (restore (stdinfd u) (stdoutfd u) (stderrfd u)
             (ls_world (loop turns commands bg cur 1 st0)))
      ∧ child_endings line jobs buffer u w
        = (if decide (0 < (fork pq.2).1)
           then [first_child line pq.1 (forked pq.2)] else [])
          ++ loop_children turns line bg cur 1 st0.
Proof.
  cbv zeta. unfold executeExternalCommands, child_endings.
  destruct (if bool_decide (ncommands line > 1)
            then pipe (p u) (store (stdinfd u) (stdoutfd u) (stderrfd u)
                               (signal ctrlc2 w))
            else (p u, store (stdinfd u) (stdoutfd u) (stderrfd u)
                         (signal ctrlc2 w))) as [pp wa].
  cbn [fst snd].
  destruct (fork wa) as [pid wb]. cbn [fst snd].
  destruct (bool_decide (background line = 1)).
  - eexists _, _, _. split; [|split; [|split; reflexivity]].
    + by destruct (bool_decide (ncommands line > 1)).
    + by destruct (bool_decide (ncommands line > 1)).
  - match goal with |- context [wait ?x] =>
      pose proof (fds_wait x) as Hf; pose proof (env_wait x) as He;
      destruct (wait x) as [r w3] end.
    eexists _, _, _. split; [|split; [|split; reflexivity]]; done.
Qed.

Lemma junk_fds w w' fd :
  length (fds w') = length (fds w) → junk w fd → junk w' fd.
Proof. unfold junk. by intros ->. Qed.

Lemma length_table x y z :
  length (table a b c x y z rest) = S (S (S (S (S (S (length rest)))))).
Proof. reflexivity. Qed.

(** The descriptors from the entry of [executeExternalCommands] to the
    loop, in a shell with descriptors 3, 4 and 5 free. *)
Lemma pipeline_first_turn line u w :
  fds w = table a b c None None None rest → harmless u w →
  pipes_succeed w →
  let next := bool_decide (ncommands line > 1) in
  let w1 := store (stdinfd u) (stdoutfd u) (stderrfd u) (signal ctrlc2 w) in
  let pq := if next then pipe (p u) w1 else (p u, w1) in
  let w2 := restore (stdinfd u) (stdoutfd u) (stderrfd u)
              (close (snd pq.1) (fork pq.2).2) in
  let R := Some (PipeRead (pipes w)) in
  let W := Some (PipeWrite (pipes w)) in
  fork_ret pq.2 = fork_ret w ∧ fs pq.2 = fs w ∧ path pq.2 = path w
  ∧ fds pq.2 = (if next then table a b c R W None rest
                else table a b c None None None rest)
  ∧ (next = true → pq.1 = (3, 4))
  ∧ fds w2 = (if next then table a b c R None None rest
              else table a b c None None None rest)
  ∧ env w2 = ((if next then S (pipes w) else pipes w),
              (if next then tail (pipe_ok w) else pipe_ok w),
              tail (fork_ret w), fs w, path w).
Proof.
  intros Hw (Hi & Ho & He & Hp) Hok. cbv zeta.
  set (w1 := store (stdinfd u) (stdoutfd u) (stderrfd u) (signal ctrlc2 w)).
  assert (fds w1 = table a b c None None None rest) as Hw1
    by (unfold w1; by rewrite fds_store_junk).
  assert (env w1 = env w) as He1 by (unfold w1; by rewrite env_store).
  unfold env in He1. injection He1 as E1 E2 E3 E4 E5.
  assert (∀ w' x y z fd, fds w' = table a b c x y z rest →
                         junk w fd → junk w' fd) as Hjunk.
  { intros w' x y z fd Hw'. apply junk_fds. by rewrite Hw', Hw. }
  destruct (bool_decide (ncommands line > 1)).
  - destruct (pipe_spec (p u) w1 _ 3 4 Hw1) as (Hq & Hf & Hv);
      [rewrite E2; by apply pipes_succeed_head | reflexivity..|].
    rewrite E1 in Hf. rewrite E1, E2, E3, E4, E5 in Hv.
    set (w1' := (pipe (p u) w1).2) in *.
    unfold env in Hv. injection Hv as V1 V2 V3 V4 V5.
    split; [done|]. split; [done|]. split; [done|]. split; [exact Hf|].
    split; [by rewrite Hq|]. rewrite Hq. cbn [fst snd].
    assert (fds (close (Z.of_nat 4) (fork w1').2)
            = table a b c (Some (PipeRead (pipes w))) None None rest) as Hc.
    { apply (fds_close_table a b c rest (Z.of_nat 4) _
               (Some (PipeRead (pipes w))) (Some (PipeWrite (pipes w))) None);
        [by rewrite fds_fork|done]. }
    split.
    + rewrite fds_restore_junk; [done|by eapply Hjunk..].
    + by rewrite env_restore, env_close, env_fork, V1, V2, V3, V4, V5.
  - cbn [fst snd].
    split; [done|]. split; [done|]. split; [done|]. split; [done|].
    split; [done|].
    assert (fds (close (snd (p u)) (fork w1).2)
            = table a b c None None None rest) as Hc.
    { rewrite fds_close_junk; [by rewrite fds_fork|].
      eapply Hjunk; [|done]. by rewrite fds_fork. }
    split.
    + rewrite fds_restore_junk; [done|by eapply Hjunk..].
    + by rewrite env_restore, env_close, env_fork, E1, E2, E3, E4, E5.
Qed.

(** X21: in a shell with descriptors 3, 4 and 5 free, where the unassigned
    variables hold no descriptor numbers and no call of [pipe] fails, the
    shell comes back from a command line of any number of commands, in the
    foreground or in the background, with the descriptor table it had
    before: every end of every pipe it made is closed again and the
    standard streams are where they were. *)
Theorem pipeline_leaves_the_descriptors line jobs buffer u w :
  fds w = table a b c None None None rest → harmless u w →
  pipes_succeed w →
  fds (executeExternalCommands line jobs buffer u w).2 = fds w.
Proof.
  intros Hw Hu Hok.
  destruct (pipeline_start line jobs buffer u w)
    as (cur & jobs' & w3 & Hf3 & He3 & Hexec & _).
  destruct (pipeline_first_turn line u w Hw Hu Hok)
    as (_ & _ & _ & _ & Hp & Hf2 & He2).
  cbv zeta in *. rewrite Hexec. clear Hexec.
  change (fds (signal ctrlc ?x)) with (fds x).
  rewrite He2 in He3. rewrite Hf2 in Hf3. clear Hf2 He2.
  unfold env in He3. injection He3 as E1 E2 E3 E4 E5.
  destruct Hu as (Hi & Ho & He & _).
  assert (∀ w', fds w' = table a b c None None None rest →
                fds (restore (stdinfd u) (stdoutfd u) (stderrfd u) w') = fds w)
    as Hrestore.
  { intros w' Hw'. rewrite fds_restore_junk; [by rewrite Hw', Hw|..];
      (eapply junk_fds; [|done]); by rewrite Hw', Hw. }
  apply Hrestore.
  destruct (bool_decide (ncommands line > 1)) eqn:Hnext; [|done].
  apply bool_decide_eq_true_1 in Hnext.
  destruct (Z.to_nat (ncommands line - 1)) as [|n] eqn:Hn; [lia|].
  apply (loop_closes_the_pipes a b c rest n _ _ _ (pipes w)).
  - split; [cbn [ls_world]; lia|]. cbv zeta.
    rewrite bool_decide_eq_false_2 by done. cbn [ls_p ls_world].
    split; [exists 4; split; [by rewrite Hp|by left]|].
    rewrite Hf3. do 2 f_equal. f_equal. lia.
  - done.
  - cbn [ls_world]. by eapply pipes_succeed_tail.
  - lia.
Qed.

(** X22: in a shell with descriptors 3, 4 and 5 free, where the unassigned
    variables hold no descriptor numbers, no call of [pipe] or [fork]
    fails, some descriptor above 5 is free and the files of the
    redirections can be opened, [executeExternalCommands] forks one child
    per command, and the child of command [i] goes on to its program with
    exactly this: its input is the read end of the pipe of command
    [i - 1], or for the first command the redirected input; its output is
    the write end of its own pipe, or for the last command the redirected
    output; its error stream is the redirected error stream; no other end
    of any pipe is open in it, and it has printed nothing. *)
Theorem pipeline_is_wired line jobs buffer u w k :
  fds w = table a b c None None None rest → harmless u w →
  pipes_succeed w → 1 <= ncommands line →
  forks_succeed (Z.to_nat (ncommands line)) w →
  lowest_free rest = Some k →
  openable w (redirect_input line) FILE_READ →
  openable w (redirect_output line) FILE_WRITE →
  openable w (redirect_error line) FILE_WRITE →
  Forall2 (runs_wired line (pipes w) a b c rest (path w))
    (seq 0 (Z.to_nat (ncommands line)))
    (child_endings line jobs buffer u w).
Proof.
  intros Hw Hu Hok Hn Hfork Hk Hin Hout Herr.
  destruct (pipeline_start line jobs buffer u w)
    as (cur & jobs' & w3 & Hf3 & He3 & _ & Hch).
  destruct (pipeline_first_turn line u w Hw Hu Hok)
    as (Hfr & Hfs & Hpath & Hf1 & Hp & Hf2 & He2).
  cbv zeta in *. rewrite Hch. clear Hch.
  rewrite He2 in He3. rewrite Hf2 in Hf3. clear Hf2 He2.
  unfold env in He3. injection He3 as E1 E2 E3 E4 E5.
  destruct (Z.to_nat (ncommands line)) as [|n] eqn:HN; [lia|].
  rewrite decide_True
    by (apply fork_pid; rewrite Hfr; by eapply forks_succeed_head).
  cbn [seq app]. constructor.
  - rewrite <- Hpath.
    destruct (bool_decide (ncommands line > 1)) eqn:Hnext.
    + apply (first_child_wired a b c rest line _ (pipes w) k _
               (Some (PipeRead (pipes w))) (Some (PipeWrite (pipes w))));
        [done | rewrite Hnext; split; [by apply Hp|done] | done
        | by eapply openable_fs..].
    + apply bool_decide_eq_false_1 in Hnext.
      apply (first_child_wired a b c rest line _ (pipes w) k _ None None);
        [done | rewrite bool_decide_eq_false_2 by done; split; [lia|done]
        | done | by eapply openable_fs..].
  - destruct (bool_decide (ncommands line > 1)) eqn:Hnext.
    + apply bool_decide_eq_true_1 in Hnext.
      replace (Z.to_nat (ncommands line - 1)) with n by lia.
      rewrite <- E5.
      match goal with |- Forall2 _ _ (loop_children _ _ _ _ _ ?st) =>
        apply (loop_children_wired a b c rest n line _ cur (pipes w) 1 st k)
      end; cbn [ls_world]; try done.
      * split; [cbn [ls_world]; lia|]. cbv zeta.
        rewrite bool_decide_eq_false_2 by done. cbn [ls_p ls_world].
        split; [exists 4; split; [by rewrite Hp|by left]|].
        rewrite Hf3. do 2 f_equal. f_equal. lia.
      * by eapply pipes_succeed_tail.
      * by eapply forks_succeed_tail.
      * lia.
      * by eapply openable_fs.
      * by eapply openable_fs.
      * by eapply openable_fs.
    + apply bool_decide_eq_false_1 in Hnext.
      replace n with O by lia. constructor.
Qed.
End Pipelines.

Lemma pipeline_leaves_the_descriptors_witness :
  fds (executeExternalCommands redirected_pipeline (sample_jobs [])
         "cat < names.txt | sort | uniq > sorted.txt" junk_frame
         (sample_world [] [40; 41; 42] [])).2
  = fds (sample_world [] [40; 41; 42] []).
Proof.
  apply (pipeline_leaves_the_descriptors (Inherited "in") (Inherited "out")
           (Inherited "err") (replicate 10 None)).
  - reflexivity.
  - unfold harmless, junk. simpl. repeat split; lia.
  - constructor.
Defined.

Lemma pipeline_is_wired_witness :
  Forall2
    (runs_wired redirected_pipeline 0 (Inherited "in") (Inherited "out")
       (Inherited "err") (replicate 10 None) (λ _, true))
    [0; 1; 2]%nat
    (child_endings redirected_pipeline (sample_jobs [])
       "cat < names.txt | sort | uniq > sorted.txt" junk_frame
       (sample_world [] [40; 41; 42] [])).
Proof.
  apply (pipeline_is_wired (Inherited "in") (Inherited "out")
           (Inherited "err") (replicate 10 None) redirected_pipeline
           (sample_jobs []) "cat < names.txt | sort | uniq > sorted.txt"
           junk_frame (sample_world [] [40; 41; 42] []) 0).
  - reflexivity.
  - unfold harmless, junk. simpl. repeat split; lia.
  - constructor.
  - simpl. lia.
  - intros i Hi. simpl in Hi.
    destruct i as [|[|[|i]]];
      [eexists; split; [reflexivity|lia]..|lia].
  - reflexivity.
  - reflexivity.
  - reflexivity.
  - exact I.
Defined.

(** ** One command more than a job has cells *)

Section Overrun.
Implicit Types (w : world) (st : loop_state) (t : list event) (c turns : nat).

Lemma loop_split m n commands bg cur (command : Z) st :
  loop (m + n) commands bg cur command st
  = loop n commands bg cur (command + Z.of_nat m)
      (loop m commands bg cur command st).
Proof.
  revert command st. induction m as [|m IH]; intros command st.
  - simpl. by rewrite Z.add_0_r.
  - cbn [Nat.add loop]. rewrite IH. f_equal. lia.
Qed.

(** The turn of command 25 of a background pipeline: the result of the
    fork goes into the field [finished] of the job. *)
Lemma loop_body_overrun commands cur st j :
  0 <= cur → jobs_list (ls_jobs st) !! Z.to_nat cur = Some j →
  let st' := loop_body commands true cur MAXIMUM_PID_LIST_SIZE st in
  ∃ t r, trace (ls_world st') = trace (ls_world st) ++ t ∧
    forks t = [r] ∧
    jobs_list (ls_jobs st') !! Z.to_nat cur
    = Some {| job_instruction := job_instruction j; job_size := job_size j;
              job_pids := job_pids j; job_finished := r |} ∧
    jobs_overrun (ls_jobs st')
    = jobs_overrun (ls_jobs st) ++ [(cur, MAXIMUM_PID_LIST_SIZE, r)].
Proof.
  intros Hcur Hj. unfold loop_body.
  assert (∀ pid,
            jobs_list (record_pid cur MAXIMUM_PID_LIST_SIZE pid (ls_jobs st))
              !! Z.to_nat cur
            = Some {| job_instruction := job_instruction j;
                      job_size := job_size j;
                      job_pids := job_pids j; job_finished := pid |}
            ∧ jobs_overrun (record_pid cur MAXIMUM_PID_LIST_SIZE pid (ls_jobs st))
              = jobs_overrun (ls_jobs st) ++ [(cur, MAXIMUM_PID_LIST_SIZE, pid)])
    as Hrec.
  { intros pid. unfold record_pid. rewrite decide_False by lia.
    rewrite decide_True by done. cbn [jobs_list jobs_overrun].
    rewrite (aget_lookup _ _ _ j) by done. split; [|done].
    apply lookup_aset_eq; [done|]. by eapply lookup_lt_Some. }
  destruct (bool_decide (Z.rem MAXIMUM_PID_LIST_SIZE 2 = 0)).
  - destruct (trace_pipe (ls_p st) (ls_world st)) as [m Htp].
    destruct (pipe (ls_p st) (ls_world st)) as [q w1]. cbn [fst snd] in *.
    pose proof (trace_fork w1) as Htf.
    destruct (fork w1) as [r w2]. cbn [fst snd] in *.
    destruct (Hrec r) as [Hr1 Hr2].
    destruct (bool_decide (MAXIMUM_PID_LIST_SIZE = commands - 1));
      cbn [ls_world ls_jobs].
    + eexists [EPipe m; EFork r; OutJob _ r], r.
      cbn [trace emit]. rewrite !trace_close, !trace_dup2, Htf, Htp.
      split; [by rewrite <- !app_assoc|]. done.
    + exists [EPipe m; EFork r], r.
      rewrite !trace_close, !trace_dup2, Htf, Htp.
      split; [by rewrite <- !app_assoc|]. done.
  - destruct (trace_pipe (ls_p2 st) (ls_world st)) as [m Htp].
    destruct (pipe (ls_p2 st) (ls_world st)) as [q w1]. cbn [fst snd] in *.
    pose proof (trace_fork w1) as Htf.
    destruct (fork w1) as [r w2]. cbn [fst snd] in *.
    destruct (Hrec r) as [Hr1 Hr2].
    destruct (bool_decide (MAXIMUM_PID_LIST_SIZE = commands - 1));
      cbn [ls_world ls_jobs].
    + eexists [EPipe m; EFork r; OutJob _ r], r.
      cbn [trace emit]. rewrite !trace_close, !trace_dup2, Htf, Htp.
      split; [by rewrite <- !app_assoc|]. done.
    + exists [EPipe m; EFork r], r.
      rewrite !trace_close, !trace_dup2, Htf, Htp.
      split; [by rewrite <- !app_assoc|]. done.
Qed.
End Overrun.

Section OverrunTheorem.
Implicit Types (w : world) (jobs : tjobs).

(** X23: a background pipeline of 26 commands, one more than a job has
    cells for process ids: the process ids of the first 25 commands fill
    the array [pids] of the job, and the write for the last command,
    [currentJob->pids[25] = pid], leaves the array and lands on the field
    [finished] of the job, which then holds the process id of the last
    command instead of 0. *)
Theorem one_command_too_many line jobs buffer u w :
  background line = 1 →
  registry_ok jobs → pids_ok jobs →
  ncommands line = MAXIMUM_PID_LIST_SIZE + 1 →
  let r := executeExternalCommands line jobs buffer u w in
  ∃ t job, trace r.2 = trace w ++ t ∧
    jobs_list r.1 !! Z.to_nat (jobs_size jobs) = Some job ∧
    length (job_pids job) = Z.to_nat MAXIMUM_PID_LIST_SIZE ∧
    forks t = job_pids job ++ [job_finished job] ∧
    jobs_overrun r.1
    = jobs_overrun jobs
        ++ [(jobs_size jobs, MAXIMUM_PID_LIST_SIZE, job_finished job)].
Proof.
  intros Hbg [Hlen Hsize] Hpids HN. unfold executeExternalCommands.
  rewrite (bool_decide_eq_true_2 (background line = 1)) by done.
  rewrite HN.
  rewrite (bool_decide_eq_true_2 (MAXIMUM_PID_LIST_SIZE + 1 > 1)) by done.
  change (Z.to_nat (MAXIMUM_PID_LIST_SIZE + 1 - 1)) with (24 + 1)%nat.
  unfold MAXIMUM_JOB_LIST_SIZE in *.
  set (w0 := store _ _ _ (signal ctrlc2 w)).
  assert (trace w0 = trace w) as Ht0 by (unfold w0; by rewrite trace_store).
  destruct (lookup_lt_is_Some_2 (jobs_list jobs) (Z.to_nat (jobs_size jobs))
              ltac:(lia)) as [old Hold].
  assert (length (job_pids old) = 25%nat) as Hlo.
  { unfold pids_ok in Hpids. rewrite Forall_forall in Hpids.
    apply Hpids. by eapply list_elem_of_lookup_2. }
  assert (∀ pid, jobs_list (register_job buffer (MAXIMUM_PID_LIST_SIZE + 1)
                              pid jobs)
                   !! Z.to_nat (jobs_size jobs)
                 = Some {| job_instruction := buffer;
                           job_size := MAXIMUM_PID_LIST_SIZE + 1;
                           job_pids := <[0%nat := pid]> (job_pids old);
                           job_finished := 0 |}) as Hreg.
  { intros pid. unfold register_job. cbn [jobs_list].
    rewrite (aget_lookup _ _ _ old) by (done || lia).
    rewrite (aset_nat _ 0). apply lookup_aset_eq; lia. }
  destruct (trace_pipe (p u) w0) as [m Htp].
  destruct (pipe (p u) w0) as [q w1]. cbn [fst snd] in *.
  pose proof (trace_fork w1) as Htf.
  destruct (fork w1) as [r0 w2]. cbn [fst snd] in *.
  rewrite loop_split.
  match goal with |- context [loop 24 ?c true ?cur 1 ?st] =>
    destruct (loop_background 24 c cur 1 st _ ltac:(lia) (Hreg r0))
      as (t1 & j' & Ht1 & _ & _ & _ & _ & Hj1 & _ & Hll1 & Htk1);
    [cbn [job_pids]; rewrite length_insert; lia
    |cbn [job_pids]; rewrite length_insert;
     unfold MAXIMUM_PID_LIST_SIZE; lia
    |];
    pose proof (loop_overrun 24 c true cur 1 st ltac:(lia)
                  ltac:(unfold MAXIMUM_PID_LIST_SIZE; lia)) as Hov1;
    change (Z.of_nat 1) with 1 in *;
    set (st24 := loop 24 c true cur 1 st) in *
  end.
  cbn [ls_world ls_jobs job_pids job_size] in *.
  rewrite length_insert in Hll1.
  change (1 + Z.of_nat 24) with MAXIMUM_PID_LIST_SIZE. cbn [loop].
  destruct (loop_body_overrun (MAXIMUM_PID_LIST_SIZE + 1) (jobs_size jobs)
              st24 j' ltac:(lia) Hj1) as (t2 & r & Ht2 & Hf2 & Hj2 & Hov2).
  cbv zeta in Ht2, Hj2, Hov2. cbn [fst snd].
  rewrite trace_signal, trace_restore.
  eexists ([EPipe m; EFork r0] ++ t1 ++ t2), _.
  split; [|split; [exact Hj2|]].
  { rewrite Ht2, Ht1, trace_restore, trace_close, Htf, Htp, Ht0.
    by rewrite <- !app_assoc. }
  cbn [job_pids job_finished].
  split; [by rewrite Hll1, Hlo|]. split.
  - rewrite !forks_app, Hf2. change (forks [EPipe m; EFork r0]) with [r0].
    rewrite <- (take_ge (job_pids j') (1 + 24)) at 1 by lia.
    rewrite Htk1. rewrite (take_S_r _ 0 r0) by (apply list_lookup_insert_eq; lia).
    by rewrite <- !app_assoc.
  - by rewrite Hov2, Hov1.
Qed.

Lemma one_command_too_many_witness :
  let r := executeExternalCommands (sample_line 26 1) empty_jobs "cmd &"
             junk_frame
             (sample_world [] ((λ i : nat, 20 + Z.of_nat i) <$> seq 0 26) []) in
  ∃ job, jobs_list r.1 !! 0%nat = Some job ∧
         job_finished job = 45 ∧
         jobs_overrun r.1 = [(0, 25, 45)].
Proof.
  intros r.
  destruct (one_command_too_many (sample_line 26 1) empty_jobs "cmd &"
              junk_frame
              (sample_world [] ((λ i : nat, 20 + Z.of_nat i) <$> seq 0 26) []))
    as (t & job & Ht & Hj & Hl & Hf & Hov);
    [evaluate | evaluate | evaluate | reflexivity |].
  exists job. split; [exact Hj|].
  assert (forks t = (λ i : nat, 20 + Z.of_nat i) <$> seq 0 26) as Hft.
  { vm_compute in Ht. subst t. reflexivity. }
  assert (job_finished job = 45) as H45.
  { rewrite Hft in Hf.
    assert (length (job_pids job) = 25%nat) as Hl' by exact Hl.
    apply (f_equal (λ l, l !! 25%nat)) in Hf.
    rewrite lookup_app_r in Hf by lia. rewrite Hl' in Hf.
    simpl in Hf. by injection Hf. }
  split; [exact H45|]. subst r. rewrite Hov, H45. reflexivity.
Defined.
End OverrunTheorem.
